(** * Particle pool of the hand-tracking particle effect

    A shallow embedding of [ParticleSystem], [MathUtils] and
    [ParticleEffects], with the properties of the pool, of its per-frame
    integration, of its finger interaction and of its emission; and of the
    modules around them: [EventEmitter], the loop of [GameEngine] and
    [HandTracker.processResults].

    Conventions of the embedding.
    - A JavaScript number is an exact rational extended with the two
      infinities and NaN ([num]).  Rounding to binary64 / binary32 and the
      sign of zero are not modelled; the special values are, so that a
      division by zero is visible.
    - [Math.random], [Math.sqrt], [Math.cos], [Math.sin], [Math.PI] and the
      colour parser [THREE.Color] belong to the platform: they are the
      fields of the class [Platform].  [Math.random] is a sequence of draws
      in [[0, 1)], and the state keeps the number of draws made so far.
    - The capacity is a natural number; the lifetimes and the emission rate
      are whole numbers, as in the configuration and the settings panel.
    - An ordinary JavaScript array is a [list]; an element assignment past
      the end extends it ([js_set]).  A [Float32Array] has a fixed length and
      ignores a write out of range (stdpp's list insert).
    - The Three.js scene objects, the [needsUpdate] flags and the console
      are outside the embedding, and so are the events that the particle
      system itself emits. *)

From Stdlib Require Import ZArith QArith Qround Lia Lqa Ascii String.
From stdpp Require Import base option list strings gmap.

Local Open Scope Z_scope.

(** ** JavaScript numbers *)

Module JS.

Inductive num : Type :=
| Fin (q : Q)
| PInf
| NInf
| NaN.

(** Finite results are kept in lowest terms, so that equal numbers are equal
    terms. *)
Definition fin (q : Q) : num := Fin (Qred q).

Definition Qsign (q : Q) : comparison := (Qnum q ?= 0)%Z.

Definition neg (a : num) : num :=
  match a with
  | Fin q => fin (- q)
  | PInf => NInf
  | NInf => PInf
  | NaN => NaN
  end.

Definition add (a b : num) : num :=
  match a, b with
  | NaN, _ => NaN
  | _, NaN => NaN
  | Fin x, Fin y => fin (x + y)
  | PInf, NInf => NaN
  | NInf, PInf => NaN
  | PInf, _ => PInf
  | _, PInf => PInf
  | NInf, _ => NInf
  | _, NInf => NInf
  end.

Definition sub (a b : num) : num := add a (neg b).

(** The infinity of the given sign; the product of an infinity with zero is
    NaN. *)
Definition inf_of (c : comparison) : num :=
  match c with
  | Gt => PInf
  | Lt => NInf
  | Eq => NaN
  end.

Definition flip (c : comparison) : comparison := CompOpp c.

Definition mul (a b : num) : num :=
  match a, b with
  | NaN, _ => NaN
  | _, NaN => NaN
  | Fin x, Fin y => fin (x * y)
  | Fin x, PInf => inf_of (Qsign x)
  | Fin x, NInf => inf_of (flip (Qsign x))
  | PInf, Fin y => inf_of (Qsign y)
  | NInf, Fin y => inf_of (flip (Qsign y))
  | PInf, PInf => PInf
  | NInf, NInf => PInf
  | PInf, NInf => NInf
  | NInf, PInf => NInf
  end.

(** [x / 0] is an infinity of the sign of [x], and [0 / 0] is NaN. *)
Definition div (a b : num) : num :=
  match a, b with
  | NaN, _ => NaN
  | _, NaN => NaN
  | Fin x, Fin y =>
      match Qsign y with
      | Eq => inf_of (Qsign x)
      | _ => fin (x / y)
      end
  | Fin _, PInf => fin 0
  | Fin _, NInf => fin 0
  | PInf, Fin y => match Qsign y with Lt => NInf | _ => PInf end
  | NInf, Fin y => match Qsign y with Lt => PInf | _ => NInf end
  | _, _ => NaN
  end.

(** The comparison [a < b]: false as soon as one side is NaN. *)
Definition lt (a b : num) : bool :=
  match a, b with
  | NaN, _ => false
  | _, NaN => false
  | Fin x, Fin y => if Qlt_le_dec x y then true else false
  | NInf, NInf => false
  | NInf, _ => true
  | _, PInf => match a with PInf => false | _ => true end
  | _, _ => false
  end.

(** [Math.min(a, b)]. *)
Definition min (a b : num) : num :=
  match a, b with
  | NaN, _ => NaN
  | _, NaN => NaN
  | _, _ => if lt b a then b else a
  end.

Definition is_finite (a : num) : bool :=
  match a with
  | Fin _ => true
  | _ => false
  end.

End JS.

Abbreviation num := JS.num.
Abbreviation Fin := JS.Fin.
Abbreviation NaN := JS.NaN.

Declare Scope js_scope.
Delimit Scope js_scope with js.
Infix "+" := JS.add : js_scope.
Infix "-" := JS.sub : js_scope.
Infix "*" := JS.mul : js_scope.
Infix "/" := JS.div : js_scope.

(** The numeric literals of the source. *)
Definition n0 : num := Fin 0.
Definition n1 : num := Fin 1.
Definition n2 : num := Fin 2.
Definition n0_5 : num := Fin (1 # 2).
Definition n0_1 : num := Fin (1 # 10).
Definition n0_2 : num := Fin (1 # 5).
Definition n0_05 : num := Fin (1 # 20).
Definition OFFSCREEN : num := Fin (-1000).

(** ** Arrays *)

(** [arr[i] = x] on an ordinary array.  Past the end JavaScript leaves holes
    before the new element; a hole reads as [undefined], which [hole] stands
    for. *)
Definition js_set {A : Type} (hole : A) (i : nat) (x : A) (arr : list A) : list A :=
  if (i <? length arr)%nat then <[i := x]> arr
  else arr ++ replicate (i - length arr) hole ++ [x].

(** [arr.forEach((x, k) => body)], threading the state the body mutates. *)
Fixpoint forEach_from {A St : Type} (body : A -> nat -> St -> St)
  (k : nat) (arr : list A) (s : St) : St :=
  match arr with
  | [] => s
  | x :: rest => forEach_from body (S k) rest (body x k s)
  end.

Definition forEach {A St : Type} (body : A -> nat -> St -> St)
  (arr : list A) (s : St) : St :=
  forEach_from body 0 arr s.

(** [for (let i = 0; i < n; i++) body(i)]. *)
Definition for_upto {St : Type} (n : nat) (body : nat -> St -> St) (s : St) : St :=
  foldl (fun acc i => body i acc) s (seq 0 n).

(** ** Data model *)

(** [{x, y, z}]: a velocity, or a finger-tip point. *)
Record Vec3 : Type := mkVec3 { vx : num; vy : num; vz : num }.

(** [{x, y}]: the optional velocity estimate of a hand. *)
Record Vec2 : Type := mkVec2 { hx : num; hy : num }.

(** A [THREE.Color]. *)
Record Color : Type := mkColor { cr : num; cg : num; cb : num }.

(** One hand of the snapshot published by the hand tracker. *)
Record Hand : Type := mkHand {
  tips : list Vec3;
  fingerExtension : list bool;
  velocity : option Vec2
}.

(** [Config.particles], the keys of [this.options].  [count], [lifetime] and
    [emissionRate] hold whole numbers. *)
Record Options : Type := mkOptions {
  count : nat;
  size : num;
  maxSpeed : num;
  lifetime : Z;
  colors : list string;
  emissionRate : Z;
  gravity : num;
  friction : num;
  bounceStrength : num;
  interactionRadius : num
}.

(** A property bag handed to the constructor or to [updateProperties]: the
    keys it carries. *)
Record Properties : Type := mkProperties {
  p_count : option nat;
  p_size : option num;
  p_maxSpeed : option num;
  p_lifetime : option Z;
  p_colors : option (list string);
  p_emissionRate : option Z;
  p_gravity : option num;
  p_friction : option num;
  p_bounceStrength : option num;
  p_interactionRadius : option num
}.

Definition no_properties : Properties :=
  mkProperties None None None None None None None None None None.

(** [{ ...base, ...props }]. *)
Definition spread (base : Options) (props : Properties) : Options :=
  {| count := default (count base) (p_count props);
     size := default (size base) (p_size props);
     maxSpeed := default (maxSpeed base) (p_maxSpeed props);
     lifetime := default (lifetime base) (p_lifetime props);
     colors := default (colors base) (p_colors props);
     emissionRate := default (emissionRate base) (p_emissionRate props);
     gravity := default (gravity base) (p_gravity props);
     friction := default (friction base) (p_friction props);
     bounceStrength := default (bounceStrength base) (p_bounceStrength props);
     interactionRadius :=
       default (interactionRadius base) (p_interactionRadius props) |}.

(** [Config.particles] of config.js. *)
Definition Config_particles : Options :=
  {| count := 1000;
     size := Fin (1 # 2);
     maxSpeed := Fin 2;
     lifetime := 1500;
     colors := ["#ff4444"; "#44ff44"; "#4444ff"; "#ffff44"; "#ff44ff"]%string;
     emissionRate := 5;
     gravity := Fin (3 # 100);
     friction := Fin (98 # 100);
     bounceStrength := Fin (85 # 100);
     interactionRadius := Fin 10 |}.

(** The fields of a [ParticleSystem].  [particles] and [particleColors] are
    the two [Float32Array]s of the geometry; [rng] counts the draws made from
    [Math.random]. *)
Record ParticleSystem : Type := mkPS {
  options : Options;
  particles : list num;
  particleColors : list num;
  velocities : list Vec3;
  lifetimes : list Z;
  colorObjs : list Color;
  active : list bool;
  particleCount : nat;
  maxParticles : nat;
  fingerPositions : option (list Hand);
  rng : nat
}.

Definition zeroVec : Vec3 := mkVec3 n0 n0 n0.

(** ** The platform *)

(** What the code takes from its environment.  [Math_random k] is the value
    of the [k]-th call of [Math.random()], a number of [[0, 1)];
    [THREE_Color] parses a colour code ([None] is [undefined], what an empty
    palette yields). *)
Class Platform : Type := {
  Math_random : nat -> Q;
  Math_sqrt : num -> num;
  Math_cos : num -> num;
  Math_sin : num -> num;
  Math_PI : num;
  THREE_Color : option string -> Color;
  Math_random_range : forall k, (0 <= Math_random k < 1)%Q
}.

(** ** The particle system *)

Section Engine.

Context {platform : Platform}.

Local Open Scope nat_scope.

(** [Math.floor(Math.random() * n)] for the [k]-th draw. *)
Definition randomIndex (k n : nat) : nat :=
  Z.to_nat (Qfloor (Math_random k * inject_Z (Z.of_nat n))).

(** [MathUtils.randomInt(min, max)] for the [k]-th draw. *)
Definition randomInt (k : nat) (min max : Z) : Z :=
  (Qfloor (Math_random k * inject_Z (max - min + 1)) + min)%Z.

(** [getRandomColor()] on the [k]-th draw:
    [this.options.colors[Math.floor(Math.random() * this.options.colors.length)]]. *)
Definition getRandomColor (k : nat) (s : ParticleSystem) : option string :=
  colors (options s) !! randomIndex k (length (colors (options s))).

(** [new ParticleSystem(options)]. *)
Definition construct (opts : Properties) : ParticleSystem :=
  let o := spread Config_particles opts in
  {| options := o;
     particles := [];
     particleColors := [];
     velocities := [];
     lifetimes := [];
     colorObjs := [];
     active := [];
     particleCount := 0;
     maxParticles := count o;
     fingerPositions := Some [];
     rng := 0 |}.

(** One turn of the loop of [init]: slot [i] is parked off screen with a
    palette colour, and one entry is pushed on each side array. *)
Definition initSlot (i : nat) (s : ParticleSystem) : ParticleSystem :=
  let color := THREE_Color (getRandomColor (rng s) s) in
  {| options := options s;
     particles :=
       <[i * 3 + 2 := OFFSCREEN]> (<[i * 3 + 1 := n0]> (<[i * 3 := n0]> (particles s)));
     particleColors :=
       <[i * 3 + 2 := cb color]>
         (<[i * 3 + 1 := cg color]> (<[i * 3 := cr color]> (particleColors s)));
     velocities := velocities s ++ [zeroVec];
     lifetimes := lifetimes s ++ [0%Z];
     colorObjs := colorObjs s ++ [color];
     active := active s ++ [false];
     particleCount := particleCount s;
     maxParticles := maxParticles s;
     fingerPositions := fingerPositions s;
     rng := S (rng s) |}.

(** [init(scene)]: the two typed arrays of [maxParticles * 3] zeros, then the
    loop over the slots. *)
Definition init (s : ParticleSystem) : ParticleSystem :=
  for_upto (maxParticles s) initSlot
    {| options := options s;
       particles := replicate (maxParticles s * 3) n0;
       particleColors := replicate (maxParticles s * 3) n0;
       velocities := velocities s;
       lifetimes := lifetimes s;
       colorObjs := colorObjs s;
       active := active s;
       particleCount := particleCount s;
       maxParticles := maxParticles s;
       fingerPositions := fingerPositions s;
       rng := rng s |}.

(** The scan of [emitParticle] for a slot with [!this.active[i]], from [i] on,
    for at most [fuel] slots. *)
Fixpoint scanInactive (fuel i : nat) (act : list bool) : option nat :=
  match fuel with
  | O => None
  | S fuel' =>
      match act !! i with
      | Some true => scanInactive fuel' (S i) act
      | _ => Some i
      end
  end.

Definition firstInactive (s : ParticleSystem) : option nat :=
  scanInactive (maxParticles s) 0 (active s).

(** The slot [emitParticle] picks, and the number of draws made once it is
    picked: the first inactive slot, or a random one when there is none. *)
Definition selectSlot (s : ParticleSystem) : nat * nat :=
  match firstInactive s with
  | Some i => (i, rng s)
  | None => (randomIndex (rng s) (maxParticles s), S (rng s))
  end.

(** [emitParticle(x, y, z)].  The function has no [return] statement: its
    result is [undefined], here [None]. *)
Definition emitParticle (x y z : num) (s : ParticleSystem)
  : ParticleSystem * option nat :=
  let '(particleIndex, k) := selectSlot s in
  let angle := (Fin (Math_random k) * Math_PI * n2)%js in
  let speed := (Fin (Math_random (k + 1)) * maxSpeed (options s))%js in
  let velocity :=
    {| vx := (Math_cos angle * speed)%js;
       vy := (Math_sin angle * speed)%js;
       vz := ((Fin (Math_random (k + 2)) - n0_5) * n0_2)%js |} in
  let color :=
    THREE_Color
      (colors (options s) !! randomIndex (k + 3) (length (colors (options s)))) in
  ({| options := options s;
      particles :=
        <[particleIndex * 3 + 2 := z]>
          (<[particleIndex * 3 + 1 := y]> (<[particleIndex * 3 := x]> (particles s)));
      particleColors :=
        <[particleIndex * 3 + 2 := cb color]>
          (<[particleIndex * 3 + 1 := cg color]>
             (<[particleIndex * 3 := cr color]> (particleColors s)));
      velocities := js_set zeroVec particleIndex velocity (velocities s);
      lifetimes := js_set 0%Z particleIndex (lifetime (options s)) (lifetimes s);
      colorObjs := colorObjs s;
      active := js_set false particleIndex true (active s);
      particleCount := particleCount s;
      maxParticles := maxParticles s;
      fingerPositions := fingerPositions s;
      rng := k + 4 |},
   None).

(** The body of the inner [forEach] of [handleFingerInteraction] for one tip
    of [hand]; [px], [py] are the particle's coordinates read before the
    loops. *)
Definition interactTip (index : nat) (px py : num) (hand : Hand) (tip : Vec3)
  (s : ParticleSystem) : ParticleSystem :=
  let dx := (vx tip - px)%js in
  let dy := (vy tip - py)%js in
  let distance := Math_sqrt (dx * dx + dy * dy)%js in
  if JS.lt distance (interactionRadius (options s)) then
    let pushStrength :=
      (n0_5 * (n1 - distance / interactionRadius (options s)))%js in
    let v :=
      match velocity hand with
      | Some hv => ((hx hv * n0_1)%js, (hy hv * n0_1)%js)
      | None => (n0, n0)
      end in
    {| options := options s;
       particles := particles s;
       particleColors :=
         alter (fun c => JS.min n1 (c + n0_05)%js) (index * 3) (particleColors s);
       velocities :=
         alter (fun w =>
                  {| vx := (vx w + (dx / distance * pushStrength + fst v))%js;
                     vy := (vy w + (dy / distance * pushStrength + snd v))%js;
                     vz := vz w |}) index (velocities s);
       lifetimes := alter (fun l => (l + 5)%Z) index (lifetimes s);
       colorObjs := colorObjs s;
       active := active s;
       particleCount := particleCount s;
       maxParticles := maxParticles s;
       fingerPositions := fingerPositions s;
       rng := rng s |}
  else s.

(** A typed-array read; out of range it is [undefined], NaN in arithmetic. *)
Definition readF32 (arr : list num) (i : nat) : num := default NaN (arr !! i).

(** [handleFingerInteraction(index)]. *)
Definition handleFingerInteraction (index : nat) (s : ParticleSystem)
  : ParticleSystem :=
  match fingerPositions s with
  | None => s
  | Some [] => s
  | Some hands =>
      let px := readF32 (particles s) (index * 3) in
      let py := readF32 (particles s) (index * 3 + 1) in
      forEach (fun hand _ =>
                 forEach (fun tip (fingerIndex : nat) =>
                            interactTip index px py hand tip) (tips hand))
        hands s
  end.

Definition set_rng (k : nat) (s : ParticleSystem) : ParticleSystem :=
  {| options := options s;
     particles := particles s;
     particleColors := particleColors s;
     velocities := velocities s;
     lifetimes := lifetimes s;
     colorObjs := colorObjs s;
     active := active s;
     particleCount := particleCount s;
     maxParticles := maxParticles s;
     fingerPositions := fingerPositions s;
     rng := k |}.

Definition set_particleCount (n : nat) (s : ParticleSystem) : ParticleSystem :=
  {| options := options s;
     particles := particles s;
     particleColors := particleColors s;
     velocities := velocities s;
     lifetimes := lifetimes s;
     colorObjs := colorObjs s;
     active := active s;
     particleCount := n;
     maxParticles := maxParticles s;
     fingerPositions := fingerPositions s;
     rng := rng s |}.

(** Gravity on [y], then friction on the three components. *)
Definition applyForces (o : Options) (w : Vec3) : Vec3 :=
  {| vx := (vx w * friction o)%js;
     vy := ((vy w + gravity o) * friction o)%js;
     vz := (vz w * friction o)%js |}.

(** The body of the loop of [update] for slot [i]; the second component is
    the local [activeCount].  The local [opacity] of the source is computed
    and never used, and is left out.  The side arrays have an entry for every slot
    in all the states the system reaches ([init_shape], [run_shape] below); on a
    missing velocity entry, where the source would raise a TypeError, the
    embedding integrates with the zero vector. *)
Definition updateSlot (i : nat) (st : ParticleSystem * nat) : ParticleSystem * nat :=
  let '(s, activeCount) := st in
  match active s !! i with
  | Some true =>
      let lifetimes1 := alter (fun l => (l - 1)%Z) i (lifetimes s) in
      if decide (default 1%Z (lifetimes1 !! i) <= 0)%Z then
        ({| options := options s;
            particles := <[i * 3 + 2 := OFFSCREEN]> (particles s);
            particleColors := particleColors s;
            velocities := velocities s;
            lifetimes := lifetimes1;
            colorObjs := colorObjs s;
            active := js_set false i false (active s);
            particleCount := particleCount s;
            maxParticles := maxParticles s;
            fingerPositions := fingerPositions s;
            rng := rng s |},
         S activeCount)
      else
        let velocities1 := alter (applyForces (options s)) i (velocities s) in
        let w := default zeroVec (velocities1 !! i) in
        (handleFingerInteraction i
           {| options := options s;
              particles :=
                alter (fun p => (p + vz w)%js) (i * 3 + 2)
                  (alter (fun p => (p + vy w)%js) (i * 3 + 1)
                     (alter (fun p => (p + vx w)%js) (i * 3) (particles s)));
              particleColors := particleColors s;
              velocities := velocities1;
              lifetimes := lifetimes1;
              colorObjs := colorObjs s;
              active := active s;
              particleCount := particleCount s;
              maxParticles := maxParticles s;
              fingerPositions := fingerPositions s;
              rng := rng s |},
         S activeCount)
  | _ => (s, activeCount)
  end.

(** The loop of [update] over all the slots. *)
Definition updateParticles (s : ParticleSystem) : ParticleSystem * nat :=
  for_upto (maxParticles s) updateSlot (s, 0).

(** The body of the inner [forEach] of [emitParticlesFromFingers]. *)
Definition emitFromTip (hand : Hand) (tip : Vec3) (fingerIndex : nat)
  (s : ParticleSystem) : ParticleSystem :=
  match fingerExtension hand !! fingerIndex with
  | Some true =>
      let emitCount := randomInt (rng s) 1 (emissionRate (options s)) in
      for_upto (Z.to_nat emitCount)
        (fun _ acc => fst (emitParticle (vx tip) (vy tip) n0 acc))
        (set_rng (S (rng s)) s)
  | _ => s
  end.

(** [emitParticlesFromFingers()]. *)
Definition emitParticlesFromFingers (s : ParticleSystem) : ParticleSystem :=
  match fingerPositions s with
  | None => s
  | Some [] => s
  | Some hands =>
      forEach (fun hand _ => forEach (emitFromTip hand) (tips hand)) hands s
  end.

(** [update(deltaTime, frameCount)]; [%] is the truncating remainder. *)
Definition update (deltaTime : num) (frameCount : Z) (s : ParticleSystem)
  : ParticleSystem :=
  let '(s1, activeCount) := updateParticles s in
  let s2 :=
    if (Z.rem frameCount 2 =? 0)%Z then emitParticlesFromFingers s1 else s1 in
  if (Z.rem frameCount 30 =? 0)%Z then set_particleCount activeCount s2 else s2.

(** [updateFromHandData(handData)], on [handData.hands]. *)
Definition updateFromHandData (hands : option (list Hand)) (s : ParticleSystem)
  : ParticleSystem :=
  {| options := options s;
     particles := particles s;
     particleColors := particleColors s;
     velocities := velocities s;
     lifetimes := lifetimes s;
     colorObjs := colorObjs s;
     active := active s;
     particleCount := particleCount s;
     maxParticles := maxParticles s;
     fingerPositions := hands;
     rng := rng s |}.

(** The body of the loop of [reset]. *)
Definition resetSlot (i : nat) (s : ParticleSystem) : ParticleSystem :=
  {| options := options s;
     particles := <[i * 3 + 2 := OFFSCREEN]> (particles s);
     particleColors := particleColors s;
     velocities := velocities s;
     lifetimes := lifetimes s;
     colorObjs := colorObjs s;
     active := js_set false i false (active s);
     particleCount := particleCount s;
     maxParticles := maxParticles s;
     fingerPositions := fingerPositions s;
     rng := rng s |}.

(** [reset()]. *)
Definition reset (s : ParticleSystem) : ParticleSystem :=
  for_upto (maxParticles s) resetSlot s.

(** [updateProperties(properties)]. *)
Definition updateProperties (properties : Properties) (s : ParticleSystem)
  : ParticleSystem :=
  {| options := spread (options s) properties;
     particles := particles s;
     particleColors := particleColors s;
     velocities := velocities s;
     lifetimes := lifetimes s;
     colorObjs := colorObjs s;
     active := active s;
     particleCount := particleCount s;
     maxParticles := maxParticles s;
     fingerPositions := fingerPositions s;
     rng := rng s |}.

Definition set_particleColors (cs : list num) (s : ParticleSystem) : ParticleSystem :=
  {| options := options s;
     particles := particles s;
     particleColors := cs;
     velocities := velocities s;
     lifetimes := lifetimes s;
     colorObjs := colorObjs s;
     active := active s;
     particleCount := particleCount s;
     maxParticles := maxParticles s;
     fingerPositions := fingerPositions s;
     rng := rng s |}.

(** The test [color && ...]: [null] and the empty string are falsy. *)
Definition truthy (color : option string) : bool :=
  match color with
  | Some (String _ _) => true
  | _ => false
  end.

(** The body of the loop of [ParticleEffects.createExplosion]. *)
Definition explosionParticle (x y z radius : num) (color : option string)
  (s : ParticleSystem) : ParticleSystem :=
  let angle := (Fin (Math_random (rng s)) * Math_PI * n2)%js in
  let distance := (Fin (Math_random (S (rng s))) * radius)%js in
  let px := (x + Math_cos angle * distance)%js in
  let py := (y + Math_sin angle * distance)%js in
  let '(s1, particle) := emitParticle px py z (set_rng (S (S (rng s))) s) in
  match truthy color, particle with
  | true, Some p =>
      let c := THREE_Color color in
      let index := p * 3 in
      set_particleColors
        (<[index + 2 := cb c]>
           (<[index + 1 := cg c]> (<[index := cr c]> (particleColors s1)))) s1
  | _, _ => s1
  end.

(** [createExplosion(x, y, z, particleCount, radius, color)]. *)
Definition createExplosion (x y z : num) (particleCount : nat) (radius : num)
  (color : option string) (s : ParticleSystem) : ParticleSystem :=
  for_upto particleCount (fun _ => explosionParticle x y z radius color) s.

(** [GameEngine.gameLoop], [k] frames from the counter [frameCount] on: the
    counter is incremented, then every game object is updated with it. *)
Fixpoint runFrames (k : nat) (deltaTime : num) (frameCount : Z)
  (s : ParticleSystem) : ParticleSystem :=
  match k with
  | O => s
  | S k' =>
      runFrames k' deltaTime (frameCount + 1)
        (update deltaTime (frameCount + 1) s)
  end.

(** The planar distance of a tip to the point [(px, py)], as
    [handleFingerInteraction] computes it. *)
Definition planarDistance (tip : Vec3) (px py : num) : num :=
  Math_sqrt ((vx tip - px) * (vx tip - px) + (vy tip - py) * (vy tip - py))%js.


(** The tips of a snapshot with their hands, in the order in which
    [handleFingerInteraction] visits them: hands in snapshot order, the tips
    of a hand in array order. *)
Definition contributions (hands : list Hand) : list (Hand * Vec3) :=
  flat_map (fun hand => map (fun tip => (hand, tip)) (tips hand)) hands.

(** What one tip within reach adds to the [x] and [y] velocity of a particle
    at [(px, py)]. *)
Definition pushX (o : Options) (hand : Hand) (tip : Vec3) (px py : num) : num :=
  let distance := planarDistance tip px py in
  ((vx tip - px) / distance
   * (n0_5 * (n1 - distance / interactionRadius o))
   + match velocity hand with Some hv => hx hv * n0_1 | None => n0 end)%js.

Definition pushY (o : Options) (hand : Hand) (tip : Vec3) (px py : num) : num :=
  let distance := planarDistance tip px py in
  ((vy tip - py) / distance
   * (n0_5 * (n1 - distance / interactionRadius o))
   + match velocity hand with Some hv => hy hv * n0_1 | None => n0 end)%js.

(** ** Histories *)

(** The calls the application makes on an initialised system. *)
Inductive Op : Type :=
| OpUpdate (deltaTime : num) (frameCount : Z)
| OpEmitParticle (x y z : num)
| OpHandleFingerInteraction (index : nat)
| OpReset
| OpUpdateProperties (properties : Properties)
| OpUpdateFromHandData (hands : option (list Hand))
| OpCreateExplosion (x y z : num) (particleCount : nat) (radius : num)
    (color : option string).

Definition step (o : Op) (s : ParticleSystem) : ParticleSystem :=
  match o with
  | OpUpdate deltaTime frameCount => update deltaTime frameCount s
  | OpEmitParticle x y z => fst (emitParticle x y z s)
  | OpHandleFingerInteraction index => handleFingerInteraction index s
  | OpReset => reset s
  | OpUpdateProperties properties => updateProperties properties s
  | OpUpdateFromHandData hands => updateFromHandData hands s
  | OpCreateExplosion x y z particleCount radius color =>
      createExplosion x y z particleCount radius color s
  end.

Definition run (ops : list Op) (s : ParticleSystem) : ParticleSystem :=
  foldl (fun acc o => step o acc) s ops.

(** The number of slots marked active. *)
Definition activeSlots (s : ParticleSystem) : nat :=
  length (filter (fun b => b = true) (active s)).

End Engine.

(** ** A platform to run the code on

    A concrete platform, used to evaluate the code on given inputs: the
    draws cycle through 0, 1/4, 1/2, 3/4; the square root is exact on the
    squares of rationals; cosine and sine are their Taylor polynomials of
    low degree (exact at 0); the colour parser reads [#rrggbb]. *)

Definition cycle_random (k : nat) : Q := Z.of_nat (k mod 4) # 4.

Definition exact_sqrt (a : num) : num :=
  match a with
  | Fin q =>
      if Qlt_le_dec q 0 then NaN
      else JS.fin (Z.sqrt (Qnum q * Zpos (Qden q)) # Qden q)
  | JS.PInf => JS.PInf
  | _ => NaN
  end.

Definition poly_cos (a : num) : num :=
  match a with
  | Fin x => JS.fin (1 - x * x / 2 + x * x * x * x / 24)
  | _ => NaN
  end.

Definition poly_sin (a : num) : num :=
  match a with
  | Fin x => JS.fin (x - x * x * x / 6)
  | _ => NaN
  end.

Definition hexDigit (c : Ascii.ascii) : option Z :=
  let n := Z.of_nat (Ascii.nat_of_ascii c) in
  if (48 <=? n) && (n <=? 57) then Some (n - 48)
  else if (97 <=? n) && (n <=? 102) then Some (n - 87)
  else if (65 <=? n) && (n <=? 70) then Some (n - 55)
  else None.

Definition channel (a b : Ascii.ascii) : option num :=
  match hexDigit a, hexDigit b with
  | Some h, Some l => Some (JS.fin (inject_Z (16 * h + l) / 255))
  | _, _ => None
  end.

Definition white : Color := mkColor n1 n1 n1.

Definition hexColor (code : option string) : Color :=
  match code with
  | Some (String "#"%char (String r1 (String r2 (String g1 (String g2
      (String b1 (String b2 EmptyString))))))) =>
      match channel r1 r2, channel g1 g2, channel b1 b2 with
      | Some r, Some g, Some b => mkColor r g b
      | _, _, _ => white
      end
  | _ => white
  end.

Lemma cycle_random_range (k : nat) : (0 <= cycle_random k < 1)%Q.
Proof.
  unfold cycle_random, Qle, Qlt; simpl.
  assert (k mod 4 < 4)%nat by (apply Nat.mod_upper_bound; lia).
  lia.
Qed.

Definition demo : Platform :=
  {| Math_random := cycle_random;
     Math_sqrt := exact_sqrt;
     Math_cos := poly_cos;
     Math_sin := poly_sin;
     Math_PI := Fin (355 # 113);
     THREE_Color := hexColor;
     Math_random_range := cycle_random_range |}.

(** Inputs for the runs below: a property bag that only sets the capacity,
    and a snapshot of one hand with a single tip. *)
Definition capacity (n : nat) : Properties :=
  mkProperties (Some n) None None None None None None None None None.

Definition oneTip (x y : num) (extended : bool) (v : option Vec2) : Hand :=
  mkHand [mkVec3 x y n0] [extended] v.

(** A pool of two slots whose particles live two frames, and the same pool
    after one emission at the origin. *)
Definition shortLived : Properties :=
  mkProperties (Some 2%nat) None None (Some 2) None None None None None None.

Definition oneParticle : ParticleSystem :=
  fst (@emitParticle demo n0 n0 n0 (@init demo (construct shortLived))).

(** A pool of one slot without gravity whose particles start at rest in the
    plane, the pool after one emission at the origin, and this pool with a
    snapshot of one tip. *)
Definition still : Properties :=
  mkProperties (Some 1%nat) None (Some n0) None None None (Some n0) None None None.

Definition atOrigin : ParticleSystem :=
  fst (@emitParticle demo n0 n0 n0 (@init demo (construct still))).

Definition tipAt (x y : num) (extended : bool) : ParticleSystem :=
  updateFromHandData (Some [oneTip x y extended None]) atOrigin.

(** The same pool under one hand with tips at (1, 0) and (-2, 0). *)
Definition underTwoTips : ParticleSystem :=
  updateFromHandData
    (Some [mkHand [mkVec3 n1 n0 n0; mkVec3 (Fin (-2)) n0 n0] [true; true] None])
    atOrigin.

(** The still pool before any emission, with an extended tip at (3, 4). *)
Definition tipOverEmptyPool : ParticleSystem :=
  updateFromHandData (Some [oneTip (Fin 3) (Fin 4) true None])
    (@init demo (construct still)).

(** A pool of seven slots under a tip at (3, 4), extended or not. *)
Definition sevenSlots (extended : bool) : ParticleSystem :=
  updateFromHandData (Some [oneTip (Fin 3) (Fin 4) extended None])
    (@init demo (construct (capacity 7))).

(** A pool of two slots whose particles live one frame, after one emission
    at (1, 2, 0). *)
Definition ephemeral : Properties :=
  mkProperties (Some 2%nat) None None (Some 1) None None None None None None.

Definition ephemeralParticle : ParticleSystem :=
  fst (@emitParticle demo n1 n2 n0 (@init demo (construct ephemeral))).





(** The data of a system apart from the snapshot. *)
Definition sameData (s t : ParticleSystem) : Prop :=
  options t = options s /\ particles t = particles s /\
  particleColors t = particleColors s /\ velocities t = velocities s /\
  lifetimes t = lifetimes s /\ active t = active s.

(** ** Invariants *)

(** The arrays of a system after [init]: the two typed arrays hold three
    entries per slot and the side arrays one entry per slot.  The last
    disjunct is the state of a pool of capacity 0 once [emitParticle] has
    written its slot 0. *)
Definition shape (s : ParticleSystem) : Prop :=
  length (particles s) = (maxParticles s * 3)%nat /\
  length (particleColors s) = (maxParticles s * 3)%nat /\
  length (velocities s) = length (active s) /\
  length (lifetimes s) = length (active s) /\
  (length (active s) = maxParticles s \/
   (maxParticles s = 0%nat /\ active s = [true])).

(** A pool whose arrays all have the capacity [n]. *)
Definition pool (n : nat) (s : ParticleSystem) : Prop :=
  maxParticles s = n /\
  length (active s) = n /\
  length (velocities s) = n /\
  length (lifetimes s) = n /\
  length (particles s) = (n * 3)%nat /\
  length (particleColors s) = (n * 3)%nat.

(** Every slot marked inactive is parked at the off-screen depth. *)
Definition sentinel (s : ParticleSystem) : Prop :=
  forall i : nat,
    active s !! i = Some false -> particles s !! (i * 3 + 2)%nat = Some OFFSCREEN.

(** The parts of the state a frame only reads. *)
Definition same_env (s s' : ParticleSystem) : Prop :=
  options s' = options s /\
  maxParticles s' = maxParticles s /\
  fingerPositions s' = fingerPositions s.

(** Slot [i] holds the same data in [s] and in [s']. *)
Definition same_slot (i : nat) (s s' : ParticleSystem) : Prop :=
  active s' !! i = active s !! i /\
  lifetimes s' !! i = lifetimes s !! i /\
  velocities s' !! i = velocities s !! i /\
  particles s' !! (i * 3)%nat = particles s !! (i * 3)%nat /\
  particles s' !! (i * 3 + 1)%nat = particles s !! (i * 3 + 1)%nat /\
  particles s' !! (i * 3 + 2)%nat = particles s !! (i * 3 + 2)%nat /\
  particleColors s' !! (i * 3)%nat = particleColors s !! (i * 3)%nat /\
  particleColors s' !! (i * 3 + 1)%nat = particleColors s !! (i * 3 + 1)%nat /\
  particleColors s' !! (i * 3 + 2)%nat = particleColors s !! (i * 3 + 2)%nat.

(** No hand-pose snapshot, or one without hands. *)
Definition noHands (s : ParticleSystem) : Prop :=
  fingerPositions s = None \/ fingerPositions s = Some [].

(** ** The rest of MathUtils *)

(** [Math.max(a, b)]. *)
Definition JSmax (a b : num) : num :=
  match a, b with
  | JS.NaN, _ => NaN
  | _, JS.NaN => NaN
  | _, _ => if JS.lt a b then b else a
  end.

(** [MathUtils.clamp(value, min, max)]. *)
Definition clamp (value min max : num) : num := JS.min (JSmax value min) max.

(** [MathUtils.lerp(start, end, t)]. *)
Definition lerp (start stop t : num) : num :=
  (start * (n1 - t) + stop * t)%js.


Section MathUtils.

Context {platform : Platform}.

(** [MathUtils.random(min, max)] on the [k]-th draw. *)
Definition random (k : nat) (min max : num) : num :=
  (Fin (Math_random k) * (max - min) + min)%js.

(** [MathUtils.distance(x1, y1, x2, y2)]; [e ** 2] is [e * e]. *)
Definition distance (x1 y1 x2 y2 : num) : num :=
  Math_sqrt ((x2 - x1) * (x2 - x1) + (y2 - y1) * (y2 - y1))%js.

(** [MathUtils.toRadians(degrees)] and [MathUtils.toDegrees(radians)]. *)
Definition toRadians (degrees : num) : num :=
  (degrees * (Math_PI / Fin 180))%js.

Definition toDegrees (radians : num) : num :=
  (radians * (Fin 180 / Math_PI))%js.

End MathUtils.

(** ** The rest of ParticleSystem and ParticleEffects *)

(** The object returned by [getProperties()]. *)
Record PropertiesView : Type := mkView {
  v_particleCount : nat;
  v_maxParticles : nat;
  v_size : num;
  v_lifetime : Z;
  v_gravity : num;
  v_friction : num
}.

(** [getProperties()]. *)
Definition getProperties (s : ParticleSystem) : PropertiesView :=
  {| v_particleCount := particleCount s;
     v_maxParticles := maxParticles s;
     v_size := size (options s);
     v_lifetime := lifetime (options s);
     v_gravity := gravity (options s);
     v_friction := friction (options s) |}.

(** The object of [getProperties()] as a property bag: of its keys, [size],
    [lifetime], [gravity] and [friction] are options; [particleCount] and
    [maxParticles] are no keys of [this.options] that the system reads. *)
Definition viewAsProperties (v : PropertiesView) : Properties :=
  {| p_count := None;
     p_size := Some (v_size v);
     p_maxSpeed := None;
     p_lifetime := Some (v_lifetime v);
     p_colors := None;
     p_emissionRate := None;
     p_gravity := Some (v_gravity v);
     p_friction := Some (v_friction v);
     p_bounceStrength := None;
     p_interactionRadius := None |}.

(** The handler of [ui:applyCaptureSettings] in main.js, on the
    [particleSettings] that [captureParticleSystem] stored. *)
Definition applyCaptureSettings (particleSettings : option PropertiesView)
  (s : ParticleSystem) : ParticleSystem :=
  match particleSettings with
  | Some v => updateProperties (viewAsProperties v) s
  | None => s
  end.

Definition set_velocities (vs : list Vec3) (s : ParticleSystem) : ParticleSystem :=
  {| options := options s;
     particles := particles s;
     particleColors := particleColors s;
     velocities := vs;
     lifetimes := lifetimes s;
     colorObjs := colorObjs s;
     active := active s;
     particleCount := particleCount s;
     maxParticles := maxParticles s;
     fingerPositions := fingerPositions s;
     rng := rng s |}.

Definition set_lifetimes (ls : list Z) (s : ParticleSystem) : ParticleSystem :=
  {| options := options s;
     particles := particles s;
     particleColors := particleColors s;
     velocities := velocities s;
     lifetimes := ls;
     colorObjs := colorObjs s;
     active := active s;
     particleCount := particleCount s;
     maxParticles := maxParticles s;
     fingerPositions := fingerPositions s;
     rng := rng s |}.

(** The palette of [createBurst]. *)
Definition burstColors : list string :=
  ["#ff0000"; "#ff7700"; "#ffff00"; "#00ff00";
   "#00ffff"; "#0000ff"; "#7700ff"; "#ff00ff"]%string.

Section Effects.

Context {platform : Platform}.

Local Open Scope nat_scope.

(** [velocities[index].x = vx; velocities[index].y = vy] on the object of the
    slot. *)
Definition setPlanarVelocity (index : nat) (x y : num) (s : ParticleSystem)
  : ParticleSystem :=
  set_velocities
    (alter (fun w => {| vx := x; vy := y; vz := vz w |}) index (velocities s)) s.

(** The writes of a colour [c] at the three entries of slot [index]. *)
Definition paint (index : nat) (c : Color) (s : ParticleSystem) : ParticleSystem :=
  set_particleColors
    (<[index * 3 + 2 := cb c]>
       (<[index * 3 + 1 := cg c]> (<[index * 3 := cr c]> (particleColors s)))) s.

(** The body of the loop of [ParticleEffects.createBurst]. *)
Definition burstParticle (x y : num) (s : ParticleSystem) : ParticleSystem :=
  let angle := (Fin (Math_random (rng s)) * Math_PI * n2)%js in
  let speed := random (S (rng s)) n1 (Fin 5) in
  let '(s1, particle) := emitParticle x y n0 (set_rng (S (S (rng s))) s) in
  match particle with
  | Some index =>
      let s2 :=
        setPlanarVelocity index (Math_cos angle * speed)%js
          (Math_sin angle * speed)%js s1 in
      let color :=
        THREE_Color (burstColors !! randomIndex (rng s2) (length burstColors)) in
      paint index color (set_rng (S (rng s2)) s2)
  | None => s1
  end.

(** [createBurst(x, y, particleCount)]. *)
Definition createBurst (x y : num) (particleCount : nat) (s : ParticleSystem)
  : ParticleSystem :=
  for_upto particleCount (fun _ => burstParticle x y) s.

(** The body of the inner [forEach] of [createTrailEffect]. *)
Definition trailFromTip (color : option string) (hand : Hand) (tip : Vec3)
  (fingerIndex : nat) (s : ParticleSystem) : ParticleSystem :=
  match fingerExtension hand !! fingerIndex with
  | Some true =>
      let '(s1, particle) := emitParticle (vx tip) (vy tip) n0 s in
      match particle with
      | Some index =>
          let s2 := set_lifetimes (js_set 0%Z index 30%Z (lifetimes s1)) s1 in
          let s3 :=
            match velocity hand with
            | Some hv =>
                setPlanarVelocity index (hx hv * n0_1)%js (hy hv * n0_1)%js s2
            | None => s2
            end in
          if truthy color then paint index (THREE_Color color) s3 else s3
      | None => s1
      end
  | _ => s
  end.

(** [createTrailEffect(handData, color)]; [hands] is [handData.hands], and
    [None] stands for a missing [handData] or a missing [hands]. *)
Definition createTrailEffect (hands : option (list Hand)) (color : option string)
  (s : ParticleSystem) : ParticleSystem :=
  match hands with
  | None => s
  | Some [] => s
  | Some hs =>
      forEach (fun hand _ => forEach (trailFromTip color hand) (tips hand)) hs s
  end.

(** One particle of a tick of [createFountain]. *)
Definition fountainParticle (x y : num) (s : ParticleSystem) : ParticleSystem :=
  let quarter := (Math_PI / Fin 4)%js in
  let angle :=
    (random (rng s) (JS.neg quarter) quarter - Math_PI / n2)%js in
  let speed := random (S (rng s)) (Fin 3) (Fin 6) in
  let px := (x + random (S (S (rng s))) (Fin (-2)) n2)%js in
  let '(s1, particle) := emitParticle px y n0 (set_rng (S (S (S (rng s)))) s) in
  match particle with
  | Some index =>
      setPlanarVelocity index (Math_cos angle * speed)%js
        (Math_sin angle * speed)%js s1
  | None => s1
  end.

(** The callback that [createFountain] hands to [setInterval], without its
    counter. *)
Definition fountainTick (x y : num) (particlesPerFrame : nat)
  (s : ParticleSystem) : ParticleSystem :=
  for_upto particlesPerFrame (fun _ => fountainParticle x y) s.

(** The fountain over [fires] periods of its timer, from the closure counter
    [frameCount]: the callback runs, increments the counter and clears the
    interval once the counter has reached [duration]. *)
Fixpoint fountain (fires : nat) (x y : num) (particlesPerFrame : nat)
  (duration : Z) (frameCount : Z) (s : ParticleSystem) : ParticleSystem :=
  match fires with
  | O => s
  | S fires' =>
      let s1 := fountainTick x y particlesPerFrame s in
      if (duration <=? frameCount + 1)%Z then s1
      else fountain fires' x y particlesPerFrame duration (frameCount + 1) s1
  end.

(** The callback of [createVortex] for the closure value [angle], without its
    counters. *)
Definition vortexTick (x y radius rotationSpeed angle : num)
  (s : ParticleSystem) : ParticleSystem :=
  let r := random (rng s) n0 radius in
  let px := (x + Math_cos angle * r)%js in
  let py := (y + Math_sin angle * r)%js in
  let '(s1, particle) := emitParticle px py n0 (set_rng (S (rng s)) s) in
  match particle with
  | Some index =>
      let distance :=
        Math_sqrt ((px - x) * (px - x) + (py - y) * (py - y))%js in
      let tangentialSpeed :=
        (rotationSpeed * (radius - distance) / radius)%js in
      setPlanarVelocity index (JS.neg (Math_sin angle) * tangentialSpeed)%js
        (Math_cos angle * tangentialSpeed)%js s1
  | None => s1
  end.

(** The vortex over [fires] periods of its timer, from the closure values
    [angle] and [currentParticles]. *)
Fixpoint vortex (fires : nat) (x y : num) (particleCount : Z)
  (radius rotationSpeed angle : num) (currentParticles : Z)
  (s : ParticleSystem) : ParticleSystem :=
  match fires with
  | O => s
  | S fires' =>
      let s1 := vortexTick x y radius rotationSpeed angle s in
      if (particleCount <=? currentParticles + 1)%Z then s1
      else vortex fires' x y particleCount radius rotationSpeed
             (angle + n0_1)%js (currentParticles + 1) s1
  end.

(** The tips within the interaction radius of [(px, py)], among the tips
    [handleFingerInteraction] visits. *)
Definition inReach (o : Options) (px py : num) (ht : Hand * Vec3) : bool :=
  JS.lt (planarDistance (snd ht) px py) (interactionRadius o).

Definition tipsInReach (s : ParticleSystem) (px py : num) : nat :=
  match fingerPositions s with
  | Some hands =>
      length (filter (fun ht => inReach (options s) px py ht = true)
                (contributions hands))
  | None => 0
  end.

(** The tips of a snapshot whose extension flag is true. *)
Fixpoint extendedFrom (k : nat) (flags : list bool) (ts : list Vec3) : nat :=
  match ts with
  | [] => 0
  | _ :: rest =>
      (match flags !! k with Some true => 1 | _ => 0 end)
      + extendedFrom (S k) flags rest
  end.

Definition extendedTips (hands : list Hand) : nat :=
  foldr (fun hand acc => extendedFrom 0 (fingerExtension hand) (tips hand) + acc)
    0 hands.

End Effects.

(** The number of flags set in a list; [activeSlots s] is
    [countTrue (active s)]. *)
Definition countTrue (l : list bool) : nat :=
  length (filter (fun b => b = true) l).

Section EmissionSteps.

Context {platform : Platform}.

(** A step that is one emission after some draws. *)
Definition emits (f : ParticleSystem -> ParticleSystem) : Prop :=
  forall t, exists x y z k, f t = fst (emitParticle x y z (set_rng k t)).

End EmissionSteps.

(** ** EventEmitter

    The event table is a finite map from event names to arrays of
    listeners.  A listener is a function object, compared by identity:
    [Fn id] is a callback of the application, [OnceWrapper w l] is the
    wrapper that [once] builds around [l], and [w] tells one wrapper from
    another.  A callback of the application is opaque: calling it is
    recorded, with its arguments, in [calls]; it does not call the emitter
    back.  Event names are not names of [Object.prototype]. *)

Module EventEmitter.

Inductive Listener : Type :=
| Fn (id : nat)
| OnceWrapper (w : nat) (inner : Listener).

#[global] Instance Listener_eq_dec : EqDecision Listener.
Proof. solve_decision. Defined.

Section Emitter.

Context {Arg : Type}.

Record t : Type := mk {
  events : gmap string (list Listener);
  wrappers : nat;
  calls : list (nat * Arg)
}.

(** [new EventEmitter()]. *)
Definition create : t := {| events := ∅; wrappers := 0; calls := [] |}.

Definition set_events (m : gmap string (list Listener)) (st : t) : t :=
  {| events := m; wrappers := wrappers st; calls := calls st |}.

(** [off(eventName, listenerToRemove)]. *)
Definition off (eventName : string) (listenerToRemove : Listener) (st : t) : t :=
  match events st !! eventName with
  | None => st
  | Some listeners =>
      let filteredListeners :=
        filter (fun listener => listener <> listenerToRemove) listeners in
      match filteredListeners with
      | [] => set_events (delete eventName (events st)) st
      | _ :: _ => set_events (<[eventName := filteredListeners]> (events st)) st
      end
  end.

(** [on(eventName, listener)]: the new state and the function it returns. *)
Definition on (eventName : string) (listener : Listener) (st : t)
  : t * (t -> t) :=
  let listeners :=
    match events st !! eventName with
    | None => []
    | Some listeners => listeners
    end in
  (set_events (<[eventName := listeners ++ [listener]]> (events st)) st,
   off eventName listener).

(** [once(eventName, listener)]. *)
Definition once (eventName : string) (listener : Listener) (st : t)
  : t * (t -> t) :=
  let onceWrapper := OnceWrapper (wrappers st) listener in
  on eventName onceWrapper
    {| events := events st; wrappers := S (wrappers st); calls := calls st |}.

(** The call [listener(...args)] made by [emit(eventName, ...args)]. *)
Fixpoint invoke (eventName : string) (args : Arg) (listener : Listener)
  (st : t) : t :=
  match listener with
  | Fn id =>
      {| events := events st; wrappers := wrappers st;
         calls := calls st ++ [(id, args)] |}
  | OnceWrapper w inner =>
      off eventName (OnceWrapper w inner) (invoke eventName args inner st)
  end.

(** [emit(eventName, ...args)]: [forEach] walks the array that was in the
    table when it started; [off] replaces that array and does not change
    it. *)
Definition emit (eventName : string) (args : Arg) (st : t) : t :=
  match events st !! eventName with
  | None => st
  | Some listeners =>
      foldl (fun acc listener => invoke eventName args listener acc) st listeners
  end.



(** The histories of an emitter. *)
Inductive Op : Type :=
| OpOn (eventName : string) (listener : Listener)
| OpOnce (eventName : string) (listener : Listener)
| OpOff (eventName : string) (listener : Listener)
| OpEmit (eventName : string) (args : Arg).

Definition step (op : Op) (st : t) : t :=
  match op with
  | OpOn e l => fst (on e l st)
  | OpOnce e l => fst (once e l st)
  | OpOff e l => off e l st
  | OpEmit e a => emit e a st
  end.

Definition run (ops : list Op) (st : t) : t :=
  foldl (fun acc op => step op acc) st ops.

End Emitter.

Arguments t : clear implicits.
Arguments Op : clear implicits.

End EventEmitter.

(** ** GameEngine

    A game object is anything with an optional [update] and an optional
    [draw] method.  The engine keeps references to its objects; the objects
    themselves live in a store, so that one object added twice is one
    object.  The events the engine emits are recorded in the order of their
    emission; their listeners are outside the embedding.
    [requestAnimationFrame] returns the number of the request. *)

(** [Math.round(x)]: the nearest whole number, a tie going up. *)
Definition Math_round (x : num) : num :=
  match x with
  | JS.Fin q => Fin (inject_Z (Qfloor (q + (1 # 2))))
  | _ => x
  end.

Class GameObject (O : Type) : Type := {
  update_method : option (num -> Z -> O -> O);
  draw_method : option (O -> O)
}.

Module GameEngine.

Record GameState : Type := mkGameState {
  score : Z;
  level : Z;
  paused : bool;
  gameOver : bool
}.

(** The argument of [updateGameState]: an object with some of the keys. *)
Record Patch : Type := mkPatch {
  p_score : option Z;
  p_level : option Z;
  p_paused : option bool;
  p_gameOver : option bool
}.

(** [{ ...gameState, ...newState }]. *)
Definition spread (gameState : GameState) (newState : Patch) : GameState :=
  {| score := default (score gameState) (p_score newState);
     level := default (level gameState) (p_level newState);
     paused := default (paused gameState) (p_paused newState);
     gameOver := default (gameOver gameState) (p_gameOver newState) |}.

Inductive Emitted : Type :=
| StateChanged (gameState : GameState)
| Started
| Paused
| Resumed
| Stopped
| GameOver (score : Z)
| FpsUpdate (fps : num)
| FrameEnd (frameCount : Z) (deltaTime : num) (gameState : GameState).

Section Engine.

Context {O : Type} {gameObject : GameObject O}.

Record t : Type := mk {
  isRunning : bool;
  lastFrameTime : num;
  frameCount : Z;
  fps : num;
  gameObjects : list nat;
  gameState : GameState;
  animationFrameId : option nat;
  requests : nat;
  emitted : list Emitted;
  store : list O
}.

(** [new GameEngine(options, eventEmitter)], over a store of objects. *)
Definition create (objects : list O) : t :=
  {| isRunning := false;
     lastFrameTime := n0;
     frameCount := 0;
     fps := n0;
     gameObjects := [];
     gameState := mkGameState 0 1 false false;
     animationFrameId := None;
     requests := 0;
     emitted := [];
     store := objects |}.

Definition emit (event : Emitted) (g : t) : t :=
  {| isRunning := isRunning g;
     lastFrameTime := lastFrameTime g;
     frameCount := frameCount g;
     fps := fps g;
     gameObjects := gameObjects g;
     gameState := gameState g;
     animationFrameId := animationFrameId g;
     requests := requests g;
     emitted := emitted g ++ [event];
     store := store g |}.

Definition set_gameObjects (objs : list nat) (g : t) : t :=
  {| isRunning := isRunning g;
     lastFrameTime := lastFrameTime g;
     frameCount := frameCount g;
     fps := fps g;
     gameObjects := objs;
     gameState := gameState g;
     animationFrameId := animationFrameId g;
     requests := requests g;
     emitted := emitted g;
     store := store g |}.

Definition set_gameState (gs : GameState) (g : t) : t :=
  {| isRunning := isRunning g;
     lastFrameTime := lastFrameTime g;
     frameCount := frameCount g;
     fps := fps g;
     gameObjects := gameObjects g;
     gameState := gs;
     animationFrameId := animationFrameId g;
     requests := requests g;
     emitted := emitted g;
     store := store g |}.

Definition set_store (objects : list O) (g : t) : t :=
  {| isRunning := isRunning g;
     lastFrameTime := lastFrameTime g;
     frameCount := frameCount g;
     fps := fps g;
     gameObjects := gameObjects g;
     gameState := gameState g;
     animationFrameId := animationFrameId g;
     requests := requests g;
     emitted := emitted g;
     store := objects |}.

(** [this.animationFrameId = requestAnimationFrame(...)]. *)
Definition requestFrame (g : t) : t :=
  {| isRunning := isRunning g;
     lastFrameTime := lastFrameTime g;
     frameCount := frameCount g;
     fps := fps g;
     gameObjects := gameObjects g;
     gameState := gameState g;
     animationFrameId := Some (S (requests g));
     requests := S (requests g);
     emitted := emitted g;
     store := store g |}.

(** [addGameObject(gameObject)]. *)
Definition addGameObject (ref : nat) (g : t) : t :=
  set_gameObjects (gameObjects g ++ [ref]) g.

(** [indexOf] and [splice(index, 1)]: the first occurrence goes. *)
Fixpoint removeFirst (ref : nat) (objs : list nat) : list nat :=
  match objs with
  | [] => []
  | r :: rest => if Nat.eqb r ref then rest else r :: removeFirst ref rest
  end.

(** [removeGameObject(gameObject)]. *)
Definition removeGameObject (ref : nat) (g : t) : t :=
  set_gameObjects (removeFirst ref (gameObjects g)) g.

(** [updateGameState(newState)]. *)
Definition updateGameState (newState : Patch) (g : t) : t :=
  let gs := spread (gameState g) newState in
  emit (StateChanged gs) (set_gameState gs g).

(** [start()], at the time [now] of [performance.now()]. *)
Definition start (now : num) (g : t) : t :=
  if isRunning g then g
  else
    let g1 :=
      {| isRunning := true;
         lastFrameTime := now;
         frameCount := frameCount g;
         fps := fps g;
         gameObjects := gameObjects g;
         gameState := gameState g;
         animationFrameId := animationFrameId g;
         requests := requests g;
         emitted := emitted g;
         store := store g |} in
    emit Started (requestFrame g1).

(** [pause()] and [resume()]. *)
Definition pause (g : t) : t :=
  emit Paused (updateGameState (mkPatch None None (Some true) None) g).

Definition resume (g : t) : t :=
  emit Resumed (updateGameState (mkPatch None None (Some false) None) g).

(** [stop()]. *)
Definition stop (g : t) : t :=
  emit Stopped
    {| isRunning := false;
       lastFrameTime := lastFrameTime g;
       frameCount := frameCount g;
       fps := fps g;
       gameObjects := gameObjects g;
       gameState := gameState g;
       animationFrameId := None;
       requests := requests g;
       emitted := emitted g;
       store := store g |}.

(** [calculateFPS(currentTime)]. *)
Definition calculateFPS (currentTime : num) (g : t) : t :=
  let deltaTime := (currentTime - lastFrameTime g)%js in
  let g1 :=
    {| isRunning := isRunning g;
       lastFrameTime := lastFrameTime g;
       frameCount := frameCount g;
       fps := Math_round (Fin 1000 / deltaTime)%js;
       gameObjects := gameObjects g;
       gameState := gameState g;
       animationFrameId := animationFrameId g;
       requests := requests g;
       emitted := emitted g;
       store := store g |} in
  if (Z.rem (frameCount g) 10 =? 0)%Z then emit (FpsUpdate (fps g1)) g1 else g1.

(** [if (obj.update) obj.update(deltaTime, this.frameCount)] on the object
    behind a reference. *)
Definition updateObject (deltaTime : num) (ref : nat) (g : t) : t :=
  match update_method with
  | Some update => set_store (alter (update deltaTime (frameCount g)) ref (store g)) g
  | None => g
  end.

Definition drawObject (ref : nat) (g : t) : t :=
  match draw_method with
  | Some draw => set_store (alter draw ref (store g)) g
  | None => g
  end.

(** [gameLoop(currentTime)]. *)
Definition gameLoop (currentTime : num) (g : t) : t :=
  if negb (isRunning g) then g
  else
    let g1 := calculateFPS currentTime g in
    let g2 :=
      {| isRunning := isRunning g1;
         lastFrameTime := currentTime;
         frameCount := frameCount g1 + 1;
         fps := fps g1;
         gameObjects := gameObjects g1;
         gameState := gameState g1;
         animationFrameId := animationFrameId g1;
         requests := requests g1;
         emitted := emitted g1;
         store := store g1 |} in
    let g3 :=
      if negb (paused (gameState g2)) then
        let deltaTime := (n1 / fps g2)%js in
        let g4 :=
          foldl (fun acc ref => updateObject deltaTime ref acc) g2
            (gameObjects g2) in
        let g5 := foldl (fun acc ref => drawObject ref acc) g4 (gameObjects g4) in
        emit (FrameEnd (frameCount g5) deltaTime (gameState g5)) g5
      else g2 in
    requestFrame g3.

(** The loop called once for each of the times given. *)
Definition loops (times : list num) (g : t) : t :=
  foldl (fun acc currentTime => gameLoop currentTime acc) g times.

End Engine.

Arguments t : clear implicits.

End GameEngine.

(** The particle system as a game object: it has [update] and no [draw]. *)
#[global] Instance ParticleSystem_GameObject {platform : Platform}
  : GameObject ParticleSystem :=
  {| update_method := Some update; draw_method := None |}.

(** ** HandTracker

    [processResults] over the landmarks that MediaPipe reports.  Reading a
    landmark that is not there, or the handedness of a hand that has none,
    throws: the result is [None].  The camera, the drawing code and the
    listeners of the events are outside the embedding. *)

Module HandTracker.

Record Landmark : Type := mkLandmark { lx : num; ly : num; lz : num }.

Record Joint : Type := mkJoint { jx : num; jy : num; jz : num; jindex : nat }.

(** The object that [processResults] builds for one hand. *)
Record TrackedHand : Type := mkTrackedHand {
  handIndex : nat;
  tips : list Vec3;
  wrist : Vec3;
  palm : Vec3;
  fingerExtension : list bool;
  joints : list Joint;
  handedness : string
}.

Record Results : Type := mkResults {
  multiHandLandmarks : option (list (list Landmark));
  multiHandedness : list string
}.

Inductive Event : Type :=
| Update (hands : list TrackedHand) (history : list (list TrackedHand))
| NoHands.

Record t : Type := mk {
  lastResults : option Results;
  handPositions : list TrackedHand;
  handHistory : list (list TrackedHand)
}.

(** The part of the constructor that [processResults] uses. *)
Definition create : t :=
  {| lastResults := None; handPositions := []; handHistory := [] |}.

Definition fingerTips : list nat := [4; 8; 12; 16; 20]%nat.

Definition palmPoints : list nat := [0; 1; 5; 9; 13; 17]%nat.

(** [(0.5 - p.x) * 100], [(p.y - 0.5) * 100] and [p.z * 100]. *)
Definition sceneX (p : Landmark) : num := ((n0_5 - lx p) * Fin 100)%js.
Definition sceneY (p : Landmark) : num := ((ly p - n0_5) * Fin 100)%js.
Definition sceneZ (p : Landmark) : num := (lz p * Fin 100)%js.

Definition toScene (p : Landmark) : Vec3 :=
  mkVec3 (sceneX p) (sceneY p) (sceneZ p).

(** [palmPoints.reduce((sum, i) => sum + f(landmarks[i]), 0) / palmPoints.length]. *)
Definition palmMean (f : Landmark -> num) (landmarks : list Landmark)
  : option num :=
  points ← mapM (fun i => landmarks !! i) palmPoints;
  Some (foldl (fun sum p => (sum + f p)%js) n0 points
        / Fin (inject_Z (Z.of_nat (length palmPoints))))%js.

Section Tracker.

Context {platform : Platform}.

(** The extension flag of the finger whose tip is the landmark [tipIndex]. *)
Definition extensionOf (landmarks : list Landmark) (tipIndex : nat)
  : option bool :=
  let baseIndex := if Nat.eqb tipIndex 4 then 2%nat else (tipIndex - 3)%nat in
  baseLandmark ← landmarks !! baseIndex;
  tipLandmark ← landmarks !! tipIndex;
  let distance :=
    Math_sqrt
      ((lx baseLandmark - lx tipLandmark) * (lx baseLandmark - lx tipLandmark)
       + (ly baseLandmark - ly tipLandmark) * (ly baseLandmark - ly tipLandmark))%js in
  Some (JS.lt n0_05 distance).

(** The callback of [results.multiHandLandmarks.map]. *)
Definition handOf (results : Results) (landmarks : list Landmark)
  (index : nat) : option TrackedHand :=
  tips ← mapM (fun i => toScene <$> landmarks !! i) fingerTips;
  wrist ← toScene <$> landmarks !! 0%nat;
  palmX ← palmMean sceneX landmarks;
  palmY ← palmMean sceneY landmarks;
  palmZ ← palmMean sceneZ landmarks;
  fingerExtension ← mapM (extensionOf landmarks) fingerTips;
  let joints :=
    imap (fun i p => mkJoint (sceneX p) (sceneY p) (sceneZ p) i) landmarks in
  label ← multiHandedness results !! index;
  Some {| handIndex := index;
          tips := tips;
          wrist := wrist;
          palm := mkVec3 palmX palmY palmZ;
          fingerExtension := fingerExtension;
          joints := joints;
          handedness := label |}.

Fixpoint handsFrom (results : Results) (index : nat)
  (hands : list (list Landmark)) : option (list TrackedHand) :=
  match hands with
  | [] => Some []
  | landmarks :: rest =>
      hand ← handOf results landmarks index;
      others ← handsFrom results (S index) rest;
      Some (hand :: others)
  end.

(** [handHistory.push(handPositions)], then [shift()] when more than 10
    entries are kept. *)
Definition pushHistory (handPositions : list TrackedHand)
  (history : list (list TrackedHand)) : list (list TrackedHand) :=
  let pushed := history ++ [handPositions] in
  if (10 <? length pushed)%nat then drop 1 pushed else pushed.

(** [processResults(results)]: the new state and the event emitted. *)
Definition processResults (results : Results) (st : t) : option (t * Event) :=
  match multiHandLandmarks results with
  | Some (first :: rest) =>
      handPositions ← handsFrom results 0 (first :: rest);
      let history := pushHistory handPositions (handHistory st) in
      Some ({| lastResults := Some results;
               handPositions := handPositions;
               handHistory := history |},
            Update handPositions history)
  | _ =>
      Some ({| lastResults := Some results;
               handPositions := [];
               handHistory := handHistory st |},
            NoHands)
  end.

(** The results of a run of the camera, one after the other. *)
Fixpoint processAll (frames : list Results) (st : t) : option t :=
  match frames with
  | [] => Some st
  | results :: rest =>
      step ← processResults results st;
      processAll rest (fst step)
  end.

End Tracker.

(** What the particle system reads of a tracked hand: the tips and the
    flags; the object has no [velocity]. *)
Definition toHand (h : TrackedHand) : Hand :=
  mkHand (tips h) (fingerExtension h) None.

(** The listener that the application binds to [handTracker:update]; it
    binds none to [handTracker:noHands] that reaches the particle system. *)
Definition deliver (event : Event) (s : ParticleSystem) : ParticleSystem :=
  match event with
  | Update hands _ => updateFromHandData (Some (map toHand hands)) s
  | NoHands => s
  end.

(** Landmarks inside the camera frame, and points inside the scene. *)
Definition inFrame (p : Landmark) : Prop :=
  exists x y z : Q,
    p = mkLandmark (Fin x) (Fin y) (Fin z) /\
    (0 <= x <= 1)%Q /\ (0 <= y <= 1)%Q.

Definition inScene (v : Vec3) : Prop :=
  exists x y z : Q,
    v = mkVec3 (Fin x) (Fin y) (Fin z) /\
    (-50 <= x <= 50)%Q /\ (-50 <= y <= 50)%Q.

End HandTracker.

(** Inputs for the runs of the tracker: a hand whose 21 landmarks lie on a
    line across the frame, one detection of it, and a frame without
    hands. *)
Definition lineHand : list HandTracker.Landmark :=
  map (fun i => HandTracker.mkLandmark (Fin (Z.of_nat i # 40)) n0_5 n0)
    (seq 0 21).

Definition oneDetection : HandTracker.Results :=
  HandTracker.mkResults (Some [lineHand]) ["Right"%string].

Definition emptyFrame : HandTracker.Results :=
  HandTracker.mkResults (Some []) [].

Definition detectedHands : list HandTracker.TrackedHand :=
  default [] (@HandTracker.handsFrom demo oneDetection 0 [lineHand]).

(** ** Loops and arrays *)

Section Loops.

Context {A St : Type}.

Lemma for_upto_S (n : nat) (body : nat -> St -> St) (s : St) :
  for_upto (S n) body s = body n (for_upto n body s).
Proof.
  unfold for_upto. rewrite seq_S, foldl_app. reflexivity.
Qed.

Lemma for_upto_count (P : nat -> St -> Prop) (n : nat)
  (body : nat -> St -> St) (s : St) :
  P 0%nat s ->
  (forall i t, (i < n)%nat -> P i t -> P (S i) (body i t)) ->
  P n (for_upto n body s).
Proof.
  intros H0 Hstep. induction n as [|n IH].
  - exact H0.
  - rewrite for_upto_S. apply Hstep; [lia|].
    apply IH. intros i t Hi. apply Hstep. lia.
Qed.

Lemma for_upto_ext (n : nat) (body body' : nat -> St -> St) (s : St) :
  (forall i t, body i t = body' i t) ->
  for_upto n body s = for_upto n body' s.
Proof.
  intros Hext. induction n as [|n IH]; [reflexivity|].
  rewrite !for_upto_S, IH. apply Hext.
Qed.

Lemma for_upto_ind (P : St -> Prop) (n : nat) (body : nat -> St -> St) (s : St) :
  P s ->
  (forall i t, (i < n)%nat -> P t -> P (body i t)) ->
  P (for_upto n body s).
Proof.
  intros H0 Hstep. induction n as [|n IH].
  - exact H0.
  - rewrite for_upto_S. apply Hstep; [lia|].
    apply IH. intros i t Hi. apply Hstep. lia.
Qed.

Lemma forEach_from_ind (P : St -> Prop) (body : A -> nat -> St -> St)
  (arr : list A) :
  (forall x k t, P t -> P (body x k t)) ->
  forall k s, P s -> P (forEach_from body k arr s).
Proof.
  intros Hstep. induction arr as [|x rest IH]; intros k s Hs; simpl.
  - exact Hs.
  - apply IH, Hstep, Hs.
Qed.

Lemma forEach_ind (P : St -> Prop) (body : A -> nat -> St -> St)
  (arr : list A) (s : St) :
  P s ->
  (forall x k t, P t -> P (body x k t)) ->
  P (forEach body arr s).
Proof.
  intros Hs Hstep. unfold forEach. apply forEach_from_ind; assumption.
Qed.



Lemma js_set_in (hole : A) (i : nat) (x : A) (arr : list A) :
  (i < length arr)%nat -> js_set hole i x arr = <[i := x]> arr.
Proof.
  intros Hi. unfold js_set.
  destruct (Nat.ltb_spec i (length arr)); [reflexivity | lia].
Qed.

End Loops.

(** ** Slot selection *)

Ltac lengths :=
  repeat first
    [ rewrite length_insert | rewrite length_alter | rewrite length_app ].

Section Facts.

Context {platform : Platform}.

Local Open Scope nat_scope.

Lemma randomIndex_lt (k n : nat) : 0 < n -> randomIndex k n < n.
Proof.
  intros Hn. unfold randomIndex.
  destruct (Math_random_range k) as [Hlo Hhi].
  set (r := Math_random k) in *.
  assert (Hz : (0 <= Qfloor (r * inject_Z (Z.of_nat n)) < Z.of_nat n)%Z).
  { assert (Hpos : (0 < inject_Z (Z.of_nat n))%Q).
    { replace 0%Q with (inject_Z 0) by reflexivity.
      rewrite <- Zlt_Qlt. lia. }
    split.
    - replace 0%Z with (Qfloor (inject_Z 0)) by apply Qfloor_Z.
      apply Qfloor_resp_le. simpl. apply Qmult_le_0_compat; [exact Hlo|].
      apply Qlt_le_weak. exact Hpos.
    - apply Z.lt_nge. intros Hge.
      assert (Hfl := Qfloor_le (r * inject_Z (Z.of_nat n))).
      assert (Hle : (inject_Z (Z.of_nat n)
                     <= inject_Z (Qfloor (r * inject_Z (Z.of_nat n))))%Q)
        by (rewrite <- Zle_Qle; exact Hge).
      assert (Hlt : (r * inject_Z (Z.of_nat n) < 1 * inject_Z (Z.of_nat n))%Q)
        by (apply Qmult_lt_compat_r; assumption).
      rewrite Qmult_1_l in Hlt.
      apply (Qlt_irrefl (inject_Z (Z.of_nat n))).
      eapply Qle_lt_trans; [|exact Hlt].
      eapply Qle_trans; [exact Hle | exact Hfl]. }
  lia.
Qed.

Lemma randomIndex_0 (k : nat) : randomIndex k 0 = 0.
Proof.
  unfold randomIndex.
  assert (H : (Math_random k * inject_Z (Z.of_nat 0) == inject_Z 0)%Q)
    by (simpl; unfold inject_Z; ring).
  rewrite H, Qfloor_Z. reflexivity.
Qed.

Lemma scanInactive_bound (fuel i j : nat) (act : list bool) :
  scanInactive fuel i act = Some j -> i <= j < i + fuel.
Proof.
  revert i. induction fuel as [|fuel IH]; intros i H; simpl in H.
  - discriminate.
  - destruct (act !! i) as [[|]|] eqn:E.
    + apply IH in H. lia.
    + injection H as <-. lia.
    + injection H as <-. lia.
Qed.

Lemma scanInactive_found (fuel i j : nat) (act : list bool) :
  scanInactive fuel i act = Some j ->
  act !! j <> Some true /\ forall m, i <= m < j -> act !! m = Some true.
Proof.
  revert i. induction fuel as [|fuel IH]; intros i H; simpl in H.
  - discriminate.
  - destruct (act !! i) as [[|]|] eqn:E.
    + apply IH in H. destruct H as [Hj Hbefore]. split; [exact Hj|].
      intros m Hm. destruct (decide (m = i)) as [->|Hne]; [exact E|].
      apply Hbefore. lia.
    + injection H as <-. split; [congruence | intros m Hm; lia].
    + injection H as <-. split; [congruence | intros m Hm; lia].
Qed.

Lemma scanInactive_none (fuel i : nat) (act : list bool) :
  scanInactive fuel i act = None ->
  forall m, i <= m < i + fuel -> act !! m = Some true.
Proof.
  revert i. induction fuel as [|fuel IH]; intros i H m Hm; simpl in H.
  - lia.
  - destruct (act !! i) as [[|]|] eqn:E; try discriminate.
    destruct (decide (m = i)) as [->|Hne]; [exact E|].
    apply (IH (S i)); [exact H | lia].
Qed.

(** The slot picked by [emitParticle] lies in the pool, except in a pool of
    capacity 0, where it is slot 0. *)
Lemma selectSlot_index (s : ParticleSystem) :
  shape s ->
  fst (selectSlot s) < length (active s) \/
  (maxParticles s = 0 /\ active s = [] /\ fst (selectSlot s) = 0).
Proof.
  intros (_ & _ & _ & _ & Hact). unfold selectSlot, firstInactive.
  destruct (scanInactive (maxParticles s) 0 (active s)) as [i|] eqn:E; simpl.
  - apply scanInactive_bound in E.
    destruct Hact as [Hlen | [Hz _]]; [left; lia | lia].
  - destruct Hact as [Hlen | [Hz Ht]].
    + destruct (maxParticles s) as [|n] eqn:En.
      * right. split; [reflexivity|]. split.
        -- destruct (active s); [reflexivity | discriminate].
        -- apply randomIndex_0.
      * left. rewrite Hlen. apply randomIndex_lt. lia.
    + left. rewrite Hz, Ht, randomIndex_0. simpl. lia.
Qed.

Lemma selectSlot_pool (n : nat) (s : ParticleSystem) :
  0 < n -> pool n s -> fst (selectSlot s) < n.
Proof.
  intros Hn (Hmax & _). unfold selectSlot, firstInactive.
  destruct (scanInactive (maxParticles s) 0 (active s)) as [i|] eqn:E; simpl.
  - apply scanInactive_bound in E. lia.
  - rewrite Hmax. apply randomIndex_lt, Hn.
Qed.

(** ** The shape of the arrays is kept *)

Lemma emitParticle_maxParticles (x y z : num) (s : ParticleSystem) :
  maxParticles (fst (emitParticle x y z s)) = maxParticles s.
Proof. unfold emitParticle. destruct (selectSlot s). reflexivity. Qed.

Lemma emitParticle_env (x y z : num) (s : ParticleSystem) :
  same_env s (fst (emitParticle x y z s)).
Proof.
  unfold emitParticle, same_env. destruct (selectSlot s). simpl. auto.
Qed.

Lemma emitParticle_shape (x y z : num) (s : ParticleSystem) :
  shape s -> shape (fst (emitParticle x y z s)).
Proof.
  intros Hs. pose proof (selectSlot_index s Hs) as Hidx.
  destruct Hs as (Hp & Hc & Hv & Hl & Ha).
  unfold emitParticle. destruct (selectSlot s) as [idx k]. simpl in *.
  destruct Hidx as [Hlt | (Hz & Hnil & ->)].
  - rewrite !js_set_in by lia. unfold shape; simpl. lengths.
    repeat split; try assumption.
    destruct Ha as [Hn | [Hz Ht]]; [left; exact Hn | right].
    split; [exact Hz|]. rewrite Ht in *. simpl in Hlt.
    replace idx with 0 by lia. reflexivity.
  - rewrite Hnil in *. simpl in Hv, Hl.
    destruct (velocities s); [|discriminate].
    destruct (lifetimes s); [|discriminate].
    unfold shape; simpl. lengths. repeat split; try assumption. right. auto.
Qed.

Lemma interactTip_shape (index : nat) (px py : num) (hand : Hand) (tip : Vec3)
  (s : ParticleSystem) :
  shape s -> shape (interactTip index px py hand tip s).
Proof.
  intros Hs. unfold interactTip.
  destruct (JS.lt _ _); [|exact Hs].
  destruct Hs as (Hp & Hc & Hv & Hl & Ha).
  unfold shape; simpl. lengths. auto.
Qed.

Lemma interactTip_env (index : nat) (px py : num) (hand : Hand) (tip : Vec3)
  (s : ParticleSystem) :
  same_env s (interactTip index px py hand tip s).
Proof.
  unfold interactTip, same_env. destruct (JS.lt _ _); simpl; auto.
Qed.

(** A property kept by the contribution of every tip is kept by
    [handleFingerInteraction]. *)
Lemma handleFingerInteraction_ind (P : ParticleSystem -> Prop) (index : nat)
  (s : ParticleSystem) :
  P s ->
  (forall px py hand tip t, P t -> P (interactTip index px py hand tip t)) ->
  P (handleFingerInteraction index s).
Proof.
  intros Hs Hstep. unfold handleFingerInteraction.
  destruct (fingerPositions s) as [[|hand hands]|]; try exact Hs.
  apply forEach_ind; [exact Hs|].
  intros h _ t Ht. apply forEach_ind; [exact Ht|].
  intros tip _ t' Ht'. apply Hstep, Ht'.
Qed.

Lemma handleFingerInteraction_shape (index : nat) (s : ParticleSystem) :
  shape s -> shape (handleFingerInteraction index s).
Proof.
  intros Hs. apply handleFingerInteraction_ind; [exact Hs|].
  intros. apply interactTip_shape. assumption.
Qed.

Lemma same_env_refl (s : ParticleSystem) : same_env s s.
Proof. unfold same_env. auto. Qed.

Lemma same_env_trans (s t u : ParticleSystem) :
  same_env s t -> same_env t u -> same_env s u.
Proof.
  unfold same_env. intros (H1 & H2 & H3) (H4 & H5 & H6).
  repeat split; congruence.
Qed.

Lemma handleFingerInteraction_env (index : nat) (s : ParticleSystem) :
  same_env s (handleFingerInteraction index s).
Proof.
  apply (handleFingerInteraction_ind (same_env s)); [apply same_env_refl|].
  intros px py hand tip t Ht.
  eapply same_env_trans; [exact Ht | apply interactTip_env].
Qed.

Lemma updateSlot_env (i : nat) (st : ParticleSystem * nat) :
  same_env (fst st) (fst (updateSlot i st)).
Proof.
  destruct st as [s c]. unfold updateSlot.
  destruct (active s !! i) as [[|]|]; try apply same_env_refl.
  destruct (decide _); simpl.
  - unfold same_env; simpl; auto.
  - eapply same_env_trans; [|apply handleFingerInteraction_env].
    unfold same_env; simpl; auto.
Qed.

Lemma updateSlot_shape (i : nat) (st : ParticleSystem * nat) :
  i < maxParticles (fst st) -> shape (fst st) -> shape (fst (updateSlot i st)).
Proof.
  destruct st as [s c]. simpl. intros Hi Hs. unfold updateSlot.
  destruct (active s !! i) as [[|]|] eqn:E; try exact Hs.
  apply lookup_lt_Some in E.
  destruct Hs as (Hp & Hc & Hv & Hl & Ha).
  destruct (decide _); simpl.
  - rewrite js_set_in by exact E. unfold shape; simpl. lengths.
    repeat split; try assumption.
    destruct Ha as [Hn | [Hz Ht]]; [left; exact Hn | lia].
  - apply handleFingerInteraction_shape. unfold shape; simpl. lengths. auto.
Qed.

Lemma updateParticles_env (s : ParticleSystem) :
  same_env s (fst (updateParticles s)).
Proof.
  unfold updateParticles.
  apply (for_upto_ind (fun st => same_env s (fst st))); [apply same_env_refl|].
  intros i st _ Hst. eapply same_env_trans; [exact Hst | apply updateSlot_env].
Qed.

Lemma updateParticles_shape (s : ParticleSystem) :
  shape s -> shape (fst (updateParticles s)).
Proof.
  intros Hs. unfold updateParticles.
  apply (for_upto_ind (fun st => shape (fst st) /\ same_env s (fst st)));
    [split; [exact Hs | apply same_env_refl]|].
  intros i st Hi [Hst Henv]. split.
  - apply updateSlot_shape; [|exact Hst].
    destruct Henv as (_ & -> & _). exact Hi.
  - eapply same_env_trans; [exact Henv | apply updateSlot_env].
Qed.

(** A property kept by [emitParticle] and by a draw is kept by the emission
    from the finger tips. *)
Lemma emitParticlesFromFingers_ind (P : ParticleSystem -> Prop)
  (s : ParticleSystem) :
  P s ->
  (forall k t, P t -> P (set_rng k t)) ->
  (forall x y z t, P t -> P (fst (emitParticle x y z t))) ->
  P (emitParticlesFromFingers s).
Proof.
  intros Hs Hrng Hemit. unfold emitParticlesFromFingers.
  destruct (fingerPositions s) as [[|hand hands]|]; try exact Hs.
  apply forEach_ind; [exact Hs|].
  intros h _ t Ht. apply forEach_ind; [exact Ht|].
  intros tip k t' Ht'. unfold emitFromTip.
  destruct (fingerExtension h !! k) as [[|]|]; try exact Ht'.
  apply for_upto_ind; [apply Hrng, Ht'|].
  intros _ u _ Hu. apply Hemit, Hu.
Qed.

Lemma emitParticlesFromFingers_shape (s : ParticleSystem) :
  shape s -> shape (emitParticlesFromFingers s).
Proof.
  intros Hs. apply emitParticlesFromFingers_ind; [exact Hs | auto |].
  intros. apply emitParticle_shape. assumption.
Qed.

Lemma emitParticlesFromFingers_env (s : ParticleSystem) :
  same_env s (emitParticlesFromFingers s).
Proof.
  apply (emitParticlesFromFingers_ind (same_env s)); [apply same_env_refl | auto |].
  intros x y z t Ht. eapply same_env_trans; [exact Ht | apply emitParticle_env].
Qed.

Lemma update_shape (deltaTime : num) (frameCount : Z) (s : ParticleSystem) :
  shape s -> shape (update deltaTime frameCount s).
Proof.
  intros Hs. unfold update.
  pose proof (updateParticles_shape s Hs) as H1.
  destruct (updateParticles s) as [s1 c]. simpl in H1.
  assert (H2 : shape (if (Z.rem frameCount 2 =? 0)%Z
                      then emitParticlesFromFingers s1 else s1))
    by (destruct (_ =? _)%Z; [apply emitParticlesFromFingers_shape|]; exact H1).
  destruct (Z.rem frameCount 30 =? 0)%Z; exact H2.
Qed.

Lemma update_env (deltaTime : num) (frameCount : Z) (s : ParticleSystem) :
  same_env s (update deltaTime frameCount s).
Proof.
  unfold update. pose proof (updateParticles_env s) as H1.
  destruct (updateParticles s) as [s1 c]. simpl in H1.
  assert (H2 : same_env s (if (Z.rem frameCount 2 =? 0)%Z
                           then emitParticlesFromFingers s1 else s1)).
  { destruct (_ =? _)%Z; [|exact H1].
    eapply same_env_trans; [exact H1 | apply emitParticlesFromFingers_env]. }
  destruct (Z.rem frameCount 30 =? 0)%Z; exact H2.
Qed.

Lemma reset_shape (s : ParticleSystem) : shape s -> shape (reset s).
Proof.
  intros Hs. unfold reset.
  apply (for_upto_ind
           (fun t => shape t /\ maxParticles t = maxParticles s)); [auto|].
  intros i t Hi [(Hp & Hc & Hv & Hl & Ha) Hmax]. split; [|exact Hmax].
  assert (Hlen : i < length (active t)).
  { destruct Ha as [Hn | [Hz _]]; lia. }
  unfold resetSlot, shape; simpl. rewrite js_set_in by exact Hlen. lengths.
  repeat split; try assumption.
  destruct Ha as [Hn | [Hz _]]; [left; exact Hn | lia].
Qed.

Lemma reset_maxParticles (s : ParticleSystem) :
  maxParticles (reset s) = maxParticles s.
Proof.
  unfold reset.
  apply (for_upto_ind (fun t => maxParticles t = maxParticles s)); auto.
Qed.

Lemma explosionParticle_shape (x y z radius : num) (color : option string)
  (s : ParticleSystem) :
  shape s -> shape (explosionParticle x y z radius color s).
Proof.
  intros Hs. unfold explosionParticle.
  pose proof (emitParticle_shape
                (x + Math_cos (Fin (Math_random (rng s)) * Math_PI * n2)
                     * (Fin (Math_random (S (rng s))) * radius))%js
                (y + Math_sin (Fin (Math_random (rng s)) * Math_PI * n2)
                     * (Fin (Math_random (S (rng s))) * radius))%js
                z (set_rng (S (S (rng s))) s) Hs) as H1.
  destruct (emitParticle _ _ _ _) as [s1 p]. simpl in H1.
  destruct (truthy color); [|exact H1].
  destruct p; [|exact H1].
  destruct H1 as (Hp & Hc & Hv & Hl & Ha).
  unfold shape; simpl. lengths. auto.
Qed.

Lemma explosionParticle_maxParticles (x y z radius : num)
  (color : option string) (s : ParticleSystem) :
  maxParticles (explosionParticle x y z radius color s) = maxParticles s.
Proof.
  unfold explosionParticle.
  pose proof (emitParticle_maxParticles
                (x + Math_cos (Fin (Math_random (rng s)) * Math_PI * n2)
                     * (Fin (Math_random (S (rng s))) * radius))%js
                (y + Math_sin (Fin (Math_random (rng s)) * Math_PI * n2)
                     * (Fin (Math_random (S (rng s))) * radius))%js
                z (set_rng (S (S (rng s))) s)) as H1.
  destruct (emitParticle _ _ _ _) as [s1 p]. simpl in H1.
  destruct (truthy color); [|exact H1].
  destruct p; exact H1.
Qed.

Lemma createExplosion_shape (x y z : num) (particleCount : nat) (radius : num)
  (color : option string) (s : ParticleSystem) :
  shape s -> shape (createExplosion x y z particleCount radius color s).
Proof.
  intros Hs. unfold createExplosion. apply for_upto_ind; [exact Hs|].
  intros _ t _ Ht. apply explosionParticle_shape, Ht.
Qed.

Lemma createExplosion_maxParticles (x y z : num) (particleCount : nat)
  (radius : num) (color : option string) (s : ParticleSystem) :
  maxParticles (createExplosion x y z particleCount radius color s)
  = maxParticles s.
Proof.
  unfold createExplosion.
  apply (for_upto_ind (fun t => maxParticles t = maxParticles s)); [reflexivity|].
  intros _ t _ Ht. rewrite explosionParticle_maxParticles. exact Ht.
Qed.

Lemma step_shape (o : Op) (s : ParticleSystem) : shape s -> shape (step o s).
Proof.
  intros Hs. destruct o; simpl.
  - apply update_shape, Hs.
  - apply emitParticle_shape, Hs.
  - apply handleFingerInteraction_shape, Hs.
  - apply reset_shape, Hs.
  - exact Hs.
  - exact Hs.
  - apply createExplosion_shape, Hs.
Qed.

Lemma step_maxParticles (o : Op) (s : ParticleSystem) :
  maxParticles (step o s) = maxParticles s.
Proof.
  destruct o; simpl.
  - apply update_env.
  - apply emitParticle_maxParticles.
  - apply handleFingerInteraction_env.
  - apply reset_maxParticles.
  - reflexivity.
  - reflexivity.
  - apply createExplosion_maxParticles.
Qed.

Lemma run_ind (P : ParticleSystem -> Prop) (ops : list Op) (s : ParticleSystem) :
  P s -> (forall o t, P t -> P (step o t)) -> P (run ops s).
Proof.
  intros Hs Hstep. revert s Hs. unfold run.
  induction ops as [|o ops IH]; intros s Hs; simpl; [exact Hs|].
  apply IH, Hstep, Hs.
Qed.

End Facts.

(** ** Inactive slots stay parked *)

Section Sentinel.

Context {platform : Platform}.

Local Open Scope nat_scope.

Lemma emitParticle_sentinel (x y z : num) (s : ParticleSystem) :
  shape s -> sentinel s -> sentinel (fst (emitParticle x y z s)).
Proof.
  intros Hs Hsen. pose proof (selectSlot_index s Hs) as Hidx.
  unfold emitParticle. destruct (selectSlot s) as [idx k]. simpl in *.
  intros i. simpl.
  destruct Hidx as [Hlt | (Hz & Hnil & ->)].
  - rewrite js_set_in by exact Hlt. intros Hi.
    assert (Hne : idx <> i).
    { intros ->. rewrite list_lookup_insert_eq in Hi by exact Hlt. discriminate. }
    rewrite list_lookup_insert_ne in Hi by exact Hne.
    rewrite !list_lookup_insert_ne by lia. apply Hsen, Hi.
  - rewrite Hnil. simpl. destruct i; simpl; discriminate.
Qed.

Lemma handleFingerInteraction_places (index : nat) (s : ParticleSystem) :
  particles (handleFingerInteraction index s) = particles s /\
  active (handleFingerInteraction index s) = active s.
Proof.
  apply (handleFingerInteraction_ind
           (fun t => particles t = particles s /\ active t = active s)); [auto|].
  intros px py hand tip t Ht. unfold interactTip.
  destruct (JS.lt _ _); simpl; exact Ht.
Qed.






Lemma reset_parks (s : ParticleSystem) :
  shape s ->
  forall i, i < maxParticles s ->
    particles (reset s) !! (i * 3 + 2) = Some OFFSCREEN /\
    active (reset s) !! i = Some false.
Proof.
  intros Hs. unfold reset.
  apply (for_upto_count
           (fun k t => shape t /\ maxParticles t = maxParticles s /\
                       forall i, i < k ->
                         particles t !! (i * 3 + 2) = Some OFFSCREEN /\
                         active t !! i = Some false)).
  - split; [exact Hs|]. split; [reflexivity|]. intros i Hi. lia.
  - intros k t Hk (Ht & Hmax & Hdone).
    assert (Hlen : k < length (active t)).
    { destruct Ht as (_ & _ & _ & _ & [Hn | [Hz _]]); lia. }
    assert (Ht' : shape (resetSlot k t)).
    { destruct Ht as (Hp & Hc & Hv & Hl & Ha).
      unfold resetSlot, shape; simpl. rewrite js_set_in by exact Hlen. lengths.
      repeat split; try assumption.
      destruct Ha as [Hn | [Hz _]]; [left; exact Hn | lia]. }
    split; [exact Ht'|]. split; [exact Hmax|].
    intros i Hi. unfold resetSlot; simpl. rewrite js_set_in by exact Hlen.
    destruct Ht as (Hp & _).
    destruct (decide (k = i)) as [<-|Hne].
    + split; apply list_lookup_insert_eq; lia.
    + rewrite !list_lookup_insert_ne by lia. apply Hdone. lia.
Qed.





(** *** After [init] *)

Lemma init_fresh (s : ParticleSystem) :
  active s = [] -> velocities s = [] -> lifetimes s = [] ->
  pool (maxParticles s) (init s) /\
  (forall i, i < maxParticles s ->
     particles (init s) !! (i * 3 + 2) = Some OFFSCREEN) /\
  (forall i b, active (init s) !! i = Some b -> b = false).
Proof.
  intros Ea Ev El. unfold init, pool. set (n := maxParticles s).
  apply (for_upto_count
           (fun k t =>
              (maxParticles t = n /\ length (active t) = k /\
               length (velocities t) = k /\ length (lifetimes t) = k /\
               length (particles t) = n * 3 /\
               length (particleColors t) = n * 3) /\
              (forall i, i < k -> particles t !! (i * 3 + 2) = Some OFFSCREEN) /\
              (forall i b, active t !! i = Some b -> b = false))).
  - simpl. rewrite !length_replicate, Ea, Ev, El.
    repeat split; try reflexivity; try (intros; lia).
    intros i b H. destruct i; discriminate.
  - clearbody n. intros k t Hk ((Hm & Ha & Hv & Hl & Hp & Hc) & Hz & Hf).
    unfold initSlot; simpl. lengths. simpl.
    repeat split; try assumption; try lia.
    + intros i Hi. destruct (decide (k = i)) as [<-|Hne].
      * apply list_lookup_insert_eq. lengths. lia.
      * rewrite !list_lookup_insert_ne by lia. apply Hz. lia.
    + intros i b Hi. apply lookup_app_Some in Hi.
      destruct Hi as [Hi | [_ Hi]]; [eapply Hf, Hi|].
      destruct (i - length (active t)); simpl in Hi; [congruence | discriminate].
Qed.

Lemma init_state (opts : Properties) :
  pool (count (spread Config_particles opts)) (init (construct opts)) /\
  (forall i, i < count (spread Config_particles opts) ->
     particles (init (construct opts)) !! (i * 3 + 2) = Some OFFSCREEN) /\
  (forall i b, active (init (construct opts)) !! i = Some b -> b = false).
Proof. apply (init_fresh (construct opts)); reflexivity. Qed.

Lemma pool_shape (n : nat) (s : ParticleSystem) : pool n s -> shape s.
Proof.
  intros (Hm & Ha & Hv & Hl & Hp & Hc). unfold shape. rewrite Hm.
  repeat split; try assumption; try congruence. left. exact Ha.
Qed.

Lemma shape_pool (s : ParticleSystem) :
  shape s -> 0 < maxParticles s -> pool (maxParticles s) s.
Proof.
  intros (Hp & Hc & Hv & Hl & Ha) Hn.
  destruct Ha as [Ha | [Hz _]]; [|lia].
  unfold pool. repeat split; try assumption; congruence.
Qed.

Lemma init_shape (opts : Properties) : shape (init (construct opts)).
Proof. eapply pool_shape. apply init_state. Qed.


Lemma run_shape (ops : list Op) (s : ParticleSystem) :
  shape s -> shape (run ops s).
Proof.
  intros Hs. apply run_ind; [exact Hs|]. intros o t. apply step_shape.
Qed.

Lemma run_maxParticles (ops : list Op) (s : ParticleSystem) :
  maxParticles (run ops s) = maxParticles s.
Proof.
  apply (run_ind (fun t => maxParticles t = maxParticles s)); [reflexivity|].
  intros o t Ht. rewrite step_maxParticles. exact Ht.
Qed.

End Sentinel.

(** ** The pool keeps its capacity *)

Section Capacity.

Context {platform : Platform}.

Local Open Scope nat_scope.

Lemma activeSlots_le (s : ParticleSystem) : activeSlots s <= length (active s).
Proof. unfold activeSlots. apply length_filter. Qed.

(** C1, as amended: in a pool built with a capacity of at least 1, after any
    history of calls ([update], [emitParticle], [handleFingerInteraction],
    [reset], [updateProperties] with any property bag, also one that carries
    [count], [updateFromHandData], [createExplosion]) the capacity is the
    one fixed at construction, every particle array has the length it had
    after [init], and the number of active slots is at most the capacity. *)
Theorem capacity_fixed (opts : Properties) (ops : list Op) :
  0 < count (spread Config_particles opts) ->
  pool (count (spread Config_particles opts)) (run ops (init (construct opts))) /\
  activeSlots (run ops (init (construct opts)))
  <= count (spread Config_particles opts).
Proof.
  intros Hn.
  pose proof (run_shape ops _ (init_shape opts)) as Hs.
  pose proof (run_maxParticles ops (init (construct opts))) as Hm.
  destruct (init_state opts) as ((Hmax & _) & _).
  rewrite Hmax in Hm.
  assert (Hp : pool (count (spread Config_particles opts))
                 (run ops (init (construct opts)))).
  { rewrite <- Hm. apply shape_pool; [exact Hs | lia]. }
  split; [exact Hp|].
  destruct Hp as (_ & Ha & _).
  etransitivity; [apply activeSlots_le | lia].
Qed.


End Capacity.

(** A history on a pool of two slots: three emissions (the third one
    overwrites a slot), a property bag that carries [count], a frame, a
    reset and a last emission. *)
Example capacity_fixed_witness :
  let ops :=
    [OpEmitParticle n0 n0 n0; OpEmitParticle n1 n0 n0; OpEmitParticle n0 n1 n0;
     OpUpdateProperties (capacity 7); OpUpdate n0 2; OpReset;
     OpEmitParticle n1 n1 n0] in
  (0 < count (spread Config_particles (capacity 2)))%nat /\
  pool 2 (@run demo ops (@init demo (construct (capacity 2)))) /\
  (activeSlots (@run demo ops (@init demo (construct (capacity 2)))) <= 2)%nat.
Proof.
  intros ops. split; [simpl; lia|].
  apply (@capacity_fixed demo (capacity 2) ops). simpl. lia.
Defined.

(** C1 as stated fails for a pool of capacity 0: the first [emitParticle]
    writes slot 0 past the end of the empty side arrays, which grow to one
    entry, and one slot is active in a pool of capacity 0. *)
Example capacity_zero_overflow :
  let s0 := @init demo (construct (capacity 0)) in
  let s1 := fst (@emitParticle demo n0 n0 n0 s0) in
  maxParticles s1 = 0%nat /\
  length (active s0) = 0%nat /\ length (active s1) = 1%nat /\
  length (velocities s1) = 1%nat /\ length (lifetimes s1) = 1%nat /\
  activeSlots s1 = 1%nat /\
  ~ (activeSlots s1 <= maxParticles s1)%nat.
Proof.
  vm_compute. repeat split; try reflexivity. intros H. inversion H.
Qed.


(** ** One slot at a time *)

Section Slots.

Context {platform : Platform}.

Local Open Scope nat_scope.

Lemma same_slot_refl (i : nat) (s : ParticleSystem) : same_slot i s s.
Proof. unfold same_slot. repeat split. Qed.

Lemma same_slot_trans (i : nat) (s t u : ParticleSystem) :
  same_slot i s t -> same_slot i t u -> same_slot i s u.
Proof.
  unfold same_slot.
  intros (A1 & A2 & A3 & A4 & A5 & A6 & A7 & A8 & A9)
         (B1 & B2 & B3 & B4 & B5 & B6 & B7 & B8 & B9).
  repeat split; congruence.
Qed.

Lemma interactTip_other (index i : nat) (px py : num) (hand : Hand)
  (tip : Vec3) (s : ParticleSystem) :
  index <> i -> same_slot i s (interactTip index px py hand tip s).
Proof.
  intros Hne. unfold interactTip.
  destruct (JS.lt _ _); [|apply same_slot_refl].
  unfold same_slot; simpl.
  repeat split; try reflexivity; apply list_lookup_alter_ne; lia.
Qed.

Lemma handleFingerInteraction_other (index i : nat) (s : ParticleSystem) :
  index <> i -> same_slot i s (handleFingerInteraction index s).
Proof.
  intros Hne.
  apply (handleFingerInteraction_ind (same_slot i s)); [apply same_slot_refl|].
  intros px py hand tip t Ht.
  eapply same_slot_trans; [exact Ht | apply interactTip_other, Hne].
Qed.

Lemma updateSlot_other (j i : nat) (st : ParticleSystem * nat) :
  j <> i -> same_slot i (fst st) (fst (updateSlot j st)).
Proof.
  intros Hne. destruct st as [s c]. simpl. unfold updateSlot.
  destruct (active s !! j) as [[|]|] eqn:E; try apply same_slot_refl.
  apply lookup_lt_Some in E.
  destruct (decide _); simpl.
  - unfold same_slot; simpl. rewrite js_set_in by exact E.
    repeat split; try reflexivity;
      first [ apply list_lookup_insert_ne; lia
            | apply list_lookup_alter_ne; lia ].
  - eapply same_slot_trans; [|apply handleFingerInteraction_other, Hne].
    unfold same_slot; simpl.
    repeat split; try reflexivity;
      rewrite ?list_lookup_alter_ne by lia; reflexivity.
Qed.

(** The turns of the loop before slot [i] leave it as it was. *)
Lemma updateLoop_before (i n : nat) (s : ParticleSystem) (c : nat) :
  n <= i -> same_slot i s (fst (for_upto n updateSlot (s, c))).
Proof.
  intros Hn.
  apply (for_upto_ind (fun st => same_slot i s (fst st)));
    [apply same_slot_refl|].
  intros j st Hj Hst.
  eapply same_slot_trans; [exact Hst | apply updateSlot_other; lia].
Qed.

(** So do the turns after it. *)
Lemma updateLoop_after (i n : nat) (s : ParticleSystem) (c : nat) :
  i < n ->
  same_slot i (fst (updateSlot i (for_upto i updateSlot (s, c))))
    (fst (for_upto n updateSlot (s, c))).
Proof.
  intros Hn. induction n as [|n IH]; [lia|].
  rewrite for_upto_S.
  destruct (decide (i = n)) as [->|Hne]; [apply same_slot_refl|].
  eapply same_slot_trans; [apply IH; lia | apply updateSlot_other; lia].
Qed.

Lemma updateLoop_env (n : nat) (s : ParticleSystem) (c : nat) :
  same_env s (fst (for_upto n updateSlot (s, c))).
Proof.
  apply (for_upto_ind (fun st => same_env s (fst st))); [apply same_env_refl|].
  intros i st _ Hst. eapply same_env_trans; [exact Hst | apply updateSlot_env].
Qed.

(** A slot that is not active is left as it is by the whole loop. *)
Lemma updateSlot_inactive (i : nat) (st : ParticleSystem * nat) :
  active (fst st) !! i <> Some true -> updateSlot i st = st.
Proof.
  destruct st as [s c]. simpl. intros H. unfold updateSlot.
  destruct (active s !! i) as [[|]|]; [congruence | reflexivity | reflexivity].
Qed.

Lemma updateParticles_inactive (i : nat) (s : ParticleSystem) :
  active s !! i <> Some true -> same_slot i s (fst (updateParticles s)).
Proof.
  intros H. unfold updateParticles.
  destruct (le_lt_dec (maxParticles s) i) as [Hle | Hlt];
    [apply updateLoop_before, Hle|].
  eapply same_slot_trans; [|apply updateLoop_after, Hlt].
  pose proof (updateLoop_before i i s 0 (le_n i)) as Hb.
  rewrite updateSlot_inactive; [exact Hb|].
  destruct Hb as (-> & _). exact H.
Qed.

End Slots.

(** ** The physics step of one slot *)

Section Physics.

Context {platform : Platform}.

Local Open Scope nat_scope.



(** The turn of the loop for an active slot whose lifetime runs out. *)
Lemma updateSlot_expire (i : nat) (t : ParticleSystem) (c : nat) (L : Z) :
  active t !! i = Some true -> lifetimes t !! i = Some L -> (L - 1 <= 0)%Z ->
  i * 3 + 2 < length (particles t) ->
  active (fst (updateSlot i (t, c))) !! i = Some false /\
  lifetimes (fst (updateSlot i (t, c))) !! i = Some (L - 1)%Z /\
  velocities (fst (updateSlot i (t, c))) = velocities t /\
  particleColors (fst (updateSlot i (t, c))) = particleColors t /\
  particles (fst (updateSlot i (t, c))) !! (i * 3) = particles t !! (i * 3) /\
  particles (fst (updateSlot i (t, c))) !! (i * 3 + 1)
  = particles t !! (i * 3 + 1) /\
  particles (fst (updateSlot i (t, c))) !! (i * 3 + 2) = Some OFFSCREEN.
Proof.
  intros Ha Hl HL Hp. unfold updateSlot. rewrite Ha.
  rewrite list_lookup_alter_eq, Hl. simpl.
  destruct (decide _) as [_|Hn]; [|lia]. simpl.
  apply lookup_lt_Some in Ha. rewrite js_set_in by exact Ha.
  repeat split.
  - apply list_lookup_insert_eq, Ha.
  - rewrite list_lookup_alter_eq, Hl. reflexivity.
  - apply list_lookup_insert_ne. lia.
  - apply list_lookup_insert_ne. lia.
  - apply list_lookup_insert_eq, Hp.
Qed.


End Physics.

(** ** The loop of [update] *)

Section Frame.

Context {platform : Platform}.

Local Open Scope nat_scope.


(** Slot [i] at the end of the loop is what its own turn made of it, and
    this turn started from the data the slot had before the loop. *)
Lemma updateParticles_turn (i : nat) (s : ParticleSystem) :
  i < maxParticles s ->
  exists (t : ParticleSystem) (c : nat),
    same_slot i s t /\ same_env s t /\
    same_slot i (fst (updateSlot i (t, c))) (fst (updateParticles s)).
Proof.
  intros Hi.
  destruct (for_upto i updateSlot (s, 0)) as [t c] eqn:E.
  exists t, c.
  pose proof (updateLoop_before i i s 0 (le_n i)) as Hb.
  pose proof (updateLoop_env i s 0) as He.
  pose proof (updateLoop_after i (maxParticles s) s 0 Hi) as Hafter.
  rewrite E in Hb, He, Hafter. simpl in Hb, He.
  split; [exact Hb|]. split; [exact He|]. exact Hafter.
Qed.

(** An active slot whose lifetime runs out, after the loop. *)
Lemma updateParticles_expire (i : nat) (s : ParticleSystem) (L : Z) :
  i < maxParticles s ->
  active s !! i = Some true -> lifetimes s !! i = Some L -> (L - 1 <= 0)%Z ->
  i * 3 + 2 < length (particles s) ->
  active (fst (updateParticles s)) !! i = Some false /\
  lifetimes (fst (updateParticles s)) !! i = Some (L - 1)%Z /\
  velocities (fst (updateParticles s)) !! i = velocities s !! i /\
  particles (fst (updateParticles s)) !! (i * 3) = particles s !! (i * 3) /\
  particles (fst (updateParticles s)) !! (i * 3 + 1)
  = particles s !! (i * 3 + 1) /\
  particles (fst (updateParticles s)) !! (i * 3 + 2) = Some OFFSCREEN /\
  particleColors (fst (updateParticles s)) !! (i * 3)
  = particleColors s !! (i * 3) /\
  particleColors (fst (updateParticles s)) !! (i * 3 + 1)
  = particleColors s !! (i * 3 + 1) /\
  particleColors (fst (updateParticles s)) !! (i * 3 + 2)
  = particleColors s !! (i * 3 + 2).
Proof.
  intros Hi Ha Hl HL Hp.
  destruct (updateParticles_turn i s Hi)
    as (t & c & Hst & Henv & (A1 & A2 & A3 & A4 & A5 & A6 & A7 & A8 & A9)).
  destruct Hst as (B1 & B2 & B3 & B4 & B5 & B6 & B7 & B8 & B9).
  assert (Hp' : i * 3 + 2 < length (particles t)).
  { apply lookup_lt_is_Some. rewrite B6. apply lookup_lt_is_Some, Hp. }
  rewrite <- B1 in Ha. rewrite <- B2 in Hl.
  destruct (updateSlot_expire i t c L Ha Hl HL Hp')
    as (E1 & E2 & E3 & E4 & E5 & E6 & E7).
  rewrite A1, A2, A3, A4, A5, A6, A7, A8, A9, E3, E4.
  repeat split; congruence.
Qed.


End Frame.

(** ** Frames without hands *)

Section Countdown.

Context {platform : Platform}.

Local Open Scope nat_scope.

Lemma emitParticlesFromFingers_noHands (s : ParticleSystem) :
  noHands s -> emitParticlesFromFingers s = s.
Proof.
  intros [H | H]; unfold emitParticlesFromFingers; rewrite H; reflexivity.
Qed.

Lemma noHands_env (s t : ParticleSystem) : same_env s t -> noHands s -> noHands t.
Proof. intros (_ & _ & Hf) H. unfold noHands. rewrite Hf. exact H. Qed.






End Countdown.


(** ** The finger interaction *)

Section Interaction.

Context {platform : Platform}.

Local Open Scope nat_scope.

Lemma min_clamped (x : num) : JS.lt n1 (JS.min n1 x) = false.
Proof.
  destruct x as [q| | |]; try reflexivity. unfold n1. simpl.
  destruct (Qlt_le_dec q 1) as [Hlt | Hle]; simpl.
  - destruct (Qlt_le_dec 1 q) as [Hgt | _]; [|reflexivity].
    exfalso. apply (Qlt_irrefl 1). eapply Qlt_trans; eassumption.
  - reflexivity.
Qed.

Lemma interactTip_far (index : nat) (px py : num) (hand : Hand) (tip : Vec3)
  (s : ParticleSystem) :
  JS.lt (planarDistance tip px py) (interactionRadius (options s)) = false ->
  interactTip index px py hand tip s = s.
Proof.
  intros H. unfold interactTip. unfold planarDistance in H. rewrite H.
  reflexivity.
Qed.

Lemma interactTip_contact (index : nat) (px py : num) (hand : Hand)
  (tip : Vec3) (s : ParticleSystem) (w : Vec3) (L : Z) (r : num) :
  JS.lt (planarDistance tip px py) (interactionRadius (options s)) = true ->
  velocities s !! index = Some w ->
  lifetimes s !! index = Some L ->
  particleColors s !! (index * 3) = Some r ->
  velocities (interactTip index px py hand tip s) !! index
  = Some {| vx := (vx w + pushX (options s) hand tip px py)%js;
            vy := (vy w + pushY (options s) hand tip px py)%js;
            vz := vz w |} /\
  particleColors (interactTip index px py hand tip s) !! (index * 3)
  = Some (JS.min n1 (r + n0_05)%js) /\
  particleColors (interactTip index px py hand tip s) !! (index * 3 + 1)
  = particleColors s !! (index * 3 + 1) /\
  particleColors (interactTip index px py hand tip s) !! (index * 3 + 2)
  = particleColors s !! (index * 3 + 2) /\
  lifetimes (interactTip index px py hand tip s) !! index = Some (L + 5)%Z /\
  particles (interactTip index px py hand tip s) = particles s /\
  active (interactTip index px py hand tip s) = active s /\
  options (interactTip index px py hand tip s) = options s.
Proof.
  intros H Hv Hl Hr. unfold interactTip. unfold planarDistance in H.
  rewrite H. simpl.
  rewrite !list_lookup_alter_eq, Hv, Hl, Hr.
  rewrite !list_lookup_alter_ne by lia. simpl.
  unfold pushX, pushY, planarDistance.
  destruct (velocity hand); simpl; repeat split; reflexivity.
Qed.

(** Two tips within reach: the second contribution is added to the first. *)
Lemma interactTip_twice (index : nat) (px py : num) (h1 h2 : Hand)
  (t1 t2 : Vec3) (s : ParticleSystem) (w : Vec3) (L : Z) (r : num) :
  JS.lt (planarDistance t1 px py) (interactionRadius (options s)) = true ->
  JS.lt (planarDistance t2 px py) (interactionRadius (options s)) = true ->
  velocities s !! index = Some w ->
  lifetimes s !! index = Some L ->
  particleColors s !! (index * 3) = Some r ->
  velocities (interactTip index px py h2 t2 (interactTip index px py h1 t1 s))
    !! index
  = Some {| vx := (vx w + pushX (options s) h1 t1 px py
                   + pushX (options s) h2 t2 px py)%js;
            vy := (vy w + pushY (options s) h1 t1 px py
                   + pushY (options s) h2 t2 px py)%js;
            vz := vz w |} /\
  lifetimes (interactTip index px py h2 t2 (interactTip index px py h1 t1 s))
    !! index
  = Some (L + 5 + 5)%Z.
Proof.
  intros H1 H2 Hv Hl Hr.
  destruct (interactTip_contact index px py h1 t1 s w L r H1 Hv Hl Hr)
    as (E1 & E2 & _ & _ & E3 & _ & _ & Eo).
  rewrite <- Eo in H2.
  destruct (interactTip_contact index px py h2 t2 _ _ _ _ H2 E1 E3 E2)
    as (F1 & _ & _ & _ & F3 & _).
  rewrite F1, F3, Eo. split; reflexivity.
Qed.

Lemma forEach_from_foldl {A St : Type} (f : A -> St -> St) (arr : list A)
  (k : nat) (s : St) :
  forEach_from (fun x _ => f x) k arr s = foldl (fun acc x => f x acc) s arr.
Proof.
  revert k s. induction arr as [|x rest IH]; intros k s; simpl;
    [reflexivity | apply IH].
Qed.

Lemma foldl_flat_map {A B St : Type} (g : A -> list B) (f : St -> B -> St)
  (l : list A) (s : St) :
  foldl (fun acc x => foldl f acc (g x)) s l = foldl f s (flat_map g l).
Proof.
  revert s. induction l as [|x l IH]; intros s; simpl; [reflexivity|].
  rewrite foldl_app. apply IH.
Qed.

(** The whole pass applies the contribution of every tip, one after the
    other, all of them from the position read before the loops. *)
Lemma handleFingerInteraction_fold (index : nat) (s : ParticleSystem)
  (hands : list Hand) :
  fingerPositions s = Some hands ->
  handleFingerInteraction index s
  = foldl (fun acc ht =>
             interactTip index (readF32 (particles s) (index * 3))
               (readF32 (particles s) (index * 3 + 1)) (fst ht) (snd ht) acc)
      s (contributions hands).
Proof.
  intros E. unfold handleFingerInteraction. rewrite E.
  destruct hands as [|hand hands]; [reflexivity|].
  set (px := readF32 (particles s) (index * 3)).
  set (py := readF32 (particles s) (index * 3 + 1)).
  generalize (hand :: hands) as hs. intros hs.
  unfold forEach, contributions.
  rewrite (forEach_from_foldl
             (fun h => forEach_from (fun tip _ => interactTip index px py h tip)
                         0 (tips h))).
  rewrite <- (foldl_flat_map
                (fun h => map (fun tip => (h, tip)) (tips h))
                (fun acc ht => interactTip index px py (fst ht) (snd ht) acc)).
  clearbody px py. generalize s as t. induction hs as [|h hs IH]; intros t; simpl;
    [reflexivity|].
  rewrite <- IH. f_equal.
  rewrite forEach_from_foldl.
  generalize t as u. induction (tips h) as [|tip ts IHt]; intros u; simpl;
    [reflexivity | apply IHt].
Qed.

(** C3, as amended: a tip at planar distance [d < interactionRadius] of the
    particle adds to the particle's velocity, on [x] and [y] only,
    [s * (tip - particle) / d] with [s = 0.5 * (1 - d / interactionRadius)],
    that is [s] times the unit vector from the particle to the tip, plus a
    tenth of the hand's velocity estimate when there is one; it replaces the
    red channel [r] by [min(1, r + 0.05)], which is never above 1, and adds 5
    to the lifetime.  A tip out of reach changes nothing, and the pass applies
    the contributions of all the tips one after the other, each computed
    from the same particle position: the contributions of two tips within
    reach add up, in the velocity and in the lifetime. *)
Theorem interaction_contribution (index : nat) (s : ParticleSystem)
  (hand : Hand) (tip : Vec3) (px py : num) (w : Vec3) (L : Z) (r : num) :
  velocities s !! index = Some w ->
  lifetimes s !! index = Some L ->
  particleColors s !! (index * 3) = Some r ->
  let d := Math_sqrt ((vx tip - px) * (vx tip - px)
                      + (vy tip - py) * (vy tip - py))%js in
  let strength := (n0_5 * (n1 - d / interactionRadius (options s)))%js in
  let hv := match velocity hand with
            | Some e => ((hx e * n0_1)%js, (hy e * n0_1)%js)
            | None => (n0, n0)
            end in
  (JS.lt d (interactionRadius (options s)) = true ->
   velocities (interactTip index px py hand tip s) !! index
   = Some {| vx := (vx w + ((vx tip - px) / d * strength + fst hv))%js;
             vy := (vy w + ((vy tip - py) / d * strength + snd hv))%js;
             vz := vz w |} /\
   particleColors (interactTip index px py hand tip s) !! (index * 3)
   = Some (JS.min n1 (r + n0_05)%js) /\
   JS.lt n1 (JS.min n1 (r + n0_05)%js) = false /\
   lifetimes (interactTip index px py hand tip s) !! index = Some (L + 5)%Z) /\
  (JS.lt d (interactionRadius (options s)) = false ->
   interactTip index px py hand tip s = s) /\
  (forall hands, fingerPositions s = Some hands ->
   handleFingerInteraction index s
   = foldl (fun acc ht =>
              interactTip index (readF32 (particles s) (index * 3))
                (readF32 (particles s) (index * 3 + 1)) (fst ht) (snd ht) acc)
       s (contributions hands)) /\
  (forall hand2 tip2,
     JS.lt d (interactionRadius (options s)) = true ->
     JS.lt (planarDistance tip2 px py) (interactionRadius (options s)) = true ->
     velocities
       (interactTip index px py hand2 tip2 (interactTip index px py hand tip s))
       !! index
     = Some {| vx := (vx w + pushX (options s) hand tip px py
                      + pushX (options s) hand2 tip2 px py)%js;
               vy := (vy w + pushY (options s) hand tip px py
                      + pushY (options s) hand2 tip2 px py)%js;
               vz := vz w |} /\
     lifetimes
       (interactTip index px py hand2 tip2 (interactTip index px py hand tip s))
       !! index
     = Some (L + 5 + 5)%Z).
Proof.
  intros Hv Hl Hr d strength hv. split; [|split; [|split]].
  - intros Hd.
    destruct (interactTip_contact index px py hand tip s w L r Hd Hv Hl Hr)
      as (E1 & E2 & _ & _ & E3 & _).
    rewrite E1, E2, E3.
    split; [|split; [reflexivity | split; [apply min_clamped | reflexivity]]].
    unfold pushX, pushY, planarDistance. subst hv d strength.
    destruct (velocity hand); reflexivity.
  - apply interactTip_far.
  - intros hands. apply handleFingerInteraction_fold.
  - intros hand2 tip2 H1 H2.
    apply (interactTip_twice index px py hand hand2 tip tip2 s w L r);
      assumption.
Qed.

End Interaction.

(** C3 as stated fails on the direction: for a particle at rest at the
    origin and a tip at (1, 0) with radius 10, the code adds +9/20 to the [x]
    velocity, towards the tip; [s] times the unit vector from the tip to the
    particle would be -9/20. *)
Example pulled_toward_tip :
  let s := tipAt n1 n0 true in
  let tip := mkVec3 n1 n0 n0 in
  let d := @planarDistance demo tip n0 n0 in
  let strength := (n0_5 * (n1 - d / interactionRadius (options s)))%js in
  vx <$> velocities s !! 0%nat = Some (Fin 0) /\
  JS.lt d (interactionRadius (options s)) = true /\
  vx <$> velocities (@handleFingerInteraction demo 0 s) !! 0%nat
  = Some (Fin (9 # 20)) /\
  (Fin 0 + strength * ((n0 - vx tip) / d))%js = Fin (-9 # 20) /\
  vx <$> velocities (@handleFingerInteraction demo 0 s) !! 0%nat
  <> Some (Fin 0 + strength * ((n0 - vx tip) / d))%js.
Proof.
  vm_compute. repeat split; try reflexivity. intros H. discriminate H.
Qed.

(** A particle at rest at the origin and a tip at (1, 0), radius 10: the [x]
    velocity goes from 0 to 9/20, the red channel stays at its maximum 1 and
    the lifetime goes from 1500 to 1505. *)
Example interaction_contribution_witness :
  let s := tipAt n1 n0 true in
  let hand := oneTip n1 n0 true None in
  let tip := mkVec3 n1 n0 n0 in
  velocities s !! 0%nat = Some (mkVec3 n0 n0 (Fin (1 # 20))) /\
  lifetimes s !! 0%nat = Some 1500 /\
  particleColors s !! (0 * 3)%nat = Some n1 /\
  velocities (@interactTip demo 0 n0 n0 hand tip s) !! 0%nat
  = Some (mkVec3 (Fin (9 # 20)) n0 (Fin (1 # 20))) /\
  particleColors (@interactTip demo 0 n0 n0 hand tip s) !! (0 * 3)%nat
  = Some n1 /\
  lifetimes (@interactTip demo 0 n0 n0 hand tip s) !! 0%nat = Some 1505.
Proof.
  intros s hand tip.
  assert (Hv : velocities s !! 0%nat = Some (mkVec3 n0 n0 (Fin (1 # 20))))
    by reflexivity.
  assert (Hl : lifetimes s !! 0%nat = Some 1500) by reflexivity.
  assert (Hr : particleColors s !! (0 * 3)%nat = Some n1) by reflexivity.
  destruct (@interaction_contribution demo 0%nat s hand tip n0 n0 _ _ _ Hv Hl Hr)
    as (Hnear & _ & _).
  destruct Hnear as (E1 & E2 & _ & E3); [vm_compute; reflexivity|].
  rewrite E1, E2, E3.
  repeat split; try assumption; vm_compute; reflexivity.
Defined.

(** Two tips on opposite sides, at distances 1 and 2: the pulls +9/20 and
    -2/5 add up to 1/20, and the lifetime gains 5 twice. *)
Example two_tips_add_up :
  vx <$> velocities (@handleFingerInteraction demo 0 underTwoTips) !! 0%nat
  = Some (Fin (1 # 20)) /\
  lifetimes (@handleFingerInteraction demo 0 underTwoTips) !! 0%nat = Some 1510.
Proof.
  vm_compute. split; reflexivity.
Qed.

(** ** The interaction and the extension flags *)

Section Flags.

Context {platform : Platform}.

Local Open Scope nat_scope.

Lemma sameData_refl (s : ParticleSystem) : sameData s s.
Proof. unfold sameData. repeat split. Qed.




End Flags.



(** ** A particle exactly under a tip *)

Section ZeroDistance.

Context {platform : Platform}.

Local Open Scope nat_scope.

Lemma sub_self (a : Q) : JS.sub (Fin a) (Fin a) = Fin 0.
Proof.
  unfold JS.sub, JS.neg, JS.add, JS.fin. f_equal.
  change 0%Q with (Qred 0). apply Qred_complete.
  rewrite Qred_correct. ring.
Qed.

Lemma add_NaN_r (x : num) : JS.add x NaN = NaN.
Proof. destruct x; reflexivity. Qed.

Lemma lt_zero_pos (R : Q) : (0 < R)%Q -> JS.lt (Fin 0) (Fin R) = true.
Proof.
  intros HR. simpl. destruct (Qlt_le_dec 0 R) as [_|Hle]; [reflexivity|].
  exfalso. apply (Qlt_irrefl 0). eapply Qlt_le_trans; eassumption.
Qed.

(** C7 fails on the code: the distance is not guarded.  When the tip is at
    the planar position [(a, b)] of the particle, the distance is 0, which
    is below any positive radius, the direction is computed as [0 / 0], and
    the [x] and [y] velocities of the particle become NaN. *)
Theorem zero_distance_not_guarded (index : nat) (s : ParticleSystem)
  (hand : Hand) (tip : Vec3) (a b R : Q) (w : Vec3) :
  Math_sqrt (Fin 0) = Fin 0 ->
  vx tip = Fin a -> vy tip = Fin b ->
  interactionRadius (options s) = Fin R -> (0 < R)%Q ->
  velocities s !! index = Some w ->
  ((vx tip - Fin a) / planarDistance tip (Fin a) (Fin b))%js = NaN /\
  velocities (interactTip index (Fin a) (Fin b) hand tip s) !! index
  = Some {| vx := NaN; vy := NaN; vz := vz w |} /\
  JS.is_finite NaN = false.
Proof.
  intros Hsqrt Hx Hy HR Hpos Hv.
  assert (Hd : planarDistance tip (Fin a) (Fin b) = Fin 0).
  { unfold planarDistance. rewrite Hx, Hy, !sub_self. exact Hsqrt. }
  split; [|split; [|reflexivity]].
  - rewrite Hd, Hx, sub_self. reflexivity.
  - unfold interactTip.
    change (Math_sqrt _) with (planarDistance tip (Fin a) (Fin b)).
    rewrite Hd, HR, (lt_zero_pos R Hpos). simpl.
    rewrite list_lookup_alter_eq, Hv. simpl.
    rewrite Hx, Hy, !sub_self. simpl. rewrite !add_NaN_r. reflexivity.
Qed.

End ZeroDistance.

(** A particle at the origin under a tip at the origin, radius 10, with the
    exact square root: the planar velocity is NaN after the interaction. *)
Example zero_distance_not_guarded_witness :
  let s := tipAt n0 n0 true in
  let tip := mkVec3 n0 n0 n0 in
  exact_sqrt (Fin 0) = Fin 0 /\
  interactionRadius (options s) = Fin 10 /\
  velocities s !! 0%nat = Some (mkVec3 n0 n0 (Fin (1 # 20))) /\
  velocities (@interactTip demo 0 (Fin 0) (Fin 0) (oneTip n0 n0 true None) tip s)
    !! 0%nat
  = Some (mkVec3 NaN NaN (Fin (1 # 20))).
Proof.
  intros s tip.
  assert (H0 : @Math_sqrt demo (Fin 0) = Fin 0) by reflexivity.
  assert (HR : interactionRadius (options s) = Fin 10) by reflexivity.
  assert (Hv : velocities s !! 0%nat = Some (mkVec3 n0 n0 (Fin (1 # 20))))
    by reflexivity.
  refine (conj H0 (conj HR (conj Hv _))).
  apply (@zero_distance_not_guarded demo 0%nat s (oneTip n0 n0 true None) tip
           0 0 10 _ H0 eq_refl eq_refl HR eq_refl Hv).
Defined.

(** The same defect in the frame loop: in a pool without gravity whose
    particles start at rest, a particle emitted at an extended tip on frame 2
    sits under that tip on frame 3, and its velocity is NaN after that
    frame. *)
Example zero_distance_in_frames :
  let s := @runFrames demo 2 n0 1 tipOverEmptyPool in
  particles s !! 0%nat = Some (Fin 3) /\
  particles s !! 1%nat = Some (Fin 4) /\
  active s !! 0%nat = Some true /\
  vx <$> velocities s !! 0%nat = Some NaN /\
  vy <$> velocities s !! 0%nat = Some NaN.
Proof.
  vm_compute. repeat split; reflexivity.
Qed.

(** ** What [emitParticle] writes and returns *)

Section Emit.

Context {platform : Platform}.

Local Open Scope nat_scope.

Lemma selectSlot_first (s : ParticleSystem) (i : nat) :
  firstInactive s = Some i ->
  selectSlot s = (i, rng s) /\ i < maxParticles s /\
  active s !! i <> Some true /\
  forall j, j < i -> active s !! j = Some true.
Proof.
  intros E. unfold selectSlot. rewrite E. unfold firstInactive in E.
  pose proof (scanInactive_bound _ _ _ _ E) as Hb.
  destruct (scanInactive_found _ _ _ _ E) as [Hi Hbefore].
  repeat split; [lia | exact Hi |]. intros j Hj. apply Hbefore. lia.
Qed.

Lemma selectSlot_saturated (s : ParticleSystem) :
  firstInactive s = None ->
  selectSlot s = (randomIndex (rng s) (maxParticles s), S (rng s)) /\
  forall j, j < maxParticles s -> active s !! j = Some true.
Proof.
  intros E. unfold selectSlot. rewrite E. split; [reflexivity|].
  intros j Hj. apply (scanInactive_none _ _ _ E). lia.
Qed.

(** The speed drawn by [emitParticle] lies in [[0, maxSpeed)]. *)
Lemma speed_range (k : nat) (m : Q) :
  (0 < m)%Q ->
  exists q : Q, (Fin (Math_random k) * Fin m)%js = Fin q /\ (0 <= q < m)%Q.
Proof.
  intros Hm. destruct (Math_random_range k) as [Hlo Hhi].
  exists (Qred (Math_random k * m)). split; [reflexivity|].
  rewrite Qred_correct. split.
  - apply Qmult_le_0_compat; [exact Hlo | apply Qlt_le_weak, Hm].
  - rewrite <- (Qmult_1_l m) at 2. apply Qmult_lt_compat_r; assumption.
Qed.

(** The slot [emitParticle] picks is marked active and receives the given
    position, the drawn velocity, the configured lifetime and a palette
    colour; [k] is the number of draws made once the slot is picked. *)
Lemma emitParticle_writes (x y z : num) (s : ParticleSystem) (n : nat) :
  0 < n -> pool n s ->
  let idx := fst (selectSlot s) in
  let k := snd (selectSlot s) in
  let s' := fst (emitParticle x y z s) in
  let angle := (Fin (Math_random k) * Math_PI * n2)%js in
  let speed := (Fin (Math_random (k + 1)) * maxSpeed (options s))%js in
  let color :=
    THREE_Color
      (colors (options s) !! randomIndex (k + 3) (length (colors (options s)))) in
  idx < n /\
  active s' !! idx = Some true /\
  particles s' !! (idx * 3) = Some x /\
  particles s' !! (idx * 3 + 1) = Some y /\
  particles s' !! (idx * 3 + 2) = Some z /\
  velocities s' !! idx
  = Some {| vx := (Math_cos angle * speed)%js;
            vy := (Math_sin angle * speed)%js;
            vz := ((Fin (Math_random (k + 2)) - n0_5) * n0_2)%js |} /\
  lifetimes s' !! idx = Some (lifetime (options s)) /\
  particleColors s' !! (idx * 3) = Some (cr color) /\
  particleColors s' !! (idx * 3 + 1) = Some (cg color) /\
  particleColors s' !! (idx * 3 + 2) = Some (cb color).
Proof.
  intros Hn Hpool. pose proof (selectSlot_pool n s Hn Hpool) as Hidx.
  destruct Hpool as (Hm & Ha & Hv & Hl & Hp & Hc).
  unfold emitParticle. destruct (selectSlot s) as [idx k]. simpl in *.
  rewrite !js_set_in by lia.
  split; [exact Hidx|].
  repeat split;
    repeat first
      [ apply list_lookup_insert_eq; lengths; lia
      | rewrite list_lookup_insert_ne by lia ].
Qed.

(** C4 fails on the code in its last clause: [emitParticle] has no [return]
    statement, so its result is [undefined] whatever slot it picked, and the
    caller [createExplosion], which recolours the particle only when the
    result is defined, never applies its colour argument. *)
Theorem emitParticle_returns_undefined (x y z : num) (s : ParticleSystem)
  (particleCount : nat) (radius : num) (color : option string) :
  snd (emitParticle x y z s) = None /\
  createExplosion x y z particleCount radius color s
  = createExplosion x y z particleCount radius None s.
Proof.
  split.
  - unfold emitParticle. destruct (selectSlot s). reflexivity.
  - unfold createExplosion. apply for_upto_ext. intros _ t.
    unfold explosionParticle.
    destruct (emitParticle _ _ _ _) as [s1 p] eqn:E.
    assert (Hp : p = None).
    { change p with (snd (s1, p)). rewrite <- E.
      unfold emitParticle. destruct (selectSlot _). reflexivity. }
    rewrite Hp. destruct (truthy color); reflexivity.
Qed.

End Emit.

(** On a fresh pool of one slot [emitParticle] picks slot 0 and returns
    [undefined]; an explosion asked for in green ([#00ff00]) leaves the
    palette colour [#4444ff] in the slot. *)
Example emitParticle_result_on_small_pool :
  let s0 := @init demo (construct (capacity 1)) in
  snd (@emitParticle demo n0 n0 n0 s0) = None /\
  @firstInactive s0 = Some 0%nat /\
  active (fst (@emitParticle demo n0 n0 n0 s0)) !! 0%nat = Some true /\
  particleColors (@createExplosion demo n0 n0 n0 1 (Fin 10) (Some "#00ff00"%string) s0)
  = [Fin (4 # 15); Fin (4 # 15); Fin 1] /\
  hexColor (Some "#00ff00"%string) = mkColor n0 n1 n0.
Proof.
  vm_compute. repeat split; reflexivity.
Qed.

(** ** Emission from the finger tips *)

Section Emission.

Context {platform : Platform}.

Local Open Scope Z_scope.

Lemma rem2_even (a : Z) : (Z.rem a 2 =? 0) = Z.even a.
Proof.
  rewrite Z.rem_mod by lia. change (Z.abs 2) with 2.
  rewrite Zmod_even.
  assert (H : Z.even (Z.abs a) = Z.even a)
    by (destruct a as [|p|p]; reflexivity).
  rewrite H. destruct (Z.even a) eqn:E.
  - rewrite Z.mul_0_r. reflexivity.
  - destruct a as [|p|p]; try discriminate; reflexivity.
Qed.

Lemma Qfloor_bucket (x : Q) (z : Z) :
  Qfloor x = z <-> (inject_Z z <= x < inject_Z (z + 1))%Q.
Proof.
  split.
  - intros <-. split; [apply Qfloor_le | apply Qlt_floor].
  - intros [Hlo Hhi].
    assert (H1 : z <= Qfloor x).
    { rewrite <- (Qfloor_Z z). apply Qfloor_resp_le, Hlo. }
    assert (H2 : Qfloor x < z + 1).
    { apply Z.lt_nge. intros Hge. apply (Qlt_irrefl x).
      eapply Qlt_le_trans; [exact Hhi|].
      eapply Qle_trans; [|apply Qfloor_le].
      rewrite <- Zle_Qle. exact Hge. }
    lia.
Qed.

(** [randomInt(1, rate)] is a whole number of [[1, rate]], and it is [v]
    exactly when the draw, scaled by [rate], falls in [[v - 1, v)]: the
    values are the [rate] buckets of equal width of the unit interval. *)
Lemma randomInt_range (k : nat) (rate : Z) :
  1 <= rate ->
  1 <= randomInt k 1 rate <= rate /\
  forall v, randomInt k 1 rate = v <->
            (inject_Z (v - 1) <= Math_random k * inject_Z rate < inject_Z v)%Q.
Proof.
  intros Hrate. unfold randomInt.
  replace (rate - 1 + 1) with rate by lia.
  destruct (Math_random_range k) as [Hlo Hhi].
  set (x := (Math_random k * inject_Z rate)%Q).
  assert (Hpos : (0 < inject_Z rate)%Q).
  { change 0%Q with (inject_Z 0). rewrite <- Zlt_Qlt. lia. }
  assert (Hx0 : (inject_Z 0 <= x)%Q).
  { apply Qmult_le_0_compat; [exact Hlo | apply Qlt_le_weak, Hpos]. }
  assert (Hx1 : (x < inject_Z rate)%Q).
  { unfold x. rewrite <- (Qmult_1_l (inject_Z rate)) at 2.
    apply Qmult_lt_compat_r; assumption. }
  split.
  - assert (H0 : 0 <= Qfloor x).
    { rewrite <- (Qfloor_Z 0). apply Qfloor_resp_le, Hx0. }
    assert (H1 : Qfloor x < rate).
    { apply Z.lt_nge. intros Hge. apply (Qlt_irrefl x).
      eapply Qlt_le_trans; [exact Hx1|].
      eapply Qle_trans; [|apply Qfloor_le].
      rewrite <- Zle_Qle. exact Hge. }
    lia.
  - intros v. pose proof (Qfloor_bucket x (v - 1)) as Hb.
    replace (v - 1 + 1) with v in Hb by lia.
    split; intros H; [apply Hb; lia | apply Hb in H; lia].
Qed.



End Emission.


(** The draw made on frame 2 is 3/4, so four particles are emitted at the
    extended tip; nothing is emitted on frame 3, nor from a tip whose flag is
    false. *)
Example emission_runs :
  activeSlots (@update demo n0 2 (sevenSlots true)) = 4%nat /\
  take 3 (particles (@update demo n0 2 (sevenSlots true)))
  = [Fin 3; Fin 4; Fin 0] /\
  activeSlots (@update demo n0 3 (sevenSlots true)) = 0%nat /\
  rng (@update demo n0 3 (sevenSlots true)) = rng (sevenSlots true) /\
  activeSlots (@update demo n0 2 (sevenSlots false)) = 0%nat /\
  rng (@update demo n0 2 (sevenSlots false)) = rng (sevenSlots false).
Proof.
  vm_compute. repeat split; reflexivity.
Qed.

(** ** Applying a configuration *)



(** ** What a deactivation leaves alone *)

Section Deactivation.

Context {platform : Platform}.

Local Open Scope nat_scope.

Lemma reset_keeps (s : ParticleSystem) :
  velocities (reset s) = velocities s /\
  lifetimes (reset s) = lifetimes s /\
  particleColors (reset s) = particleColors s /\
  forall i, particles (reset s) !! (i * 3) = particles s !! (i * 3) /\
            particles (reset s) !! (i * 3 + 1) = particles s !! (i * 3 + 1).
Proof.
  unfold reset.
  apply (for_upto_ind
           (fun t => velocities t = velocities s /\
                     lifetimes t = lifetimes s /\
                     particleColors t = particleColors s /\
                     forall i,
                       particles t !! (i * 3) = particles s !! (i * 3) /\
                       particles t !! (i * 3 + 1) = particles s !! (i * 3 + 1))).
  - repeat split.
  - intros j t _ (Hv & Hl & Hc & Hp). unfold resetSlot; simpl.
    split; [exact Hv|]. split; [exact Hl|]. split; [exact Hc|].
    intros i. rewrite !list_lookup_insert_ne by lia. apply Hp.
Qed.

(** C10: a deactivation changes the active flag and the depth entry of the
    slot, and leaves its [x] and [y] entries, its velocity and its three
    colour entries as they were.  This holds for the slot whose lifetime,
    once decremented, is at most 0 in the loop of [update], and for every
    slot in [reset], which also leaves every lifetime as it was. *)
Theorem deactivation_frame (s : ParticleSystem) (i : nat) (L : Z) :
  shape s -> i < maxParticles s ->
  (active s !! i = Some true -> lifetimes s !! i = Some L -> (L - 1 <= 0)%Z ->
   let s' := fst (updateParticles s) in
   active s' !! i = Some false /\
   particles s' !! (i * 3 + 2) = Some OFFSCREEN /\
   particles s' !! (i * 3) = particles s !! (i * 3) /\
   particles s' !! (i * 3 + 1) = particles s !! (i * 3 + 1) /\
   velocities s' !! i = velocities s !! i /\
   particleColors s' !! (i * 3) = particleColors s !! (i * 3) /\
   particleColors s' !! (i * 3 + 1) = particleColors s !! (i * 3 + 1) /\
   particleColors s' !! (i * 3 + 2) = particleColors s !! (i * 3 + 2)) /\
  (active (reset s) !! i = Some false /\
   particles (reset s) !! (i * 3 + 2) = Some OFFSCREEN /\
   particles (reset s) !! (i * 3) = particles s !! (i * 3) /\
   particles (reset s) !! (i * 3 + 1) = particles s !! (i * 3 + 1) /\
   velocities (reset s) = velocities s /\
   particleColors (reset s) = particleColors s /\
   lifetimes (reset s) = lifetimes s).
Proof.
  intros Hs Hi. split.
  - intros Ha Hl HL s'.
    assert (Hb : i * 3 + 2 < length (particles s)).
    { destruct Hs as (Hp & _). lia. }
    destruct (updateParticles_expire i s L Hi Ha Hl HL Hb)
      as (E1 & _ & E3 & E4 & E5 & E6 & E7 & E8 & E9).
    subst s'. repeat split; assumption.
  - destruct (reset_parks s Hs i Hi) as [Hz Ha].
    destruct (reset_keeps s) as (Hv & Hl & Hc & Hp).
    destruct (Hp i) as [Hx Hy].
    repeat split; assumption.
Qed.

End Deactivation.

(** A particle at (1, 2, 0) with a lifetime of 1 expires in the next loop:
    only its flag and its depth change; a reset leaves the lifetimes 1 and 0
    of the two slots. *)
Example deactivation_frame_witness :
  shape ephemeralParticle /\
  active ephemeralParticle !! 0%nat = Some true /\
  lifetimes ephemeralParticle !! 0%nat = Some 1 /\
  active (fst (@updateParticles demo ephemeralParticle)) !! 0%nat = Some false /\
  take 3 (particles (fst (@updateParticles demo ephemeralParticle)))
  = [Fin 1; Fin 2; OFFSCREEN] /\
  velocities (fst (@updateParticles demo ephemeralParticle)) !! 0%nat
  = velocities ephemeralParticle !! 0%nat /\
  velocities (reset ephemeralParticle) = velocities ephemeralParticle /\
  lifetimes (reset ephemeralParticle) = [1; 0].
Proof.
  assert (Hs : shape ephemeralParticle)
    by (apply (@emitParticle_shape demo), (@init_shape demo)).
  assert (Ha : active ephemeralParticle !! 0%nat = Some true) by reflexivity.
  assert (Hl : lifetimes ephemeralParticle !! 0%nat = Some 1) by reflexivity.
  destruct (@deactivation_frame demo ephemeralParticle 0%nat 1 Hs)
    as [Hexp Hreset]; [vm_compute; lia|].
  destruct (Hexp Ha Hl) as (E1 & _ & _ & _ & E5 & _); [lia|].
  destruct Hreset as (_ & _ & _ & _ & R5 & _ & R7).
  refine (conj Hs (conj Ha (conj Hl (conj E1 (conj _ (conj E5 (conj R5 _))))))).
  - vm_compute. reflexivity.
  - rewrite R7. reflexivity.
Defined.

(** * Further properties of the particle system *)

(** ** Counting the active slots *)

Section Counting.

Local Open Scope nat_scope.

Lemma countTrue_cons (b : bool) (l : list bool) :
  countTrue (b :: l) = (if b then 1 else 0) + countTrue l.
Proof.
  unfold countTrue. destruct b.
  - rewrite filter_cons_True by reflexivity. reflexivity.
  - rewrite filter_cons_False by discriminate. reflexivity.
Qed.


Lemma countTrue_le (l : list bool) : countTrue l <= length l.
Proof. apply length_filter. Qed.

Lemma countTrue_insert (l : list bool) (i : nat) (b b' : bool) :
  l !! i = Some b ->
  countTrue (<[i := b']> l) + (if b then 1 else 0)
  = countTrue l + (if b' then 1 else 0).
Proof.
  revert i. induction l as [|x l IH]; intros i H; [discriminate|].
  destruct i as [|i]; simpl in *.
  - injection H as ->. rewrite !countTrue_cons. lia.
  - rewrite !countTrue_cons. specialize (IH i H). lia.
Qed.

Lemma countTrue_all (l : list bool) :
  (forall j, j < length l -> l !! j = Some true) -> countTrue l = length l.
Proof.
  induction l as [|x l IH]; intros H; [reflexivity|].
  rewrite countTrue_cons. simpl.
  assert (Hx : x = true).
  { specialize (H 0 ltac:(simpl; lia)). simpl in H. congruence. }
  rewrite Hx, IH; [reflexivity|].
  intros j Hj. apply (H (S j)). simpl. lia.
Qed.


(** Fewer flags are set in a list whose set flags are set in the other. *)
Lemma countTrue_mono (l1 l2 : list bool) :
  length l1 = length l2 ->
  (forall j, l1 !! j = Some true -> l2 !! j = Some true) ->
  countTrue l1 <= countTrue l2.
Proof.
  revert l2. induction l1 as [|x l1 IH]; intros [|y l2] Hlen H;
    try discriminate; [reflexivity|].
  rewrite !countTrue_cons.
  assert (Hxy : (if x then 1 else 0) <= (if y then 1 else 0)).
  { destruct x; [|lia]. specialize (H 0 eq_refl). simpl in H.
    injection H as ->. lia. }
  assert (Hrest : countTrue l1 <= countTrue l2).
  { apply IH; [simpl in Hlen; lia|]. intros j. apply (H (S j)). }
  lia.
Qed.


End Counting.

(** ** Emission and reset on the pool *)

Section PoolLaws.

Context {platform : Platform}.

Local Open Scope nat_scope.

Lemma activeSlots_countTrue (s : ParticleSystem) :
  activeSlots s = countTrue (active s).
Proof. reflexivity. Qed.

Lemma emitParticle_active (x y z : num) (s : ParticleSystem) :
  active (fst (emitParticle x y z s))
  = js_set false (fst (selectSlot s)) true (active s).
Proof. unfold emitParticle. destruct (selectSlot s). reflexivity. Qed.

Lemma emitParticle_result (x y z : num) (s : ParticleSystem) :
  snd (emitParticle x y z s) = None.
Proof. unfold emitParticle. destruct (selectSlot s). reflexivity. Qed.

Lemma emitParticle_pool (x y z : num) (s : ParticleSystem) (n : nat) :
  0 < n -> pool n s -> pool n (fst (emitParticle x y z s)).
Proof.
  intros Hn Hp. pose proof (emitParticle_shape x y z s (pool_shape n s Hp)) as Hs.
  pose proof (emitParticle_maxParticles x y z s) as Hm.
  destruct Hp as (Hmax & _).
  rewrite <- Hmax, <- Hm. apply shape_pool; [exact Hs | lia].
Qed.

Lemma emitParticle_count (x y z : num) (s : ParticleSystem) (n : nat) :
  0 < n -> pool n s ->
  activeSlots (fst (emitParticle x y z s)) = Nat.min n (S (activeSlots s)) /\
  (activeSlots s < n ->
   active s !! fst (selectSlot s) = Some false /\
   forall j, j < fst (selectSlot s) -> active s !! j = Some true).
Proof.
  intros Hn Hp. pose proof Hp as (Hmax & Ha & _).
  rewrite !activeSlots_countTrue, emitParticle_active.
  destruct (firstInactive s) as [i|] eqn:E.
  - destruct (selectSlot_first s i E) as (Hsel & Hi & Hfree & Hbefore).
    rewrite Hsel. simpl.
    assert (Hfalse : active s !! i = Some false).
    { destruct (active s !! i) as [[|]|] eqn:Ei; [congruence | reflexivity|].
      apply lookup_ge_None in Ei. lia. }
    rewrite js_set_in by lia.
    pose proof (countTrue_insert _ i false true Hfalse) as Hc. simpl in Hc.
    pose proof (countTrue_le (<[i := true]> (active s))) as Hle.
    rewrite length_insert in Hle.
    split; [lia|]. intros _; split; assumption.
  - destruct (selectSlot_saturated s E) as (Hsel & Hall).
    rewrite Hsel. simpl. rewrite Hmax in *.
    assert (Hidx : randomIndex (rng s) n < n) by (apply randomIndex_lt, Hn).
    rewrite js_set_in by lia.
    rewrite (list_insert_id _ _ _ (Hall _ Hidx)).
    assert (Hc : countTrue (active s) = n).
    { rewrite <- Ha. apply countTrue_all. intros j Hj. apply Hall. lia. }
    split; lia.
Qed.

(** X1: in a pool of capacity [n >= 1] an emission fills exactly one free
    slot, the free slot of lowest index, as long as there is one; in a full
    pool it overwrites the slot drawn at random and the number of active
    slots stays [n]. *)
Theorem emitParticle_fills_one_slot (x y z : num) (s : ParticleSystem) (n : nat) :
  0 < n -> pool n s ->
  activeSlots (fst (emitParticle x y z s)) = Nat.min n (S (activeSlots s)) /\
  (activeSlots s < n ->
   active s !! fst (selectSlot s) = Some false /\
   forall j, j < fst (selectSlot s) -> active s !! j = Some true) /\
  (activeSlots s = n ->
   fst (selectSlot s) = randomIndex (rng s) n /\
   active (fst (emitParticle x y z s)) = active s).
Proof.
  intros Hn Hp. destruct (emitParticle_count x y z s n Hn Hp) as [Hc Hfree].
  split; [exact Hc|]. split; [exact Hfree|]. intros Hfull.
  pose proof Hp as (Hmax & Ha & _). rewrite activeSlots_countTrue in Hfull.
  destruct (firstInactive s) as [i|] eqn:E.
  - exfalso. destruct (selectSlot_first s i E) as (_ & Hi & Hnot & _).
    assert (Hfalse : active s !! i = Some false).
    { destruct (active s !! i) as [[|]|] eqn:Ei; [congruence | reflexivity|].
      apply lookup_ge_None in Ei. lia. }
    pose proof (countTrue_insert _ i false true Hfalse) as Hins. simpl in Hins.
    pose proof (countTrue_le (<[i := true]> (active s))) as Hle.
    rewrite length_insert in Hle. lia.
  - destruct (selectSlot_saturated s E) as (Hsel & Hall).
    rewrite emitParticle_active, Hsel. simpl. rewrite Hmax in *.
    assert (Hidx : randomIndex (rng s) n < n) by (apply randomIndex_lt, Hn).
    rewrite js_set_in by lia.
    rewrite (list_insert_id _ _ _ (Hall _ Hidx)). split; reflexivity.
Qed.

(** X2: an emission writes the slot it picks and no other: every other slot
    keeps its flag, lifetime, velocity, position and colour, and the options,
    the capacity and the snapshot stay as they are. *)
Theorem emitParticle_other_slots (x y z : num) (s : ParticleSystem) (n j : nat) :
  0 < n -> pool n s -> j <> fst (selectSlot s) ->
  same_slot j s (fst (emitParticle x y z s)) /\
  same_env s (fst (emitParticle x y z s)).
Proof.
  intros Hn Hp Hj. split; [|apply emitParticle_env].
  pose proof (selectSlot_pool n s Hn Hp) as Hidx.
  destruct Hp as (Hmax & Ha & Hv & Hl & _).
  unfold emitParticle. destruct (selectSlot s) as [idx k]. simpl in *.
  unfold same_slot; simpl. rewrite !js_set_in by lia.
  repeat split; rewrite ?list_lookup_insert_ne by lia; reflexivity.
Qed.

Lemma reset_rest (s : ParticleSystem) :
  options (reset s) = options s /\ colorObjs (reset s) = colorObjs s /\
  particleCount (reset s) = particleCount s /\
  fingerPositions (reset s) = fingerPositions s /\ rng (reset s) = rng s.
Proof.
  unfold reset.
  apply (for_upto_ind
           (fun t => options t = options s /\ colorObjs t = colorObjs s /\
                     particleCount t = particleCount s /\
                     fingerPositions t = fingerPositions s /\ rng t = rng s));
    [repeat split|].
  intros i t _ H. exact H.
Qed.

Lemma reset_pool (s : ParticleSystem) (n : nat) : pool n s -> pool n (reset s).
Proof.
  intros Hp. destruct n as [|n].
  - destruct Hp as (Hmax & H). unfold reset. rewrite Hmax.
    unfold pool. tauto.
  - pose proof (reset_shape s (pool_shape _ s Hp)) as Hs.
    destruct Hp as (Hmax & _).
    rewrite <- Hmax, <- (reset_maxParticles s).
    apply shape_pool; [exact Hs|]. rewrite reset_maxParticles. lia.
Qed.


End PoolLaws.

Example emitParticle_fills_one_slot_witness :
  (0 < 2)%nat /\ pool 2 oneParticle /\
  activeSlots oneParticle = 1%nat /\
  activeSlots (fst (@emitParticle demo n1 n1 n0 oneParticle)) = 2%nat.
Proof.
  assert (Hp : pool 2 oneParticle)
    by (unfold pool; vm_compute; repeat split; reflexivity).
  refine (conj _ (conj Hp (conj eq_refl _))); [lia|].
  destruct (@emitParticle_fills_one_slot demo n1 n1 n0 oneParticle 2%nat)
    as (Hc & _); [lia | exact Hp |].
  rewrite Hc. reflexivity.
Defined.

Example emitParticle_other_slots_witness :
  pool 2 oneParticle /\ (0%nat <> fst (@selectSlot demo oneParticle)) /\
  same_slot 0 oneParticle (fst (@emitParticle demo n1 n1 n0 oneParticle)).
Proof.
  assert (Hp : pool 2 oneParticle)
    by (unfold pool; vm_compute; repeat split; reflexivity).
  assert (Hj : 0%nat <> fst (@selectSlot demo oneParticle))
    by (vm_compute; discriminate).
  refine (conj Hp (conj Hj _)).
  apply (@emitParticle_other_slots demo n1 n1 n0 oneParticle 2%nat 0%nat);
    [lia | exact Hp | exact Hj].
Defined.


(** ** Loops that only retire particles *)

Section Retire.

Context {platform : Platform}.

Local Open Scope nat_scope.

(** A pool in which every slot is inactive and parked is a fixed point of
    [reset]. *)
Lemma reset_parked (s : ParticleSystem) (n : nat) :
  pool n s ->
  (forall i, i < n ->
     active s !! i = Some false /\
     particles s !! (i * 3 + 2) = Some OFFSCREEN) ->
  reset s = s.
Proof.
  intros (Hmax & Ha & _) Hall. unfold reset. rewrite Hmax.
  apply (for_upto_ind (fun t => t = s)); [reflexivity|].
  intros i t Hi ->. destruct (Hall i Hi) as [Hf Hz].
  unfold resetSlot. rewrite js_set_in by lia.
  rewrite (list_insert_id _ _ _ Hf), (list_insert_id _ _ _ Hz).
  destruct s; reflexivity.
Qed.

(** X4: [reset] is idempotent, and a reset right after [init] changes
    nothing. *)
Theorem reset_idempotent (s : ParticleSystem) (n : nat) (opts : Properties) :
  pool n s ->
  reset (reset s) = reset s /\
  reset (init (construct opts)) = init (construct opts).
Proof.
  intros Hp. split.
  - apply (reset_parked _ n); [apply reset_pool, Hp|].
    intros i Hi. pose proof (pool_shape _ s Hp) as Hs.
    destruct Hp as (Hmax & _). rewrite <- Hmax in Hi.
    destruct (reset_parks s Hs i Hi) as [Hz Hf]. split; assumption.
  - destruct (init_state opts) as (Hpi & Hz & Hf).
    apply (reset_parked _ _ Hpi). intros i Hi. split; [|apply Hz, Hi].
    destruct Hpi as (_ & Ha & _).
    destruct (active (init (construct opts)) !! i) as [b|] eqn:E.
    + rewrite (Hf i b E). reflexivity.
    + apply lookup_ge_None in E. lia.
Qed.

Lemma updateSlot_active_length (i : nat) (st : ParticleSystem * nat) :
  length (active (fst (updateSlot i st))) = length (active (fst st)).
Proof.
  destruct st as [s c]. simpl. unfold updateSlot.
  destruct (active s !! i) as [[|]|] eqn:E; try reflexivity.
  apply lookup_lt_Some in E. destruct (decide _); simpl.
  - rewrite js_set_in by exact E. apply length_insert.
  - match goal with
    | |- length (active (handleFingerInteraction i ?u)) = _ =>
        destruct (handleFingerInteraction_places i u) as [_ ->]
    end.
    reflexivity.
Qed.

Lemma updateParticles_active_length (s : ParticleSystem) :
  length (active (fst (updateParticles s))) = length (active s).
Proof.
  unfold updateParticles.
  apply (for_upto_ind
           (fun st => length (active (fst st)) = length (active s)));
    [reflexivity|].
  intros i st _ H. rewrite updateSlot_active_length. exact H.
Qed.

Lemma updateParticles_no_activation (s : ParticleSystem) (j : nat) :
  active (fst (updateParticles s)) !! j = Some true ->
  active s !! j = Some true.
Proof.
  intros H. destruct (decide (active s !! j = Some true)) as [Ht|Hn];
    [exact Ht|].
  destruct (updateParticles_inactive j s Hn) as (E & _). congruence.
Qed.

(** [update] with the two tests on the frame counter spelled out. *)
Lemma update_unfold (deltaTime : num) (frameCount : Z) (s : ParticleSystem) :
  update deltaTime frameCount s
  = (if (Z.rem frameCount 30 =? 0)%Z
     then set_particleCount (snd (updateParticles s))
     else fun t => t)
      (if Z.even frameCount
       then emitParticlesFromFingers (fst (updateParticles s))
       else fst (updateParticles s)).
Proof.
  unfold update. destruct (updateParticles s) as [s1 c]. simpl.
  rewrite rem2_even. destruct (Z.rem frameCount 30 =? 0)%Z; reflexivity.
Qed.

(** X5: the loop of [update] never activates a slot: a slot active after it
    was active before it, so the number of active slots does not grow; the
    same holds for a whole frame without emission, that is on an odd frame
    counter or without hands. *)
Theorem update_only_retires (deltaTime : num) (frameCount : Z)
  (s : ParticleSystem) :
  shape s ->
  (forall j, active (fst (updateParticles s)) !! j = Some true ->
             active s !! j = Some true) /\
  activeSlots (fst (updateParticles s)) <= activeSlots s /\
  (Z.even frameCount = false \/ noHands s ->
   activeSlots (update deltaTime frameCount s) <= activeSlots s).
Proof.
  intros Hs.
  assert (Hle : activeSlots (fst (updateParticles s)) <= activeSlots s).
  { apply countTrue_mono; [apply updateParticles_active_length|].
    apply updateParticles_no_activation. }
  split; [apply updateParticles_no_activation|]. split; [exact Hle|].
  intros Hcase.
  assert (Ha : active (update deltaTime frameCount s)
               = active (fst (updateParticles s))).
  { rewrite update_unfold.
    assert (Hemit : (if Z.even frameCount
                     then emitParticlesFromFingers (fst (updateParticles s))
                     else fst (updateParticles s))
                    = fst (updateParticles s)).
    { destruct Hcase as [-> | Hno]; [reflexivity|].
      rewrite emitParticlesFromFingers_noHands;
        [destruct (Z.even frameCount); reflexivity|].
      eapply noHands_env; [apply updateParticles_env | exact Hno]. }
    rewrite Hemit. destruct (Z.rem frameCount 30 =? 0)%Z; reflexivity. }
  unfold activeSlots in *. rewrite Ha. exact Hle.
Qed.





End Retire.

Example reset_idempotent_witness :
  pool 2 oneParticle /\
  reset (reset oneParticle) = reset oneParticle /\
  reset oneParticle <> oneParticle.
Proof.
  assert (Hp : pool 2 oneParticle)
    by (unfold pool; vm_compute; repeat split; reflexivity).
  destruct (@reset_idempotent demo oneParticle 2%nat no_properties Hp)
    as [Hidem _].
  refine (conj Hp (conj Hidem _)).
  intros H. apply (f_equal active) in H. vm_compute in H. discriminate H.
Defined.

(** The particle with a lifetime of 1 is retired by the loop of the next
    frame. *)
Example update_only_retires_witness :
  shape ephemeralParticle /\
  activeSlots ephemeralParticle = 1%nat /\
  activeSlots (fst (@updateParticles demo ephemeralParticle)) = 0%nat /\
  (activeSlots (@update demo n0 1 ephemeralParticle)
   <= activeSlots ephemeralParticle)%nat.
Proof.
  assert (Hs : shape ephemeralParticle)
    by (apply (@emitParticle_shape demo), (@init_shape demo)).
  destruct (@update_only_retires demo n0 1 ephemeralParticle Hs)
    as (_ & _ & Hframe).
  refine (conj Hs (conj eq_refl (conj _ (Hframe _)))).
  - vm_compute. reflexivity.
  - left. reflexivity.
Defined.


(** ** What the interaction gives and what it leaves alone *)

Section InteractionLaws.

Context {platform : Platform}.

Local Open Scope nat_scope.

Lemma interactTip_lifetime (index : nat) (o : Options) (px py : num)
  (h : Hand) (tip : Vec3) (t : ParticleSystem) (L : Z) :
  options t = o -> lifetimes t !! index = Some L ->
  options (interactTip index px py h tip t) = o /\
  lifetimes (interactTip index px py h tip t) !! index
  = Some (L + (if inReach o px py (h, tip) then 5 else 0))%Z.
Proof.
  intros Ho Hl. unfold inReach, planarDistance, interactTip. simpl.
  rewrite Ho. destruct (JS.lt _ _); simpl.
  - rewrite list_lookup_alter_eq, Hl. auto.
  - rewrite Hl. split; [exact Ho|]. f_equal. lia.
Qed.

Lemma interactions_lifetime (index : nat) (o : Options) (px py : num)
  (l : list (Hand * Vec3)) :
  forall (t : ParticleSystem) (L : Z),
    options t = o -> lifetimes t !! index = Some L ->
    lifetimes
      (foldl (fun acc ht => interactTip index px py (fst ht) (snd ht) acc) t l)
      !! index
    = Some (L + 5 * Z.of_nat
                      (length (filter (fun ht => inReach o px py ht = true) l)))%Z.
Proof.
  induction l as [|[h tip] l IH]; intros t L Ho Hl; simpl foldl.
  - rewrite Hl. f_equal. simpl. lia.
  - destruct (interactTip_lifetime index o px py h tip t L Ho Hl) as [Ho' Hl'].
    rewrite (IH _ _ Ho' Hl'). f_equal. simpl fst. simpl snd.
    destruct (inReach o px py (h, tip)) eqn:E.
    + rewrite filter_cons_True by exact E. simpl length. lia.
    + rewrite filter_cons_False by congruence. lia.
Qed.

(** X7: the interaction adds to the lifetime of a particle 5 frames for each
    tip of the snapshot within the interaction radius, on top of what the
    particle had; in the loop of [update] a surviving particle therefore ends
    the frame with [L - 1 + 5 c], where [c] counts the tips in reach of the
    position it moved to. *)
Theorem interaction_feeds_lifetime (index : nat) (s : ParticleSystem) (L : Z) :
  lifetimes s !! index = Some L ->
  lifetimes (handleFingerInteraction index s) !! index
  = Some (L + 5 * Z.of_nat
                    (tipsInReach s (readF32 (particles s) (index * 3))
                       (readF32 (particles s) (index * 3 + 1))))%Z /\
  (forall v px py pz,
     index < maxParticles s ->
     active s !! index = Some true -> (0 < L - 1)%Z ->
     velocities s !! index = Some v ->
     particles s !! (index * 3) = Some px ->
     particles s !! (index * 3 + 1) = Some py ->
     particles s !! (index * 3 + 2) = Some pz ->
     lifetimes (fst (updateParticles s)) !! index
     = Some (L - 1 + 5 * Z.of_nat
                           (tipsInReach s
                              (px + vx v * friction (options s))%js
                              (py + (vy v + gravity (options s))
                                    * friction (options s))%js))%Z).
Proof.
  intros Hl.
  assert (Hgain : forall (t : ParticleSystem) (L' : Z),
             lifetimes t !! index = Some L' ->
             lifetimes (handleFingerInteraction index t) !! index
             = Some (L' + 5 * Z.of_nat
                        (tipsInReach t (readF32 (particles t) (index * 3))
                           (readF32 (particles t) (index * 3 + 1))))%Z).
  { intros t L' Ht. unfold tipsInReach.
    destruct (fingerPositions t) as [hands|] eqn:E.
    - rewrite (handleFingerInteraction_fold index t hands E).
      apply interactions_lifetime; [reflexivity | exact Ht].
    - unfold handleFingerInteraction. rewrite E, Ht. f_equal. simpl. lia. }
  split; [apply Hgain, Hl|].
  intros v px py pz Hi Ha HL Hv Hx Hy Hz.
  destruct (updateParticles_turn index s Hi)
    as (t & c & Hst & Henv & (_ & A2 & _)).
  destruct Hst as (B1 & B2 & B3 & B4 & B5 & B6 & _).
  destruct Henv as (Ho & _ & Hf).
  rewrite A2. unfold updateSlot. rewrite B1, Ha.
  rewrite list_lookup_alter_eq, B2, Hl. simpl.
  destruct (decide _) as [Hn|_]; [lia|]. simpl.
  rewrite list_lookup_alter_eq, B3, Hv. simpl.
  match goal with
  | |- lifetimes (handleFingerInteraction index ?u) !! index = _ =>
      rewrite (Hgain u (L - 1)%Z)
  end.
  - simpl. unfold readF32.
    rewrite !list_lookup_alter_ne by lia.
    rewrite list_lookup_alter_eq, B4, Hx. simpl.
    rewrite list_lookup_alter_ne by lia.
    rewrite list_lookup_alter_eq.
    rewrite list_lookup_alter_ne by lia. rewrite B5, Hy. simpl.
    unfold tipsInReach. simpl. rewrite Hf, Ho. reflexivity.
  - simpl. rewrite list_lookup_alter_eq, B2, Hl. reflexivity.
Qed.

(** X8: the interaction pass writes the [x] and [y] velocity, the red
    channel and the lifetime of its slot and nothing else: positions, active
    flags, options, capacity, snapshot and draws are as before, every other
    slot is untouched, and in its own slot the depth velocity and the green
    and blue channels keep their value. *)
Theorem interaction_frame (index : nat) (s : ParticleSystem) :
  particles (handleFingerInteraction index s) = particles s /\
  active (handleFingerInteraction index s) = active s /\
  rng (handleFingerInteraction index s) = rng s /\
  same_env s (handleFingerInteraction index s) /\
  (forall j, j <> index -> same_slot j s (handleFingerInteraction index s)) /\
  vz <$> velocities (handleFingerInteraction index s) !! index
  = vz <$> velocities s !! index /\
  particleColors (handleFingerInteraction index s) !! (index * 3 + 1)
  = particleColors s !! (index * 3 + 1) /\
  particleColors (handleFingerInteraction index s) !! (index * 3 + 2)
  = particleColors s !! (index * 3 + 2).
Proof.
  destruct (handleFingerInteraction_places index s) as [Hp Ha].
  split; [exact Hp|]. split; [exact Ha|].
  split.
  { apply (handleFingerInteraction_ind (fun t => rng t = rng s));
      [reflexivity|].
    intros px py hand tip t Ht. unfold interactTip.
    destruct (JS.lt _ _); exact Ht. }
  split; [apply handleFingerInteraction_env|].
  split.
  { intros j Hj. apply handleFingerInteraction_other. congruence. }
  apply (handleFingerInteraction_ind
           (fun t =>
              vz <$> velocities t !! index = vz <$> velocities s !! index /\
              particleColors t !! (index * 3 + 1)
              = particleColors s !! (index * 3 + 1) /\
              particleColors t !! (index * 3 + 2)
              = particleColors s !! (index * 3 + 2))); [auto|].
  intros px py hand tip t (H1 & H2 & H3). unfold interactTip.
  destruct (JS.lt _ _); [|auto]. simpl.
  rewrite list_lookup_alter_eq, !list_lookup_alter_ne by lia.
  split; [|auto]. rewrite <- H1.
  destruct (velocities t !! index); reflexivity.
Qed.

(** X9: [getRandomColor] returns a colour of the palette whenever the
    palette is not empty, and [undefined] when it is empty. *)
Theorem getRandomColor_in_palette (k : nat) (s : ParticleSystem) :
  (colors (options s) <> [] ->
   exists c, getRandomColor k s = Some c /\ c ∈ colors (options s)) /\
  (colors (options s) = [] -> getRandomColor k s = None).
Proof.
  unfold getRandomColor. split.
  - intros Hne.
    assert (Hlen : 0 < length (colors (options s)))
      by (destruct (colors (options s)); [congruence | simpl; lia]).
    pose proof (randomIndex_lt k _ Hlen) as Hi.
    apply lookup_lt_is_Some in Hi. destruct Hi as [c Hc].
    exists c. split; [exact Hc|]. apply list_elem_of_lookup. eauto.
  - intros ->. simpl. rewrite randomIndex_0. reflexivity.
Qed.

End InteractionLaws.

(** X10: what a capture restores.  Applying the settings that
    [getProperties] returned for a system [s0] gives the system [s] the
    size, lifetime, gravity and friction of [s0] and nothing else: the
    capacity, the reported particle count, the other options and the arrays
    stay those of [s]; applying to a system its own properties changes
    nothing. *)
Theorem capture_restores_four_settings (s0 s : ParticleSystem) :
  let s' := applyCaptureSettings (Some (getProperties s0)) s in
  v_size (getProperties s') = v_size (getProperties s0) /\
  v_lifetime (getProperties s') = v_lifetime (getProperties s0) /\
  v_gravity (getProperties s') = v_gravity (getProperties s0) /\
  v_friction (getProperties s') = v_friction (getProperties s0) /\
  v_maxParticles (getProperties s') = maxParticles s /\
  v_particleCount (getProperties s') = particleCount s /\
  maxSpeed (options s') = maxSpeed (options s) /\
  emissionRate (options s') = emissionRate (options s) /\
  interactionRadius (options s') = interactionRadius (options s) /\
  colors (options s') = colors (options s) /\
  count (options s') = count (options s) /\
  particles s' = particles s /\ particleColors s' = particleColors s /\
  velocities s' = velocities s /\ lifetimes s' = lifetimes s /\
  active s' = active s /\
  applyCaptureSettings (Some (getProperties s)) s = s /\
  applyCaptureSettings None s = s.
Proof.
  simpl. repeat split; try reflexivity.
  destruct s as [o ? ? ? ? ? ? ? ? ? ?]. destruct o. reflexivity.
Qed.

Example interaction_feeds_lifetime_witness :
  lifetimes underTwoTips !! 0%nat = Some 1500 /\
  @tipsInReach demo underTwoTips n0 n0 = 2%nat /\
  lifetimes (@handleFingerInteraction demo 0 underTwoTips) !! 0%nat = Some 1510.
Proof.
  assert (Hl : lifetimes underTwoTips !! 0%nat = Some 1500) by reflexivity.
  destruct (@interaction_feeds_lifetime demo 0%nat underTwoTips 1500 Hl)
    as [Hgain _].
  refine (conj Hl (conj _ _)); [vm_compute; reflexivity|].
  rewrite Hgain. vm_compute. reflexivity.
Defined.

(** ** The effects are emissions *)

Section EffectLaws.

Context {platform : Platform}.

Local Open Scope nat_scope.

Lemma emitParticle_pair (x y z : num) (s : ParticleSystem) :
  emitParticle x y z s = (fst (emitParticle x y z s), None).
Proof.
  rewrite <- (emitParticle_result x y z s). apply surjective_pairing.
Qed.

(** Since [emitParticle] returns [undefined], the body of each effect is one
    emission, after the draws the effect makes for values it never uses. *)
Lemma burstParticle_emit (x y : num) (s : ParticleSystem) :
  burstParticle x y s = fst (emitParticle x y n0 (set_rng (S (S (rng s))) s)).
Proof. unfold burstParticle. rewrite emitParticle_pair. reflexivity. Qed.

Lemma fountainParticle_emit (x y : num) (s : ParticleSystem) :
  fountainParticle x y s
  = fst (emitParticle (x + random (S (S (rng s))) (Fin (-2)) n2)%js y n0
           (set_rng (S (S (S (rng s)))) s)).
Proof. unfold fountainParticle. rewrite emitParticle_pair. reflexivity. Qed.

Lemma vortexTick_emit (x y radius rotationSpeed angle : num)
  (s : ParticleSystem) :
  vortexTick x y radius rotationSpeed angle s
  = fst (emitParticle (x + Math_cos angle * random (rng s) n0 radius)%js
           (y + Math_sin angle * random (rng s) n0 radius)%js n0
           (set_rng (S (rng s)) s)).
Proof. unfold vortexTick. rewrite emitParticle_pair. reflexivity. Qed.

Lemma trailFromTip_emit (color : option string) (hand : Hand) (tip : Vec3)
  (fingerIndex : nat) (s : ParticleSystem) :
  trailFromTip color hand tip fingerIndex s
  = match fingerExtension hand !! fingerIndex with
    | Some true => fst (emitParticle (vx tip) (vy tip) n0 s)
    | _ => s
    end.
Proof.
  unfold trailFromTip.
  destruct (fingerExtension hand !! fingerIndex) as [[|]|]; try reflexivity.
  rewrite emitParticle_pair. reflexivity.
Qed.

Lemma explosionParticle_emit (x y z radius : num) (color : option string)
  (s : ParticleSystem) :
  explosionParticle x y z radius color s
  = fst (emitParticle
           (x + Math_cos (Fin (Math_random (rng s)) * Math_PI * n2)
                * (Fin (Math_random (S (rng s))) * radius))%js
           (y + Math_sin (Fin (Math_random (rng s)) * Math_PI * n2)
                * (Fin (Math_random (S (rng s))) * radius))%js
           z (set_rng (S (S (rng s))) s)).
Proof.
  unfold explosionParticle. rewrite emitParticle_pair.
  destruct (truthy color); reflexivity.
Qed.

Lemma emits_keeps (P : ParticleSystem -> Prop)
  (f : ParticleSystem -> ParticleSystem) (t : ParticleSystem) :
  emits f ->
  (forall k u, P u -> P (set_rng k u)) ->
  (forall x y z u, P u -> P (fst (emitParticle x y z u))) ->
  P t -> P (f t).
Proof.
  intros Hf Hrng Hemit Ht. destruct (Hf t) as (x & y & z & k & ->).
  apply Hemit, Hrng, Ht.
Qed.

Lemma emits_count (f : ParticleSystem -> ParticleSystem) (t : ParticleSystem)
  (n : nat) :
  emits f -> 0 < n -> pool n t ->
  pool n (f t) /\ activeSlots (f t) = Nat.min n (S (activeSlots t)).
Proof.
  intros Hf Hn Hp. destruct (Hf t) as (x & y & z & k & ->).
  assert (Hp' : pool n (set_rng k t)) by exact Hp.
  split; [apply emitParticle_pool; assumption|].
  destruct (emitParticle_count x y z (set_rng k t) n Hn Hp') as [-> _].
  reflexivity.
Qed.

Lemma for_upto_const_count (f : ParticleSystem -> ParticleSystem)
  (k n : nat) (t : ParticleSystem) :
  emits f -> 0 < n -> pool n t ->
  pool n (for_upto k (fun _ => f) t) /\
  activeSlots (for_upto k (fun _ => f) t) = Nat.min n (activeSlots t + k).
Proof.
  intros Hf Hn Hp. induction k as [|k [IHp IHc]].
  - split; [exact Hp|]. unfold for_upto. simpl.
    pose proof (activeSlots_le t). destruct Hp as (_ & Ha & _). lia.
  - rewrite for_upto_S.
    destruct (emits_count f _ n Hf Hn IHp) as [Hp' Hc'].
    split; [exact Hp'|]. rewrite Hc', IHc. lia.
Qed.

Lemma burstParticle_emits (x y : num) : emits (burstParticle x y).
Proof. intros t. eexists _, _, _, _. apply burstParticle_emit. Qed.

Lemma fountainParticle_emits (x y : num) : emits (fountainParticle x y).
Proof. intros t. eexists _, _, _, _. apply fountainParticle_emit. Qed.

Lemma vortexTick_emits (x y radius rotationSpeed angle : num) :
  emits (vortexTick x y radius rotationSpeed angle).
Proof. intros t. eexists _, _, _, _. apply vortexTick_emit. Qed.

Lemma explosionParticle_emits (x y z radius : num) (color : option string) :
  emits (explosionParticle x y z radius color).
Proof. intros t. eexists _, _, _, _. apply explosionParticle_emit. Qed.

(** X11: an explosion or a burst of [k] particles fills [k] free slots of a
    pool of capacity [n >= 1], or all of them when fewer than [k] are free:
    the number of active slots becomes [min n (a + k)], and the capacity
    and the lengths of the arrays are kept. *)
Theorem burst_fills_slots (x y z radius : num) (color : option string)
  (k n : nat) (s : ParticleSystem) :
  0 < n -> pool n s ->
  pool n (createBurst x y k s) /\
  activeSlots (createBurst x y k s) = Nat.min n (activeSlots s + k) /\
  pool n (createExplosion x y z k radius color s) /\
  activeSlots (createExplosion x y z k radius color s)
  = Nat.min n (activeSlots s + k).
Proof.
  intros Hn Hp.
  destruct (for_upto_const_count _ k n s (burstParticle_emits x y) Hn Hp)
    as [H1 H2].
  destruct (for_upto_const_count _ k n s
              (explosionParticle_emits x y z radius color) Hn Hp) as [H3 H4].
  unfold createBurst, createExplosion. auto.
Qed.

End EffectLaws.

Example burst_fills_slots_witness :
  pool 7 (sevenSlots true) /\
  activeSlots (@createBurst demo n0 n0 3 (sevenSlots true)) = 3%nat /\
  activeSlots (@createBurst demo n0 n0 200 (sevenSlots true)) = 7%nat.
Proof.
  assert (Hp : pool 7 (sevenSlots true))
    by (unfold pool; vm_compute; repeat split; reflexivity).
  destruct (@burst_fills_slots demo n0 n0 n0 n0 None 3%nat 7%nat _
              ltac:(lia) Hp) as (_ & H3 & _).
  destruct (@burst_fills_slots demo n0 n0 n0 n0 None 200%nat 7%nat _
              ltac:(lia) Hp) as (_ & H200 & _).
  refine (conj Hp (conj _ _)).
  - rewrite H3. reflexivity.
  - rewrite H200. reflexivity.
Defined.

(** ** Invariants and counts of the other effects *)

Section EffectInvariants.

Context {platform : Platform}.

Local Open Scope nat_scope.

Lemma trailFromTip_keeps (P : ParticleSystem -> Prop) (color : option string)
  (hand : Hand) (tip : Vec3) (fingerIndex : nat) (t : ParticleSystem) :
  (forall x y z u, P u -> P (fst (emitParticle x y z u))) ->
  P t -> P (trailFromTip color hand tip fingerIndex t).
Proof.
  intros Hemit Ht. rewrite trailFromTip_emit.
  destruct (fingerExtension hand !! fingerIndex) as [[|]|]; auto.
Qed.

Lemma createTrailEffect_keeps (P : ParticleSystem -> Prop)
  (hands : option (list Hand)) (color : option string) (s : ParticleSystem) :
  (forall x y z u, P u -> P (fst (emitParticle x y z u))) ->
  P s -> P (createTrailEffect hands color s).
Proof.
  intros Hemit Hs. unfold createTrailEffect.
  destruct hands as [[|hand hs]|]; try exact Hs.
  apply forEach_ind; [exact Hs|]. intros h _ t Ht.
  apply forEach_ind; [exact Ht|]. intros tip k u Hu.
  apply trailFromTip_keeps; assumption.
Qed.

Lemma fountain_keeps (P : ParticleSystem -> Prop) (fires : nat) (x y : num)
  (particlesPerFrame : nat) (duration : Z) :
  (forall k u, P u -> P (set_rng k u)) ->
  (forall x y z u, P u -> P (fst (emitParticle x y z u))) ->
  forall frameCount s,
    P s -> P (fountain fires x y particlesPerFrame duration frameCount s).
Proof.
  intros Hrng Hemit. induction fires as [|fires IH]; intros fc s Hs; simpl;
    [exact Hs|].
  assert (H1 : P (fountainTick x y particlesPerFrame s)).
  { unfold fountainTick. apply for_upto_ind; [exact Hs|].
    intros _ t _ Ht.
    apply emits_keeps; auto using fountainParticle_emits. }
  destruct (duration <=? fc + 1)%Z; [exact H1 | apply IH, H1].
Qed.

Lemma vortex_keeps (P : ParticleSystem -> Prop) (fires : nat) (x y : num)
  (particleCount : Z) (radius rotationSpeed : num) :
  (forall k u, P u -> P (set_rng k u)) ->
  (forall x y z u, P u -> P (fst (emitParticle x y z u))) ->
  forall angle currentParticles s,
    P s ->
    P (vortex fires x y particleCount radius rotationSpeed angle
         currentParticles s).
Proof.
  intros Hrng Hemit. induction fires as [|fires IH]; intros angle cur s Hs;
    simpl; [exact Hs|].
  assert (H1 : P (vortexTick x y radius rotationSpeed angle s))
    by (apply emits_keeps; auto using vortexTick_emits).
  destruct (particleCount <=? cur + 1)%Z; [exact H1 | apply IH, H1].
Qed.

(** X12: every effect of [ParticleEffects] keeps the pool well formed: after
    a burst, a trail, any number of timer periods of a fountain or of a
    vortex, the arrays have the shape they had, the capacity is the same,
    and every inactive slot is still parked at the off-screen depth. *)
Theorem effects_keep_pool (s : ParticleSystem) (x y radius rotationSpeed angle : num)
  (k fires particlesPerFrame : nat) (duration : Z)
  (hands : option (list Hand)) (color : option string) :
  shape s -> sentinel s ->
  let kept t := shape t /\ sentinel t /\ maxParticles t = maxParticles s in
  kept (createBurst x y k s) /\
  kept (createTrailEffect hands color s) /\
  kept (fountain fires x y particlesPerFrame duration 0 s) /\
  kept (vortex fires x y duration radius rotationSpeed angle 0 s).
Proof.
  intros Hs Hsen kept.
  assert (H0 : kept s) by (unfold kept; auto).
  assert (Hrng : forall j u, kept u -> kept (set_rng j u)) by auto.
  assert (Hemit : forall a b c u, kept u -> kept (fst (emitParticle a b c u))).
  { intros a b c u (H1 & H2 & H3). unfold kept.
    split; [apply emitParticle_shape, H1|].
    split; [apply emitParticle_sentinel; assumption|].
    rewrite emitParticle_maxParticles. exact H3. }
  split; [|split; [|split]].
  - unfold createBurst. apply for_upto_ind; [exact H0|].
    intros _ t _ Ht. apply emits_keeps; auto using burstParticle_emits.
  - apply createTrailEffect_keeps; assumption.
  - apply fountain_keeps; assumption.
  - apply vortex_keeps; assumption.
Qed.

Lemma fountainTick_count (x y : num) (particlesPerFrame n : nat)
  (t : ParticleSystem) :
  0 < n -> pool n t ->
  pool n (fountainTick x y particlesPerFrame t) /\
  activeSlots (fountainTick x y particlesPerFrame t)
  = Nat.min n (activeSlots t + particlesPerFrame).
Proof.
  intros Hn Hp. unfold fountainTick.
  apply for_upto_const_count; auto using fountainParticle_emits.
Qed.

Lemma fountain_count (fires : nat) (x y : num) (particlesPerFrame n : nat)
  (duration : Z) :
  0 < n ->
  forall frameCount s,
    pool n s ->
    pool n (fountain fires x y particlesPerFrame duration frameCount s) /\
    activeSlots (fountain fires x y particlesPerFrame duration frameCount s)
    = Nat.min n
        (activeSlots s
         + particlesPerFrame
           * Nat.min fires (Nat.max 1 (Z.to_nat (duration - frameCount)))).
Proof.
  intros Hn. induction fires as [|fires IH]; intros fc s Hp; simpl fountain.
  - split; [exact Hp|]. pose proof (activeSlots_le s).
    destruct Hp as (_ & Ha & _). rewrite Nat.min_0_l, Nat.mul_0_r. lia.
  - destruct (fountainTick_count x y particlesPerFrame n s Hn Hp) as [Hp1 Hc1].
    destruct (Z.leb_spec duration (fc + 1)) as [Hstop | Hgo].
    + split; [exact Hp1|]. rewrite Hc1.
      replace (Nat.min (S fires) (Nat.max 1 (Z.to_nat (duration - fc))))
        with 1 by lia.
      rewrite Nat.mul_1_r. reflexivity.
    + destruct (IH (fc + 1)%Z _ Hp1) as [Hp2 Hc2].
      split; [exact Hp2|]. rewrite Hc2, Hc1.
      replace (Nat.min (S fires) (Nat.max 1 (Z.to_nat (duration - fc))))
        with (S (Nat.min fires (Nat.max 1 (Z.to_nat (duration - (fc + 1))))))
        by lia.
      rewrite Nat.mul_succ_r. lia.
Qed.

Lemma vortex_count (fires : nat) (x y : num) (n : nat) (particleCount : Z)
  (radius rotationSpeed : num) :
  0 < n ->
  forall angle currentParticles s,
    pool n s ->
    pool n (vortex fires x y particleCount radius rotationSpeed angle
              currentParticles s) /\
    activeSlots (vortex fires x y particleCount radius rotationSpeed angle
                   currentParticles s)
    = Nat.min n
        (activeSlots s
         + Nat.min fires
             (Nat.max 1 (Z.to_nat (particleCount - currentParticles)))).
Proof.
  intros Hn. induction fires as [|fires IH]; intros angle cur s Hp;
    simpl vortex.
  - split; [exact Hp|]. pose proof (activeSlots_le s).
    destruct Hp as (_ & Ha & _). lia.
  - destruct (emits_count _ s n
                (vortexTick_emits x y radius rotationSpeed angle) Hn Hp)
      as [Hp1 Hc1].
    destruct (Z.leb_spec particleCount (cur + 1)) as [Hstop | Hgo].
    + split; [exact Hp1|]. rewrite Hc1. lia.
    + destruct (IH (angle + n0_1)%js (cur + 1)%Z _ Hp1) as [Hp2 Hc2].
      split; [exact Hp2|]. rewrite Hc2, Hc1. lia.
Qed.

(** X13: the timers of the fountain and of the vortex, for a whole number
    of frames or particles.  The callback counts after it has emitted, so it
    runs at least once: a fountain emits
    [particlesPerFrame] particles on each of [max(1, duration)] ticks and
    then stops, a vortex emits one particle on each of
    [max(1, particleCount)] ticks; a duration or a particle count of 0 or
    less still gives one tick.  In a pool of capacity [n >= 1] the active
    slots after [fires] timer periods are [min n (a + emitted)]. *)
Theorem effect_timers_run_at_least_once (fires : nat) (x y : num)
  (particlesPerFrame n : nat) (duration : Z) (radius rotationSpeed angle : num)
  (s : ParticleSystem) :
  0 < n -> pool n s ->
  activeSlots (fountain fires x y particlesPerFrame duration 0 s)
  = Nat.min n (activeSlots s
               + particlesPerFrame * Nat.min fires (Nat.max 1 (Z.to_nat duration))) /\
  activeSlots (vortex fires x y duration radius rotationSpeed angle 0 s)
  = Nat.min n (activeSlots s + Nat.min fires (Nat.max 1 (Z.to_nat duration))) /\
  ((duration <= 1)%Z ->
   fountain (S fires) x y particlesPerFrame duration 0 s
   = fountainTick x y particlesPerFrame s /\
   vortex (S fires) x y duration radius rotationSpeed angle 0 s
   = vortexTick x y radius rotationSpeed angle s).
Proof.
  intros Hn Hp.
  destruct (fountain_count fires x y particlesPerFrame n duration Hn 0%Z s Hp)
    as [_ Hf].
  destruct (vortex_count fires x y n duration radius rotationSpeed Hn angle
              0%Z s Hp) as [_ Hv].
  rewrite Z.sub_0_r in Hf, Hv.
  split; [exact Hf|]. split; [exact Hv|].
  intros Hd. simpl.
  destruct (Z.leb_spec duration (0 + 1)) as [_ | Hgo]; [split; reflexivity | lia].
Qed.

Lemma trailTips_count (color : option string) (hand : Hand) (n : nat)
  (ts : list Vec3) :
  0 < n ->
  forall k s,
    pool n s ->
    pool n (forEach_from (trailFromTip color hand) k ts s) /\
    activeSlots (forEach_from (trailFromTip color hand) k ts s)
    = Nat.min n (activeSlots s + extendedFrom k (fingerExtension hand) ts).
Proof.
  intros Hn. induction ts as [|tip ts IH]; intros k s Hp; simpl.
  - split; [exact Hp|]. pose proof (activeSlots_le s).
    destruct Hp as (_ & Ha & _). lia.
  - assert (H1 : pool n (trailFromTip color hand tip k s) /\
                 activeSlots (trailFromTip color hand tip k s)
                 = Nat.min n (activeSlots s
                              + match fingerExtension hand !! k with
                                | Some true => 1
                                | _ => 0
                                end)).
    { rewrite trailFromTip_emit. pose proof (activeSlots_le s).
      assert (Ha : length (active s) = n) by apply Hp.
      destruct (fingerExtension hand !! k) as [[|]|];
        try (split; [exact Hp | lia]).
      split; [apply emitParticle_pool; assumption|].
      destruct (emitParticle_count (vx tip) (vy tip) n0 s n Hn Hp)
        as [-> _]. lia. }
    destruct H1 as [Hp1 Hc1]. destruct (IH (S k) _ Hp1) as [Hp2 Hc2].
    split; [exact Hp2|]. rewrite Hc2, Hc1. lia.
Qed.

(** X14: [createTrailEffect] does nothing without hand data or without
    hands, and otherwise emits one particle for every tip whose extension
    flag is true and none for the other tips: the active slots become
    [min n (a + extended tips)]. *)
Theorem trail_emits_per_extended_tip (hands : list Hand)
  (color : option string) (s : ParticleSystem) (n : nat) :
  0 < n -> pool n s ->
  createTrailEffect None color s = s /\
  createTrailEffect (Some []) color s = s /\
  pool n (createTrailEffect (Some hands) color s) /\
  activeSlots (createTrailEffect (Some hands) color s)
  = Nat.min n (activeSlots s + extendedTips hands).
Proof.
  intros Hn Hp. split; [reflexivity|]. split; [reflexivity|].
  assert (H : forall hs k t,
             pool n t ->
             pool n (forEach_from
                       (fun hand _ => forEach (trailFromTip color hand) (tips hand))
                       k hs t) /\
             activeSlots
               (forEach_from
                  (fun hand _ => forEach (trailFromTip color hand) (tips hand))
                  k hs t)
             = Nat.min n (activeSlots t + extendedTips hs)).
  { induction hs as [|h hs IH]; intros k t Ht; simpl.
    - split; [exact Ht|]. pose proof (activeSlots_le t).
      destruct Ht as (_ & Ha & _). lia.
    - destruct (trailTips_count color h n (tips h) Hn 0 t Ht) as [Hp1 Hc1].
      destruct (IH (S k) _ Hp1) as [Hp2 Hc2].
      change (forEach (trailFromTip color h) (tips h) t)
        with (forEach_from (trailFromTip color h) 0 (tips h) t).
      split; [exact Hp2|]. rewrite Hc2, Hc1. lia. }
  unfold createTrailEffect. destruct hands as [|h hs].
  - split; [exact Hp|]. pose proof (activeSlots_le s).
    destruct Hp as (_ & Ha & _). simpl. lia.
  - apply (H (h :: hs) 0 s Hp).
Qed.

End EffectInvariants.

(** A hand of three tips on a line, the first and the third extended. *)
Example effects_keep_pool_witness :
  let s := sevenSlots true in
  let hands := Some [mkHand [mkVec3 n0 n0 n0; mkVec3 n1 n0 n0; mkVec3 n2 n0 n0]
                       [true; false; true] None] in
  shape s /\ sentinel s /\
  sentinel (@createTrailEffect demo hands None s) /\
  sentinel (@fountain demo 3 n0 n0 2 2 0 s) /\
  maxParticles (@vortex demo 3 n0 n0 2 n1 n0_1 n0 0 s) = 7%nat.
Proof.
  intros s hands.
  assert (Hs : shape s).
  { apply (pool_shape 7). unfold pool. vm_compute. repeat split; reflexivity. }
  assert (Hsen : sentinel s).
  { intros i Hi.
    do 7 (destruct i as [|i]; [vm_compute; reflexivity|]).
    vm_compute in Hi. discriminate. }
  destruct (@effects_keep_pool demo s n0 n0 n1 n0_1 n0 3%nat 3%nat 2%nat 2
              hands None Hs Hsen)
    as (_ & (_ & Ht & _) & (_ & Hf & _) & (_ & _ & Hv)).
  refine (conj Hs (conj Hsen (conj Ht (conj Hf _)))).
  rewrite Hv. vm_compute. reflexivity.
Defined.

Example effect_timers_run_at_least_once_witness :
  let s := sevenSlots true in
  pool 7 s /\
  activeSlots (@fountain demo 10 n0 n0 2 0 0 s) = 2%nat /\
  activeSlots (@fountain demo 10 n0 n0 2 3 0 s) = 6%nat /\
  activeSlots (@vortex demo 10 n0 n0 (-4) n1 n0_1 n0 0 s) = 1%nat.
Proof.
  intros s.
  assert (Hp : pool 7 s) by (unfold pool; vm_compute; repeat split; reflexivity).
  destruct (@effect_timers_run_at_least_once demo 10%nat n0 n0 2%nat 7%nat 0
              n1 n0_1 n0 s ltac:(lia) Hp) as (H0 & _ & _).
  destruct (@effect_timers_run_at_least_once demo 10%nat n0 n0 2%nat 7%nat 3
              n1 n0_1 n0 s ltac:(lia) Hp) as (H3 & _ & _).
  destruct (@effect_timers_run_at_least_once demo 10%nat n0 n0 2%nat 7%nat (-4)
              n1 n0_1 n0 s ltac:(lia) Hp) as (_ & Hv & _).
  refine (conj Hp (conj _ (conj _ _))).
  - rewrite H0. reflexivity.
  - rewrite H3. reflexivity.
  - rewrite Hv. reflexivity.
Defined.

Example trail_emits_per_extended_tip_witness :
  let s := sevenSlots true in
  let hands := [mkHand [mkVec3 n0 n0 n0; mkVec3 n1 n0 n0; mkVec3 n2 n0 n0]
                  [true; false; true] None] in
  pool 7 s /\
  activeSlots (@createTrailEffect demo (Some hands) None s) = 2%nat.
Proof.
  intros s hands.
  assert (Hp : pool 7 s) by (unfold pool; vm_compute; repeat split; reflexivity).
  destruct (@trail_emits_per_extended_tip demo hands None s 7%nat
              ltac:(lia) Hp) as (_ & _ & _ & H).
  refine (conj Hp _). rewrite H. reflexivity.
Defined.

(** ** How much a frame can emit *)

Section EmissionBounds.

Context {platform : Platform}.

Local Open Scope nat_scope.

Lemma plainEmission_emits (x y z : num) :
  emits (fun acc => fst (emitParticle x y z acc)).
Proof.
  intros t. exists x, y, z, (rng t). destruct t. reflexivity.
Qed.

Lemma emitFromTip_bounds (hand : Hand) (tip : Vec3) (fingerIndex n : nat)
  (R : Z) (t : ParticleSystem) :
  0 < n -> (1 <= R)%Z -> pool n t -> emissionRate (options t) = R ->
  let e := match fingerExtension hand !! fingerIndex with
           | Some true => 1
           | _ => 0
           end in
  pool n (emitFromTip hand tip fingerIndex t) /\
  emissionRate (options (emitFromTip hand tip fingerIndex t)) = R /\
  Nat.min n (activeSlots t + e)
  <= activeSlots (emitFromTip hand tip fingerIndex t)
  <= Nat.min n (activeSlots t + Z.to_nat R * e).
Proof.
  intros Hn HR Hp Hrate e. unfold emitFromTip. subst e.
  pose proof (activeSlots_le t) as Hle.
  assert (Ha : length (active t) = n) by apply Hp.
  destruct (fingerExtension hand !! fingerIndex) as [[|]|];
    try (split; [exact Hp|]; split; [exact Hrate | lia]).
  rewrite Hrate.
  destruct (randomInt_range (rng t) R HR) as [Hc _].
  set (c := randomInt (rng t) 1 R) in *.
  assert (Hp' : pool n (set_rng (S (rng t)) t)) by exact Hp.
  destruct (for_upto_const_count
              (fun acc => fst (emitParticle (vx tip) (vy tip) n0 acc))
              (Z.to_nat c) n _ (plainEmission_emits _ _ _) Hn Hp')
    as [Hp1 Hc1].
  split; [exact Hp1|]. split.
  - apply (for_upto_ind (fun u => emissionRate (options u) = R));
      [exact Hrate|].
    intros _ u _ Hu.
    destruct (emitParticle_env (vx tip) (vy tip) n0 u) as (-> & _). exact Hu.
  - rewrite Hc1. change (activeSlots (set_rng (S (rng t)) t)) with (activeSlots t).
    lia.
Qed.

Lemma emitTips_bounds (hand : Hand) (n : nat) (R : Z) (ts : list Vec3) :
  0 < n -> (1 <= R)%Z ->
  forall k t,
    pool n t -> emissionRate (options t) = R ->
    pool n (forEach_from (emitFromTip hand) k ts t) /\
    emissionRate (options (forEach_from (emitFromTip hand) k ts t)) = R /\
    Nat.min n (activeSlots t + extendedFrom k (fingerExtension hand) ts)
    <= activeSlots (forEach_from (emitFromTip hand) k ts t)
    <= Nat.min n (activeSlots t
                  + Z.to_nat R * extendedFrom k (fingerExtension hand) ts).
Proof.
  intros Hn HR. induction ts as [|tip ts IH]; intros k t Hp Hrate; simpl.
  - split; [exact Hp|]. split; [exact Hrate|].
    pose proof (activeSlots_le t). destruct Hp as (_ & Ha & _). lia.
  - destruct (emitFromTip_bounds hand tip k n R t Hn HR Hp Hrate)
      as (Hp1 & Hr1 & Hb1).
    destruct (IH (S k) _ Hp1 Hr1) as (Hp2 & Hr2 & Hb2).
    split; [exact Hp2|]. split; [exact Hr2|].
    rewrite Nat.mul_add_distr_l.
    set (E := extendedFrom (S k) (fingerExtension hand) ts) in *.
    set (RE := Z.to_nat R * E) in *. clearbody RE. clearbody E.
    set (r := Z.to_nat R) in *. clearbody r.
    set (a1 := activeSlots (emitFromTip hand tip k t)) in *. clearbody a1.
    set (a2 := activeSlots _) in *. clearbody a2.
    destruct (fingerExtension hand !! k) as [[|]|]; lia.
Qed.

Lemma emitHands_bounds (n : nat) (R : Z) (hands : list Hand) :
  0 < n -> (1 <= R)%Z ->
  forall k t,
    pool n t -> emissionRate (options t) = R ->
    pool n (forEach_from
              (fun hand _ => forEach (emitFromTip hand) (tips hand))
              k hands t) /\
    Nat.min n (activeSlots t + extendedTips hands)
    <= activeSlots
         (forEach_from
            (fun hand _ => forEach (emitFromTip hand) (tips hand))
            k hands t)
    <= Nat.min n (activeSlots t + Z.to_nat R * extendedTips hands).
Proof.
  intros Hn HR. induction hands as [|h hs IH]; intros k t Hp Hrate; simpl.
  - split; [exact Hp|].
    pose proof (activeSlots_le t). destruct Hp as (_ & Ha & _). lia.
  - destruct (emitTips_bounds h n R (tips h) Hn HR 0 t Hp Hrate)
      as (Hp1 & Hr1 & Hb1).
    destruct (IH (S k) _ Hp1 Hr1) as (Hp2 & Hb2).
    change (forEach (emitFromTip h) (tips h) t)
      with (forEach_from (emitFromTip h) 0 (tips h) t).
    split; [exact Hp2|].
    rewrite Nat.mul_add_distr_l.
    set (RE := Z.to_nat R * extendedTips hs) in *. clearbody RE.
    set (Re := Z.to_nat R * extendedFrom 0 (fingerExtension h) (tips h)) in *.
    clearbody Re.
    set (a1 := activeSlots (forEach_from (emitFromTip h) 0 (tips h) t)) in *.
    clearbody a1.
    set (a2 := activeSlots _) in *. clearbody a2.
    lia.
Qed.

(** X15: what an emission pass adds to the pool.  With an emission rate of
    at least 1, in a pool of capacity [n >= 1] holding [a] active particles,
    [emitParticlesFromFingers] over a snapshot with [e] extended tips leaves
    between [min n (a + e)] and [min n (a + rate * e)] active particles:
    every extended tip adds at least one particle while a slot is free, the
    pass never retires a particle, and a full pool stays full. *)
Theorem emission_pass_bounds (s : ParticleSystem) (n : nat) (hands : list Hand) :
  0 < n -> pool n s -> (1 <= emissionRate (options s))%Z ->
  fingerPositions s = Some hands ->
  pool n (emitParticlesFromFingers s) /\
  Nat.min n (activeSlots s + extendedTips hands)
  <= activeSlots (emitParticlesFromFingers s)
  <= Nat.min n (activeSlots s
                + Z.to_nat (emissionRate (options s)) * extendedTips hands).
Proof.
  intros Hn Hp HR Hf. unfold emitParticlesFromFingers. rewrite Hf.
  destruct hands as [|h hs].
  - split; [exact Hp|]. pose proof (activeSlots_le s).
    destruct Hp as (_ & Ha & _). simpl. lia.
  - apply (emitHands_bounds n _ (h :: hs) Hn HR 0 s Hp eq_refl).
Qed.

End EmissionBounds.

Example emission_pass_bounds_witness :
  let s := sevenSlots true in
  pool 7 s /\ emissionRate (options s) = 5%Z /\
  (1 <= activeSlots (@emitParticlesFromFingers demo s) <= 5)%nat.
Proof.
  intros s.
  assert (Hp : pool 7 s) by (unfold pool; vm_compute; repeat split; reflexivity).
  assert (HR : emissionRate (options s) = 5%Z) by (vm_compute; reflexivity).
  destruct (@emission_pass_bounds demo s 7%nat
              [oneTip (Fin 3) (Fin 4) true None] ltac:(lia) Hp
              ltac:(rewrite HR; lia) eq_refl) as (_ & Hb).
  refine (conj Hp (conj HR _)).
  rewrite HR in Hb.
  change (activeSlots s) with 0%nat in Hb.
  change (extendedTips [oneTip (Fin 3) (Fin 4) true None]) with 1%nat in Hb.
  simpl in Hb. exact Hb.
Defined.

(** ** MathUtils *)

Section MathLaws.

Context {platform : Platform}.

Lemma Qnum_zero (q : Q) : (q == 0)%Q -> Qnum q = 0%Z.
Proof. unfold Qeq. simpl. lia. Qed.

Lemma Qsign_zero (q : Q) : (q == 0)%Q -> JS.Qsign (Qred q) = Eq.
Proof.
  intros H. unfold JS.Qsign. rewrite (Qnum_zero (Qred q)); [reflexivity|].
  rewrite Qred_correct. exact H.
Qed.


Lemma fin_ext (p q : Q) : (p == q)%Q -> JS.fin p = JS.fin q.
Proof. intros H. unfold JS.fin. f_equal. apply Qred_complete, H. Qed.

Lemma sub_Fin (a b : Q) : (Fin a - Fin b)%js = JS.fin (a + Qred (- b)).
Proof. reflexivity. Qed.

Lemma mul_Fin (a b : Q) : (Fin a * Fin b)%js = JS.fin (a * b).
Proof. reflexivity. Qed.


Lemma sq_sub_sym (a b : num) :
  ((a - b) * (a - b))%js = ((b - a) * (b - a))%js.
Proof.
  destruct a as [p| | |], b as [q| | |]; try reflexivity.
  unfold JS.sub, JS.neg, JS.add, JS.mul, JS.fin. f_equal.
  apply Qred_complete. rewrite !Qred_correct. ring.
Qed.

(** X16: [MathUtils.clamp] with bounds in order ([min <= max], none of the
    three numbers NaN, infinities allowed) returns a number inside the
    bounds, returns the value itself when it is inside, and is idempotent.
    With the bounds the wrong way round ([max < min]) it returns [max]
    whatever the value is. *)
Theorem clamp_within_bounds (value lo hi : num) :
  value <> NaN -> lo <> NaN -> hi <> NaN ->
  (JS.lt hi lo = false ->
   JS.lt (clamp value lo hi) lo = false /\
   JS.lt hi (clamp value lo hi) = false /\
   (JS.lt value lo = false -> JS.lt hi value = false ->
    clamp value lo hi = value) /\
   clamp (clamp value lo hi) lo hi = clamp value lo hi) /\
  (JS.lt hi lo = true -> clamp value lo hi = hi).
Proof.
  intros Hv Hl Hh.
  destruct value as [v| | |], lo as [l| | |], hi as [h| | |];
    try congruence; clear Hv Hl Hh;
    unfold clamp, JSmax, JS.min, JS.lt;
    repeat match goal with
           | |- context [Qlt_le_dec ?a ?b] => destruct (Qlt_le_dec a b)
           end;
    simpl;
    repeat match goal with
           | |- context [Qlt_le_dec ?a ?b] => destruct (Qlt_le_dec a b)
           end;
    (split; [intros H0; try discriminate; repeat split; intros;
             try reflexivity; try discriminate; exfalso; lra
            | intros H0; try discriminate; try reflexivity; exfalso; lra]).
Qed.


(** X18: [MathUtils.lerp] returns [start] at [t = 0] and [end] at [t = 1]
    for finite end points, and NaN at [t = 0] as soon as [end] is infinite:
    the product of an infinity with zero is NaN. *)
Theorem lerp_end_points (start stop : Q) (far : num) :
  lerp (Fin start) (Fin stop) n0 = JS.fin start /\
  lerp (Fin start) (Fin stop) n1 = JS.fin stop /\
  (far = JS.PInf \/ far = JS.NInf -> lerp (Fin start) far n0 = NaN).
Proof.
  unfold lerp, n0, n1, JS.sub, JS.neg, JS.add, JS.mul.
  split; [|split].
  - apply fin_ext. rewrite !Qred_correct. ring.
  - apply fin_ext. rewrite !Qred_correct. ring.
  - intros [-> | ->]; reflexivity.
Qed.

(** X19: [MathUtils.distance] is symmetric: the distance from the first
    point to the second is the distance from the second to the first,
    for all numbers and every [Math.sqrt]. *)
Theorem distance_symmetric (x1 y1 x2 y2 : num) :
  distance x1 y1 x2 y2 = distance x2 y2 x1 y1.
Proof.
  unfold distance. rewrite (sq_sub_sym x2 x1), (sq_sub_sym y2 y1). reflexivity.
Qed.

End MathLaws.

Example clamp_within_bounds_witness :
  clamp (Fin 3) (Fin 0) (Fin 5) = Fin 3 /\
  clamp (Fin 7) (Fin 5) (Fin 0) = Fin 0 /\
  clamp (Fin 3) (Fin 5) (Fin 0) = Fin 0.
Proof.
  assert (H7 : Fin 7 <> NaN) by discriminate.
  assert (H5 : Fin 5 <> NaN) by discriminate.
  assert (H3 : Fin 3 <> NaN) by discriminate.
  assert (H0 : Fin 0 <> NaN) by discriminate.
  destruct (clamp_within_bounds (Fin 3) (Fin 0) (Fin 5) H3 H0 H5)
    as [Hin _].
  destruct (Hin eq_refl) as (_ & _ & Hid & _).
  destruct (clamp_within_bounds (Fin 7) (Fin 5) (Fin 0) H7 H5 H0)
    as [_ Hout7].
  destruct (clamp_within_bounds (Fin 3) (Fin 5) (Fin 0) H3 H5 H0)
    as [_ Hout3].
  exact (conj (Hid eq_refl eq_refl) (conj (Hout7 eq_refl) (Hout3 eq_refl))).
Defined.


(** ** The event emitter *)

Section EmitterLaws.

Context {Arg : Type}.

Implicit Types (st : EventEmitter.t Arg) (l : EventEmitter.Listener).
Implicit Types (e : string) (ids : list nat).
















End EmitterLaws.





(** ** The game loop over the particle system *)

Section EngineLaws.

Context {platform : Platform}.

Implicit Types (g : GameEngine.t ParticleSystem) (s : ParticleSystem).

Lemma calculateFPS_keeps (currentTime : num) g :
  let g1 := GameEngine.calculateFPS currentTime g in
  GameEngine.isRunning g1 = GameEngine.isRunning g /\
  GameEngine.frameCount g1 = GameEngine.frameCount g /\
  GameEngine.gameObjects g1 = GameEngine.gameObjects g /\
  GameEngine.gameState g1 = GameEngine.gameState g /\
  GameEngine.store g1 = GameEngine.store g /\
  GameEngine.fps g1
  = Math_round (Fin 1000 / (currentTime - GameEngine.lastFrameTime g))%js.
Proof.
  unfold GameEngine.calculateFPS.
  destruct (Z.rem (GameEngine.frameCount g) 10 =? 0)%Z; simpl; auto 10.
Qed.

Lemma gameLoop_frame (currentTime : num) g (r : nat) s :
  GameEngine.isRunning g = true ->
  GameEngine.paused (GameEngine.gameState g) = false ->
  GameEngine.gameObjects g = [r] ->
  GameEngine.store g !! r = Some s ->
  let g' := GameEngine.gameLoop currentTime g in
  GameEngine.isRunning g' = true /\
  GameEngine.paused (GameEngine.gameState g') = false /\
  GameEngine.gameObjects g' = [r] /\
  GameEngine.frameCount g' = GameEngine.frameCount g + 1 /\
  GameEngine.store g' !! r
  = Some (update n0 (GameEngine.frameCount g + 1) s).
Proof.
  intros Hrun Hp Hobjs Hs.
  destruct (calculateFPS_keeps currentTime g) as (H1 & H2 & H3 & H4 & H5 & _).
  unfold GameEngine.gameLoop. rewrite Hrun. simpl.
  rewrite H1, H2, H3, H4, H5, Hp, Hobjs. simpl.
  repeat split; try assumption.
  unfold GameEngine.updateObject. simpl.
  rewrite list_lookup_alter_eq, Hs. reflexivity.
Qed.

Lemma gameLoop_paused (currentTime : num) g :
  GameEngine.isRunning g = true ->
  GameEngine.paused (GameEngine.gameState g) = true ->
  let g' := GameEngine.gameLoop currentTime g in
  GameEngine.isRunning g' = true /\
  GameEngine.gameState g' = GameEngine.gameState g /\
  GameEngine.gameObjects g' = GameEngine.gameObjects g /\
  GameEngine.frameCount g' = GameEngine.frameCount g + 1 /\
  GameEngine.store g' = GameEngine.store g.
Proof.
  intros Hrun Hp.
  destruct (calculateFPS_keeps currentTime g) as (H1 & H2 & H3 & H4 & H5 & _).
  unfold GameEngine.gameLoop. rewrite Hrun. simpl.
  rewrite H1, H2, H3, H4, H5, Hp. simpl. auto.
Qed.

(** X24: the game loop over the particle system.  While the engine runs
    and is not paused, with the particle system as its one game object,
    [k] calls of [gameLoop] update the particle system [k] times, with the
    frame numbers that follow the engine's counter, whatever the times of
    the calls are: the store holds [runFrames k] of the particle system. *)
Theorem engine_drives_particle_system (times : list num) (deltaTime : num)
  g (r : nat) s :
  GameEngine.isRunning g = true ->
  GameEngine.paused (GameEngine.gameState g) = false ->
  GameEngine.gameObjects g = [r] ->
  GameEngine.store g !! r = Some s ->
  GameEngine.frameCount (GameEngine.loops times g)
  = GameEngine.frameCount g + Z.of_nat (length times) /\
  GameEngine.store (GameEngine.loops times g) !! r
  = Some (runFrames (length times) deltaTime (GameEngine.frameCount g) s).
Proof.
  revert g s. induction times as [|t times IH]; intros g s Hrun Hp Hobjs Hs.
  - simpl. split; [lia | exact Hs].
  - destruct (gameLoop_frame t g r s Hrun Hp Hobjs Hs)
      as (Hrun' & Hp' & Hobjs' & Hfc' & Hs').
    destruct (IH _ _ Hrun' Hp' Hobjs' Hs') as [IHfc IHs].
    unfold GameEngine.loops in *. simpl foldl. rewrite IHfc, IHs, Hfc'.
    split; [simpl length; lia|]. reflexivity.
Qed.

(** X25: pausing does not stop the loop.  While the engine is paused every
    call of [gameLoop] leaves the store of objects as it is and still
    counts a frame, so the frames of the pause are skipped: after
    [resume()] the particle system is updated with the frame number that
    follows the whole pause.  A stopped engine ignores [gameLoop]. *)
Theorem engine_pause_skips_frames (times : list num) (currentTime : num)
  g (r : nat) s :
  GameEngine.isRunning g = true ->
  GameEngine.gameObjects g = [r] ->
  GameEngine.store g !! r = Some s ->
  let g1 := GameEngine.loops times (GameEngine.pause g) in
  GameEngine.store g1 = GameEngine.store g /\
  GameEngine.frameCount g1 = GameEngine.frameCount g + Z.of_nat (length times) /\
  GameEngine.store (GameEngine.gameLoop currentTime (GameEngine.resume g1)) !! r
  = Some (update n0 (GameEngine.frameCount g + Z.of_nat (length times) + 1) s) /\
  GameEngine.gameLoop currentTime (GameEngine.stop g) = GameEngine.stop g.
Proof.
  intros Hrun Hobjs Hs g1.
  assert (Hloops : forall ts h,
             GameEngine.isRunning h = true ->
             GameEngine.paused (GameEngine.gameState h) = true ->
             let h1 := GameEngine.loops ts h in
             GameEngine.isRunning h1 = true /\
             GameEngine.gameObjects h1 = GameEngine.gameObjects h /\
             GameEngine.store h1 = GameEngine.store h /\
             GameEngine.frameCount h1
             = GameEngine.frameCount h + Z.of_nat (length ts)).
  { induction ts as [|t ts IH]; intros h Hr Hp.
    - simpl. repeat split; [exact Hr | lia].
    - destruct (gameLoop_paused t h Hr Hp) as (Hr' & Hgs' & Ho' & Hfc' & Hst').
      assert (Hp' : GameEngine.paused
                      (GameEngine.gameState (GameEngine.gameLoop t h)) = true)
        by (rewrite Hgs'; exact Hp).
      destruct (IH _ Hr' Hp') as (Hr2 & Ho2 & Hst2 & Hfc2).
      unfold GameEngine.loops in *. simpl foldl.
      rewrite Ho2, Hst2, Hfc2, Ho', Hst', Hfc'.
      repeat split; try assumption. simpl length. lia. }
  destruct (Hloops times (GameEngine.pause g) Hrun eq_refl)
    as (Hr1 & Ho1 & Hst1 & Hfc1).
  fold g1 in Hr1, Ho1, Hst1, Hfc1.
  change (GameEngine.store (GameEngine.pause g)) with (GameEngine.store g) in Hst1.
  change (GameEngine.frameCount (GameEngine.pause g))
    with (GameEngine.frameCount g) in Hfc1.
  change (GameEngine.gameObjects (GameEngine.pause g))
    with (GameEngine.gameObjects g) in Ho1.
  split; [exact Hst1|]. split; [exact Hfc1|]. split.
  - destruct (gameLoop_frame currentTime (GameEngine.resume g1) r s)
      as (_ & _ & _ & _ & Hst); try reflexivity.
    + exact Hr1.
    + change (GameEngine.gameObjects g1 = [r]). rewrite Ho1. exact Hobjs.
    + change (GameEngine.store g1 !! r = Some s). rewrite Hst1. exact Hs.
    + rewrite Hst.
      change (GameEngine.frameCount (GameEngine.resume g1))
        with (GameEngine.frameCount g1).
      rewrite Hfc1. reflexivity.
  - reflexivity.
Qed.

End EngineLaws.

Section EngineObjects.

Context {O : Type} {gameObject : GameObject O}.

Implicit Types (g : GameEngine.t O).

Lemma removeFirst_added (r : nat) (objs : list nat) :
  r ∉ objs -> GameEngine.removeFirst r (objs ++ [r]) = objs.
Proof.
  induction objs as [|x objs IH]; intros Hr; simpl.
  - rewrite Nat.eqb_refl. reflexivity.
  - apply not_elem_of_cons in Hr as [Hx Hobjs].
    destruct (Nat.eqb_spec x r) as [-> | _]; [congruence|].
    rewrite IH by exact Hobjs. reflexivity.
Qed.

Lemma updateObjects_keep (deltaTime : num) (refs : list nat) g :
  let g' := foldl (fun acc ref => GameEngine.updateObject deltaTime ref acc)
              g refs in
  GameEngine.emitted g' = GameEngine.emitted g /\
  GameEngine.frameCount g' = GameEngine.frameCount g /\
  GameEngine.gameState g' = GameEngine.gameState g /\
  GameEngine.fps g' = GameEngine.fps g /\
  GameEngine.gameObjects g' = GameEngine.gameObjects g.
Proof.
  revert g. induction refs as [|r refs IH]; intros g; simpl; [auto|].
  destruct (IH (GameEngine.updateObject deltaTime r g)) as (-> & -> & -> & -> & ->).
  unfold GameEngine.updateObject. destruct update_method; auto.
Qed.

Lemma drawObjects_keep (refs : list nat) g :
  let g' := foldl (fun acc ref => GameEngine.drawObject ref acc) g refs in
  GameEngine.emitted g' = GameEngine.emitted g /\
  GameEngine.frameCount g' = GameEngine.frameCount g /\
  GameEngine.gameState g' = GameEngine.gameState g /\
  GameEngine.fps g' = GameEngine.fps g.
Proof.
  revert g. induction refs as [|r refs IH]; intros g; simpl; [auto|].
  destruct (IH (GameEngine.drawObject r g)) as (-> & -> & -> & ->).
  unfold GameEngine.drawObject. destruct draw_method; auto.
Qed.

Lemma round_small (q : Q) :
  (0 <= q)%Q -> (q < 1 # 2)%Q -> Math_round (Fin q) = Fin 0.
Proof.
  intros H0 H1. unfold Math_round.
  replace (Qfloor (q + (1 # 2))) with 0%Z; [reflexivity|].
  symmetry. apply Qfloor_bucket.
  change (inject_Z 0) with 0%Q. change (inject_Z (0 + 1)) with 1%Q.
  split; lra.
Qed.

(** X26: what a frame reports.  A call of [gameLoop] on a running engine
    that is not paused emits [fpsUpdate] when the counter before the call is
    a multiple of 10 and then [frameEnd] with the new counter and the time
    step [1 / fps].  A frame that comes 2001 ms or more after the previous
    one has [fps = 0] and an infinite time step; a frame at the time of the
    previous one has an infinite [fps] and a time step of 0. *)
Theorem engine_frame_report (a b : Q) g :
  GameEngine.isRunning g = true ->
  GameEngine.paused (GameEngine.gameState g) = false ->
  GameEngine.lastFrameTime g = Fin a ->
  let g' := GameEngine.gameLoop (Fin b) g in
  GameEngine.emitted g'
  = GameEngine.emitted g
    ++ (if (Z.rem (GameEngine.frameCount g) 10 =? 0)%Z
        then [GameEngine.FpsUpdate (GameEngine.fps g')] else [])
    ++ [GameEngine.FrameEnd (GameEngine.frameCount g + 1)
          (n1 / GameEngine.fps g')%js (GameEngine.gameState g)] /\
  ((2001 <= b - a)%Q ->
   GameEngine.fps g' = Fin 0 /\ (n1 / GameEngine.fps g')%js = JS.PInf) /\
  ((b == a)%Q ->
   GameEngine.fps g' = JS.PInf /\ (n1 / GameEngine.fps g')%js = Fin 0).
Proof.
  intros Hrun Hp Hlast g'.
  assert (Hfps : GameEngine.fps g'
                 = Math_round (Fin 1000 / (Fin b - Fin a))%js /\
                 GameEngine.emitted g'
                 = GameEngine.emitted g
                   ++ (if (Z.rem (GameEngine.frameCount g) 10 =? 0)%Z
                       then [GameEngine.FpsUpdate
                               (Math_round (Fin 1000 / (Fin b - Fin a))%js)]
                       else [])
                   ++ [GameEngine.FrameEnd (GameEngine.frameCount g + 1)
                         (n1 / Math_round (Fin 1000 / (Fin b - Fin a)))%js
                         (GameEngine.gameState g)]).
  { subst g'. unfold GameEngine.gameLoop. rewrite Hrun. cbv zeta.
    unfold negb at 1. cbv iota.
    set (g1 := GameEngine.calculateFPS (Fin b) g).
    assert (H1 : GameEngine.isRunning g1 = true /\
                 GameEngine.frameCount g1 = GameEngine.frameCount g /\
                 GameEngine.gameState g1 = GameEngine.gameState g /\
                 GameEngine.fps g1
                 = Math_round (Fin 1000 / (Fin b - Fin a))%js /\
                 GameEngine.emitted g1
                 = GameEngine.emitted g
                   ++ (if (Z.rem (GameEngine.frameCount g) 10 =? 0)%Z
                       then [GameEngine.FpsUpdate
                               (Math_round (Fin 1000 / (Fin b - Fin a))%js)]
                       else [])).
    { subst g1. unfold GameEngine.calculateFPS. rewrite Hlast.
      destruct (Z.rem (GameEngine.frameCount g) 10 =? 0)%Z; simpl;
        rewrite ?app_nil_r; auto. }
    destruct H1 as (Hr1 & Hfc1 & Hgs1 & Hfps1 & Hem1).
    set (g2 := GameEngine.mk _ _ _ _ _ _ _ _ _ _).
    assert (Hp2 : GameEngine.paused (GameEngine.gameState g2) = false)
      by (subst g2; simpl; rewrite Hgs1; exact Hp).
    rewrite Hp2. unfold negb. cbv iota.
    set (d := (n1 / GameEngine.fps g2)%js).
    set (g4 := foldl _ g2 (GameEngine.gameObjects g2)).
    destruct (updateObjects_keep d (GameEngine.gameObjects g2) g2)
      as (He4 & Hf4 & Hs4 & Hfps4 & _).
    fold g4 in He4, Hf4, Hs4, Hfps4.
    set (g5 := foldl _ g4 (GameEngine.gameObjects g4)).
    destruct (drawObjects_keep (GameEngine.gameObjects g4) g4)
      as (He5 & Hf5 & Hs5 & Hfps5).
    fold g5 in He5, Hf5, Hs5, Hfps5.
    simpl. rewrite Hfps5, Hfps4, He5, He4, Hf5, Hf4, Hs5, Hs4.
    subst d g2. simpl. rewrite Hfps1, Hem1, Hfc1, Hgs1, <- app_assoc.
    split; reflexivity. }
  destruct Hfps as [Hfps Hem]. rewrite Hfps. split; [exact Hem|].
  rewrite sub_Fin. unfold JS.fin.
  split; intros Hgap.
  - assert (Hg : (2001 <= Qred (b + Qred (- a)))%Q)
      by (rewrite !Qred_correct; exact Hgap).
    set (gap := Qred (b + Qred (- a))) in *.
    assert (Hsign : JS.Qsign gap <> Eq).
    { unfold JS.Qsign. intros E. apply Z.compare_eq in E.
      assert (Hz : (gap == 0)%Q) by (unfold Qeq; simpl; lia). lra. }
    assert (Hdiv : (Fin 1000 / Fin gap)%js = JS.fin (1000 / gap)).
    { unfold JS.div. destruct (JS.Qsign gap); congruence. }
    rewrite Hdiv. unfold JS.fin.
    assert (Hq : (0 <= 1000 / gap)%Q /\ (1000 / gap < 1 # 2)%Q).
    { split.
      - apply Qle_shift_div_l; lra.
      - apply Qlt_shift_div_r; lra. }
    rewrite round_small by (rewrite Qred_correct; apply Hq).
    split; reflexivity.
  - assert (Hz : JS.Qsign (Qred (b + Qred (- a))) = Eq)
      by (apply Qsign_zero; rewrite Qred_correct, Hgap; ring).
    unfold JS.div. rewrite Hz.
    split; reflexivity.
Qed.

(** X27: the engine keeps references.  An object added twice is updated
    twice in every frame, both times with the same frame number;
    [removeGameObject] removes one reference, the first, so that adding an
    object that was not in the list and removing it gives the list back,
    and removing an object added twice leaves it in the list once. *)
Theorem engine_object_added_twice (currentTime : num) (r : nat) (o : O)
  (update : num -> Z -> O -> O) g :
  update_method = Some update ->
  draw_method = None ->
  GameEngine.isRunning g = true ->
  GameEngine.paused (GameEngine.gameState g) = false ->
  GameEngine.gameObjects g = [] ->
  GameEngine.store g !! r = Some o ->
  let g2 := GameEngine.addGameObject r (GameEngine.addGameObject r g) in
  let g' := GameEngine.gameLoop currentTime g2 in
  (exists deltaTime,
     GameEngine.store g' !! r
     = Some (update deltaTime (GameEngine.frameCount g + 1)
               (update deltaTime (GameEngine.frameCount g + 1) o))) /\
  GameEngine.gameObjects (GameEngine.removeGameObject r g2) = [r] /\
  (forall h : GameEngine.t O, r ∉ GameEngine.gameObjects h ->
     GameEngine.gameObjects
       (GameEngine.removeGameObject r (GameEngine.addGameObject r h))
     = GameEngine.gameObjects h).
Proof.
  intros Hup Hdraw Hrun Hp Hobjs Hs g2 g'.
  split; [|split].
  - subst g' g2. unfold GameEngine.gameLoop, GameEngine.addGameObject.
    simpl. rewrite Hrun. simpl.
    unfold GameEngine.calculateFPS. simpl.
    destruct (Z.rem (GameEngine.frameCount g) 10 =? 0)%Z; simpl;
      rewrite Hp, Hobjs; simpl;
      unfold GameEngine.updateObject, GameEngine.drawObject;
      rewrite Hup, Hdraw; simpl;
      rewrite !list_lookup_alter_eq, Hs; simpl; eexists; reflexivity.
  - subst g2. unfold GameEngine.removeGameObject, GameEngine.addGameObject.
    simpl. rewrite Hobjs. simpl. rewrite Nat.eqb_refl. reflexivity.
  - intros h Hh. unfold GameEngine.removeGameObject, GameEngine.addGameObject.
    simpl. apply removeFirst_added, Hh.
Qed.

End EngineObjects.

(** The application's engine: the particle system is its one game object,
    and the engine has been started at time 0. *)
Example engine_drives_particle_system_witness :
  let g :=
    GameEngine.start n0
      (GameEngine.addGameObject 0 (GameEngine.create [oneParticle])) in
  let g' :=
    @GameEngine.loops _ (@ParticleSystem_GameObject demo) [Fin 16; Fin 33] g in
  GameEngine.frameCount g' = 2 /\
  GameEngine.store g' !! 0%nat = Some (@runFrames demo 2 n0 0 oneParticle).
Proof.
  intros g g'.
  destruct (@engine_drives_particle_system demo [Fin 16; Fin 33] n0 g 0%nat
              oneParticle eq_refl eq_refl eq_refl eq_refl) as [Hfc Hs].
  split; [exact Hfc | exact Hs].
Defined.

Example engine_pause_skips_frames_witness :
  let g :=
    GameEngine.start n0
      (GameEngine.addGameObject 0 (GameEngine.create [oneParticle])) in
  let g1 :=
    @GameEngine.loops _ (@ParticleSystem_GameObject demo)
      [Fin 16; Fin 33; Fin 50] (GameEngine.pause g) in
  GameEngine.store g1 = [oneParticle] /\
  GameEngine.store
    (@GameEngine.gameLoop _ (@ParticleSystem_GameObject demo) (Fin 66)
       (GameEngine.resume g1)) !! 0%nat
  = Some (@update demo n0 4 oneParticle).
Proof.
  intros g g1.
  destruct (@engine_pause_skips_frames demo [Fin 16; Fin 33; Fin 50] (Fin 66)
              g 0%nat oneParticle eq_refl eq_refl eq_refl)
    as (Hst & _ & Hs & _).
  split; [exact Hst | exact Hs].
Defined.

Example engine_frame_report_witness :
  let g :=
    GameEngine.start n0
      (GameEngine.addGameObject 0 (GameEngine.create [oneParticle])) in
  let g' :=
    @GameEngine.gameLoop _ (@ParticleSystem_GameObject demo) (Fin 3000) g in
  GameEngine.fps g' = Fin 0 /\
  GameEngine.emitted g'
  = [GameEngine.Started; GameEngine.FpsUpdate (Fin 0);
     GameEngine.FrameEnd 1 JS.PInf (GameEngine.mkGameState 0 1 false false)].
Proof.
  intros g g'.
  destruct (@engine_frame_report _ (@ParticleSystem_GameObject demo) 0 3000 g
              eq_refl eq_refl eq_refl) as (Hem & Hslow & _).
  destruct Hslow as [Hfps Hdt]; [vm_compute; discriminate|].
  fold g' in Hem, Hfps, Hdt.
  split; [exact Hfps|]. rewrite Hem, Hdt, Hfps. reflexivity.
Defined.

Example engine_object_added_twice_witness :
  let g := GameEngine.start n0 (GameEngine.create [oneParticle]) in
  let g2 := GameEngine.addGameObject 0 (GameEngine.addGameObject 0 g) in
  GameEngine.store
    (@GameEngine.gameLoop _ (@ParticleSystem_GameObject demo) (Fin 16) g2)
    !! 0%nat
  = Some (@update demo n0 1 (@update demo n0 1 oneParticle)) /\
  GameEngine.gameObjects (GameEngine.removeGameObject 0 g2) = [0%nat].
Proof.
  intros g g2.
  destruct (@engine_object_added_twice _ (@ParticleSystem_GameObject demo)
              (Fin 16) 0%nat oneParticle (@update demo) g
              eq_refl eq_refl eq_refl eq_refl eq_refl eq_refl)
    as ((dt & Hs) & Hrem & _).
  split; [exact Hs | exact Hrem].
Defined.

(** ** The hand tracker *)

Section TrackerLaws.

Context {platform : Platform}.

Local Open Scope nat_scope.

Lemma toScene_inScene (p : HandTracker.Landmark) :
  HandTracker.inFrame p -> HandTracker.inScene (HandTracker.toScene p).
Proof.
  intros (x & y & z & -> & Hx & Hy).
  unfold HandTracker.toScene, HandTracker.sceneX, HandTracker.sceneY,
    HandTracker.sceneZ, n0_5. simpl HandTracker.lx. simpl HandTracker.ly.
  simpl HandTracker.lz. rewrite !sub_Fin. unfold JS.fin. rewrite !mul_Fin.
  unfold JS.fin. eexists _, _, _. split; [reflexivity|].
  rewrite !Qred_correct. split; lra.
Qed.

Lemma handOf_short (results : HandTracker.Results)
  (landmarks : list HandTracker.Landmark) (index : nat) :
  length landmarks < 21 -> HandTracker.handOf results landmarks index = None.
Proof.
  intros Hlen. unfold HandTracker.handOf.
  assert (H20 : landmarks !! 20 = None) by (apply lookup_ge_None; lia).
  unfold HandTracker.fingerTips.
  destruct (mapM (fun i => HandTracker.toScene <$> landmarks !! i)
              [4; 8; 12; 16; 20]) as [tips|] eqn:E; [|reflexivity].
  exfalso. apply mapM_Some in E.
  apply Forall2_length in E as Hl.
  do 5 (destruct tips as [|? tips]; [discriminate|]).
  do 4 (apply Forall2_cons in E as [_ E]).
  apply Forall2_cons in E as [E _]. rewrite H20 in E. discriminate.
Qed.

Lemma handOf_full (results : HandTracker.Results)
  (landmarks : list HandTracker.Landmark) (index : nat) (label : string) :
  21 <= length landmarks ->
  HandTracker.multiHandedness results !! index = Some label ->
  exists h,
    HandTracker.handOf results landmarks index = Some h /\
    HandTracker.handIndex h = index /\
    length (HandTracker.tips h) = 5 /\
    length (HandTracker.fingerExtension h) = 5 /\
    (Forall HandTracker.inFrame landmarks ->
     Forall HandTracker.inScene (HandTracker.tips h)).
Proof.
  intros Hlen Hlabel.
  do 21 (destruct landmarks as [|? landmarks]; [simpl in Hlen; lia|]).
  unfold HandTracker.handOf, HandTracker.palmMean, HandTracker.extensionOf.
  simpl. rewrite Hlabel. simpl. eexists. split; [reflexivity|]. simpl.
  repeat split.
  intros Hall. rewrite Forall_lookup in Hall.
  repeat constructor; apply toScene_inScene.
  - apply (Hall 4). reflexivity.
  - apply (Hall 8). reflexivity.
  - apply (Hall 12). reflexivity.
  - apply (Hall 16). reflexivity.
  - apply (Hall 20). reflexivity.
Qed.

Lemma handsFrom_full (results : HandTracker.Results)
  (hands : list (list HandTracker.Landmark)) :
  Forall (fun landmarks => 21 <= length landmarks) hands ->
  forall index,
    index + length hands <= length (HandTracker.multiHandedness results) ->
    exists tracked,
      HandTracker.handsFrom results index hands = Some tracked /\
      length tracked = length hands /\
      Forall (fun h => length (HandTracker.tips h) = 5 /\
                       length (HandTracker.fingerExtension h) = 5) tracked /\
      (Forall (Forall HandTracker.inFrame) hands ->
       Forall (fun h => Forall HandTracker.inScene (HandTracker.tips h)) tracked).
Proof.
  induction 1 as [|landmarks hands Hlen Hall IH]; intros index Hidx.
  - exists []. simpl. repeat split; constructor.
  - simpl in Hidx.
    destruct (lookup_lt_is_Some_2 (HandTracker.multiHandedness results) index)
      as [label Hlabel]; [lia|].
    destruct (handOf_full results landmarks index label Hlen Hlabel)
      as (h & Hh & _ & Ht & Hf & Hin).
    destruct (IH (S index)) as (tracked & Htr & Hl & Hshape & Hscene); [lia|].
    exists (h :: tracked). simpl. rewrite Hh. simpl. rewrite Htr. simpl.
    split; [reflexivity|]. split; [rewrite Hl; reflexivity|].
    split; [constructor; [split; assumption | exact Hshape]|].
    intros Hframes. apply Forall_cons in Hframes as [H1 H2].
    constructor; [apply Hin, H1 | apply Hscene, H2].
Qed.

Lemma handsFrom_short (results : HandTracker.Results)
  (hands : list (list HandTracker.Landmark)) :
  Exists (fun landmarks => length landmarks < 21) hands ->
  forall index, HandTracker.handsFrom results index hands = None.
Proof.
  induction 1 as [landmarks hands Hshort | landmarks hands _ IH];
    intros index; simpl.
  - rewrite handOf_short by exact Hshort. reflexivity.
  - rewrite IH. destruct (HandTracker.handOf results landmarks index);
      reflexivity.
Qed.

(** X28: the hands that [processResults] reports.  When every detected hand
    comes with its 21 landmarks and its handedness, [processResults] emits
    [handTracker:update] with one object for each hand; each has exactly
    five tips and five extension flags, and tips inside the scene square
    [[-50, 50] x [-50, 50]] when the landmarks are inside the camera frame.
    A hand with fewer than 21 landmarks makes [processResults] throw. *)
Theorem tracker_reports_five_tips (results : HandTracker.Results)
  (first : list HandTracker.Landmark) (rest : list (list HandTracker.Landmark))
  (st : HandTracker.t) :
  HandTracker.multiHandLandmarks results = Some (first :: rest) ->
  (Forall (fun landmarks => 21 <= length landmarks) (first :: rest) ->
   length (first :: rest) <= length (HandTracker.multiHandedness results) ->
   exists hands history,
     HandTracker.processResults results st
     = Some (HandTracker.mk (Some results) hands history,
             HandTracker.Update hands history) /\
     length hands = length (first :: rest) /\
     Forall (fun h => length (HandTracker.tips h) = 5 /\
                      length (HandTracker.fingerExtension h) = 5) hands /\
     (Forall (Forall HandTracker.inFrame) (first :: rest) ->
      Forall (fun h => Forall HandTracker.inScene (HandTracker.tips h)) hands)) /\
  (Exists (fun landmarks => length landmarks < 21) (first :: rest) ->
   HandTracker.processResults results st = None).
Proof.
  intros Hres. unfold HandTracker.processResults. rewrite Hres. split.
  - intros Hall Hlab.
    destruct (handsFrom_full results (first :: rest) Hall 0 Hlab)
      as (hands & Hh & Hl & Hshape & Hscene).
    rewrite Hh. simpl. eexists _, _. split; [reflexivity|].
    split; [exact Hl|]. split; [exact Hshape | exact Hscene].
  - intros Hshort. rewrite (handsFrom_short results _ Hshort 0). reflexivity.
Qed.

Lemma pushHistory_spec (hands : list HandTracker.TrackedHand)
  (history : list (list HandTracker.TrackedHand)) :
  length history <= 10 ->
  length (HandTracker.pushHistory hands history) <= 10 /\
  last (HandTracker.pushHistory hands history) = Some hands /\
  (length history < 10 ->
   HandTracker.pushHistory hands history = history ++ [hands]) /\
  (length history = 10 ->
   HandTracker.pushHistory hands history = drop 1 history ++ [hands]).
Proof.
  intros Hlen. unfold HandTracker.pushHistory.
  rewrite length_app. simpl length.
  destruct (Nat.ltb_spec 10 (length history + 1)) as [Hfull | Hroom].
  - assert (H10 : length history = 10) by lia.
    destruct history as [|x history]; [discriminate|]. simpl.
    rewrite drop_0, length_app, last_snoc. simpl in *.
    split; [lia|]. split; [reflexivity|]. split; [lia | reflexivity].
  - rewrite length_app, last_snoc. simpl.
    split; [lia|]. split; [reflexivity|]. split; [reflexivity | lia].
Qed.

Lemma processResults_history (results : HandTracker.Results)
  (st st' : HandTracker.t) (ev : HandTracker.Event) :
  HandTracker.processResults results st = Some (st', ev) ->
  length (HandTracker.handHistory st) <= 10 ->
  length (HandTracker.handHistory st') <= 10.
Proof.
  unfold HandTracker.processResults. intros H Hlen.
  destruct (HandTracker.multiHandLandmarks results) as [[|first rest]|];
    try (injection H as <- _; exact Hlen).
  destruct (HandTracker.handsFrom results 0 (first :: rest)) as [hands|];
    [|discriminate].
  simpl in H. injection H as <- _. simpl.
  apply pushHistory_spec, Hlen.
Qed.

Lemma processAll_history (frames : list HandTracker.Results)
  (st st' : HandTracker.t) :
  HandTracker.processAll frames st = Some st' ->
  length (HandTracker.handHistory st) <= 10 ->
  length (HandTracker.handHistory st') <= 10.
Proof.
  revert st. induction frames as [|results frames IH]; intros st H Hlen.
  - injection H as <-. exact Hlen.
  - simpl in H.
    destruct (HandTracker.processResults results st) as [[st1 ev]|] eqn:E;
      [|discriminate].
    simpl in H. apply (IH st1 H).
    apply (processResults_history results st st1 ev E Hlen).
Qed.

(** X29: the history of the tracker.  After any run of the camera the
    history holds at most 10 entries.  A detection appends the hands of the
    frame as the newest entry and, when 10 entries were already kept, drops
    the oldest; the event carries that history, and the hands become the
    current positions. *)
Theorem tracker_history_bounded (frames : list HandTracker.Results)
  (results : HandTracker.Results) (st st' : HandTracker.t)
  (hands : list HandTracker.TrackedHand)
  (history : list (list HandTracker.TrackedHand)) :
  HandTracker.processAll frames HandTracker.create = Some st ->
  HandTracker.processResults results st
  = Some (st', HandTracker.Update hands history) ->
  length (HandTracker.handHistory st) <= 10 /\
  HandTracker.handHistory st' = history /\
  HandTracker.handPositions st' = hands /\
  length history <= 10 /\
  last history = Some hands /\
  (length (HandTracker.handHistory st) < 10 ->
   history = HandTracker.handHistory st ++ [hands]) /\
  (length (HandTracker.handHistory st) = 10 ->
   history = drop 1 (HandTracker.handHistory st) ++ [hands]).
Proof.
  intros Hrun Hstep.
  assert (Hlen : length (HandTracker.handHistory st) <= 10).
  { apply (processAll_history frames HandTracker.create st Hrun). simpl. lia. }
  split; [exact Hlen|].
  unfold HandTracker.processResults in Hstep.
  destruct (HandTracker.multiHandLandmarks results) as [[|first rest]|];
    try discriminate.
  destruct (HandTracker.handsFrom results 0 (first :: rest)) as [hs|];
    [|discriminate].
  simpl in Hstep. injection Hstep as <- <- <-. simpl.
  split; [reflexivity|]. split; [reflexivity|].
  apply pushHistory_spec, Hlen.
Qed.

(** X30: hands that leave the view.  When a frame shows no hand the tracker
    empties its current positions, keeps its history and emits
    [handTracker:noHands], which does not reach the particle system: the
    particle system keeps the snapshot of the last detection, and an
    emission pass still emits at least one particle for every extended tip
    of that snapshot while slots are free. *)
Theorem lost_hands_keep_emitting (results : HandTracker.Results)
  (st : HandTracker.t) (hands : list HandTracker.TrackedHand)
  (history : list (list HandTracker.TrackedHand)) (s : ParticleSystem)
  (n : nat) :
  HandTracker.multiHandLandmarks results = None \/
  HandTracker.multiHandLandmarks results = Some [] ->
  0 < n -> pool n s -> (1 <= emissionRate (options s))%Z ->
  let s1 := HandTracker.deliver (HandTracker.Update hands history) s in
  exists st',
    HandTracker.processResults results st = Some (st', HandTracker.NoHands) /\
    HandTracker.handPositions st' = [] /\
    HandTracker.handHistory st' = HandTracker.handHistory st /\
    HandTracker.deliver HandTracker.NoHands s1 = s1 /\
    fingerPositions s1 = Some (map HandTracker.toHand hands) /\
    Nat.min n (activeSlots s + extendedTips (map HandTracker.toHand hands))
    <= activeSlots (emitParticlesFromFingers s1).
Proof.
  intros Hnone Hn Hp HR s1.
  eexists. split.
  { unfold HandTracker.processResults. destruct Hnone as [-> | ->]; reflexivity. }
  simpl. repeat split.
  assert (Hp1 : pool n s1) by exact Hp.
  unfold emitParticlesFromFingers.
  change (fingerPositions s1) with (Some (map HandTracker.toHand hands)).
  change (activeSlots s) with (activeSlots s1).
  destruct (map HandTracker.toHand hands) as [|h hs].
  - pose proof (activeSlots_le s1). destruct Hp1 as (_ & Ha & _). simpl. lia.
  - destruct (emitHands_bounds n _ (h :: hs) Hn HR 0 s1 Hp1 eq_refl)
      as (_ & Hlo & _).
    exact Hlo.
Qed.

End TrackerLaws.

Example tracker_reports_five_tips_witness :
  exists hands history,
    @HandTracker.processResults demo oneDetection HandTracker.create
    = Some (HandTracker.mk (Some oneDetection) hands history,
            HandTracker.Update hands history) /\
    length hands = 1%nat /\
    Forall (fun h => length (HandTracker.tips h) = 5%nat /\
                     length (HandTracker.fingerExtension h) = 5%nat) hands.
Proof.
  destruct (@tracker_reports_five_tips demo oneDetection lineHand []
              HandTracker.create eq_refl) as [H _].
  destruct H as (hands & history & Hp & Hl & Hs & _).
  - repeat constructor.
  - simpl. lia.
  - exists hands, history. split; [exact Hp|]. split; [exact Hl | exact Hs].
Defined.

Example tracker_history_bounded_witness :
  let frames := replicate 12 oneDetection in
  let st := default HandTracker.create
              (@HandTracker.processAll demo frames HandTracker.create) in
  let history :=
    HandTracker.pushHistory detectedHands (HandTracker.handHistory st) in
  length (HandTracker.handHistory st) = 10%nat /\
  (length history <= 10)%nat /\
  last history = Some detectedHands.
Proof.
  intros frames st history.
  destruct (@tracker_history_bounded demo frames oneDetection st
              (HandTracker.mk (Some oneDetection) detectedHands history)
              detectedHands history)
    as (_ & _ & _ & Hlen & Hlast & _).
  - vm_compute. reflexivity.
  - vm_compute. reflexivity.
  - split; [vm_compute; reflexivity|]. split; [exact Hlen | exact Hlast].
Defined.

Example lost_hands_keep_emitting_witness :
  let s := sevenSlots false in
  let s1 :=
    HandTracker.deliver (HandTracker.Update detectedHands [detectedHands]) s in
  pool 7 s /\
  extendedTips (map HandTracker.toHand detectedHands) = 4%nat /\
  (4 <= activeSlots (@emitParticlesFromFingers demo s1))%nat.
Proof.
  intros s s1.
  assert (Hp : pool 7 s) by (unfold pool; vm_compute; repeat split; reflexivity).
  assert (He : extendedTips (map HandTracker.toHand detectedHands) = 4%nat)
    by (vm_compute; reflexivity).
  destruct (@lost_hands_keep_emitting demo emptyFrame HandTracker.create
              detectedHands [detectedHands] s 7%nat
              (or_intror eq_refl) ltac:(lia) Hp
              ltac:(vm_compute; discriminate))
    as (st' & _ & _ & _ & _ & _ & Hlo).
  fold s1 in Hlo. rewrite He in Hlo.
  change (activeSlots s) with 0%nat in Hlo.
  refine (conj Hp (conj He _)). simpl in Hlo. exact Hlo.
Defined.
